(** * export-docusaurus-pdf: a shallow embedding of the export pipeline

    The services of the repository (SidebarExpander, LinkCollector,
    PdfExporter, PdfMerger and the DocusaurusPdfExporter orchestrator) are
    asynchronous JavaScript methods that drive one Playwright page.  They are
    embedded here as functions in a small monad that records the calls made
    (a chronological trace) and carries JavaScript exceptions.  What the
    browser, the file system and pdf-lib answer is not computed by the code:
    it is read from a [World], a record of outcomes, so every theorem
    quantifies over all the answers the environment can give. *)

From Stdlib Require Import ZArith Lia DecimalString DecimalNat Sorted.
From stdpp Require Import base option list strings.

Set Default Proof Using "Type".

(** ** Errors (src/utils/errors.js) *)

Inductive ErrorName :=
  | PlainError          (* an Error raised by Playwright, fs or pdf-lib *)
  | ExportError
  | SidebarError
  | LinkCollectionError
  | PdfExportError
  | PdfMergeError.

#[warnings="-register-all"]
Inductive JsError :=
  | MkError (name : ErrorName) (message : string) (cause : option JsError).

Definition err_name (e : JsError) : ErrorName :=
  match e with MkError n _ _ => n end.
Definition err_message (e : JsError) : string :=
  match e with MkError _ m _ => m end.
Definition err_cause (e : JsError) : option JsError :=
  match e with MkError _ _ c => c end.

(** ** Calls visible from outside (logger, page, browser, file system) *)

Inductive LogLevel := Debug | Info | Warn | Error.

(** A page object of pdf-lib, identified by a number. *)
Definition PDFPage := nat.

(** A page of a written file: a page that was added to the document, or
    the blank page that [pdfDoc.save()] adds to a document without pages. *)
Inductive SavedPage :=
  | Copied (page : PDFPage)
  | Blank.

(** The pages that [pdfDoc.save()] serialises for a document: pdf-lib
    ([addDefaultPage], on by default) gives a document that has no page one
    blank page. *)
Definition savedPages (pdfDoc : list PDFPage) : list SavedPage :=
  match pdfDoc with
  | [] => [Blank]
  | _ :: _ => map Copied pdfDoc
  end.

Inductive Event :=
  | Logged (lvl : LogLevel) (msg : string)
  | BrowserLaunch
  | BrowserNewContext
  | ContextNewPage
  | BrowserClose
  | PageGoto (url : string)
  | PageWait (ms : nat)
  | WaitForSelector
  | AddStyleTag
  | ReplaceLinksEval (baseUrl : string)
  | CountLocator
  | HeadingsEval
  | HeightEval
  | PagePdf (path : string) (height : nat)
  | LinksEval
  | BulkExpandEval
  | GetClass
  | IsVisible
  | ScrollIntoView
  | ClickAttempt (strategy : string)
  | CreateTempDir
  | RemoveDir (dir : string)
  | LoadArtifact (path : string)
  | EnsureOutputDir
  | SaveDocument
  | WriteOutput (path : string) (document : list SavedPage).

(** ** The monad: a trace of calls and a JavaScript completion *)

Inductive Outcome (A : Type) :=
  | Returns (a : A)
  | Throws (e : JsError).
Arguments Returns {A} a.
Arguments Throws {A} e.

Definition Run (A : Type) : Type := list Event * Outcome A.

Definition ret {A} (a : A) : Run A := ([], Returns a).
Definition throw {A} (e : JsError) : Run A := ([], Throws e).

Definition bind {A B} (m : Run A) (f : A -> Run B) : Run B :=
  match m with
  | (t, Returns a) => let '(t', r) := f a in (t ++ t', r)
  | (t, Throws e) => (t, Throws e)
  end.

(** [try { m } catch (err) { h err }] *)
Definition tryCatch {A} (m : Run A) (h : JsError -> Run A) : Run A :=
  match m with
  | (t, Returns a) => (t, Returns a)
  | (t, Throws e) => let '(t', r) := h e in (t ++ t', r)
  end.

(** [try { m } finally { f }]: the completion of [m] is kept unless the
    finally block itself throws. *)
Definition tryFinally {A} (m : Run A) (f : Run unit) : Run A :=
  match m, f with
  | (t, r), (t', Returns _) => (t ++ t', r)
  | (t, _), (t', Throws e) => (t ++ t', Throws e)
  end.

(** One awaited call on the environment: the call is recorded and completes
    the way the environment says. *)
Definition perform {A} (ev : Event) (answer : Outcome A) : Run A :=
  ([ev], answer).

(** [promise.catch(() => d)] *)
Definition orElse {A} (m : Run A) (d : A) : Run A :=
  tryCatch m (fun _ => ret d).

Definition trace {A} (m : Run A) : list Event := fst m.
Definition completion {A} (m : Run A) : Outcome A := snd m.

Declare Scope run_scope.
Delimit Scope run_scope with run.
Notation "x <- m ;; k" := (bind m (fun x => k))
  (at level 100, m at next level, right associativity) : run_scope.
Notation "m ;;; k" := (bind m (fun _ => k))
  (at level 100, right associativity) : run_scope.
Local Open Scope run_scope.

(** src/utils/logger.js: the four logging functions, recorded as calls. *)
Definition debug (msg : string) : Run unit := ([Logged Debug msg], Returns tt).
Definition info (msg : string) : Run unit := ([Logged Info msg], Returns tt).
Definition warn (msg : string) : Run unit := ([Logged Warn msg], Returns tt).
Definition error (msg : string) : Run unit := ([Logged Error msg], Returns tt).

(** JavaScript truthiness of an optional string argument: [undefined] and
    the empty string are falsy. *)
Definition truthy (s : option string) : bool :=
  match s with
  | Some EmptyString => false
  | Some _ => true
  | None => false
  end.

Definition string_of_nat (n : nat) : string :=
  NilZero.string_of_uint (Nat.to_uint n).

(** ** PdfExporter (src/services/PdfExporter.js) *)

Record Heading := { level : Z; text : string; id : string }.

(** What the page answers once it shows a given URL. *)
Record PageView := {
  pv_goto : Outcome unit;
  pv_addStyleTag : Outcome unit;
  pv_styleSettle : Outcome unit;
  pv_replaceLinks : Outcome unit;
  pv_docCardListItemCount : Outcome nat;
  pv_pageContentCount : Outcome nat;
  pv_headings : Outcome (list Heading);
  (** [document.querySelector(skipToContent)]: the evaluation rejects, or
      finds no element, or finds one with this [offsetHeight] *)
  pv_skipToContent : Outcome (option nat);
  pv_pdf : Outcome unit
}.

Record ExportResult := {
  er_path : string; er_headings : list Heading; er_url : string
}.

Record ExportedPage := {
  path : string;
  headings : option (list Heading);
  url : string;
  pageIndex : nat
}.

Module PdfExporter.

Section WithPage.
Variable view : PageView.

Definition isDocListPage : Run bool :=
  tryCatch
    (docCardListItemCount <- perform CountLocator (pv_docCardListItemCount view);;
     pageContentCount <- perform CountLocator (pv_pageContentCount view);;
     ret ((0 <? docCardListItemCount) && (docCardListItemCount =? pageContentCount)))
    (fun err => debug "Error checking if page is doc list:";;; ret false).

Definition calculatePageHeight : Run nat :=
  tryCatch
    (height <- bind (perform HeightEval (pv_skipToContent view))
                 (fun element =>
                    ret (match element with
                         | Some offsetHeight => offsetHeight + 60
                         | None => 0
                         end));;
     ret height)
    (fun err => warn "Failed to calculate page height, using default";;;
                ret 1000).

Definition applyCustomStyles : Run unit :=
  tryCatch
    (perform AddStyleTag (pv_addStyleTag view);;;
     perform (PageWait 200) (pv_styleSettle view))
    (fun err => warn "Failed to apply custom styles:").

Definition replaceInternalLinks (baseUrl : string) : Run unit :=
  tryCatch
    (perform (ReplaceLinksEval baseUrl) (pv_replaceLinks view))
    (fun err => warn "Failed to replace internal links:").

Definition extractHeadings : Run (list Heading) :=
  tryCatch
    (headings <- perform HeadingsEval (pv_headings view);;
     ret headings)
    (fun err => warn "Failed to extract headings:";;; ret []).
End WithPage.

Section WithSite.
(** the page shown after [page.goto(url)] *)
Variable site : string -> PageView.

Definition exportPage (url outputPath : string) (baseUrl : option string)
  : Run (option ExportResult) :=
  let view := site url in
  tryCatch
    (info ("Exporting page: " +:+ url);;;
     perform (PageGoto url) (pv_goto view);;;
     debug ("Page loaded: " +:+ url);;;
     applyCustomStyles view;;;
     (if truthy baseUrl
      then replaceInternalLinks view (default "" baseUrl)
      else ret tt);;;
     shouldSkip <- isDocListPage view;;
     if shouldSkip : bool then
       warn ("Skipping export for " +:+ url +:+ " (documentation list page)");;;
       ret None
     else
       headings <- extractHeadings view;;
       height <- calculatePageHeight view;;
       perform (PagePdf outputPath height) (pv_pdf view);;;
       info ("Successfully exported: " +:+ url);;;
       ret (Some {| er_path := outputPath; er_headings := headings; er_url := url |}))
    (fun err =>
       throw (MkError PdfExportError ("Failed to export page " +:+ url) (Some err))).

(** The [for] loop of [exportPages], from index [i] on, with the two
    mutable locals as accumulators. *)
Fixpoint exportPagesFrom (urls : list string) (i : nat) (outputDir : string)
    (baseUrl : option string) (exportedFiles : list ExportedPage)
    (currentPageIndex : nat) : Run (list ExportedPage) :=
  match urls with
  | [] => ret exportedFiles
  | url :: rest =>
      let fileName := string_of_nat i +:+ ".pdf" in
      (* path.join(outputDir, fileName), which is this string for a
         normalised POSIX directory path other than the root; the name of
         the file is the last segment for every directory *)
      let outputPath := outputDir +:+ "/" +:+ fileName in
      st <- tryCatch
              (result <- exportPage url outputPath baseUrl;;
               match result with
               | Some r =>
                   ret (exportedFiles ++
                          [ {| path := er_path r;
                               headings := Some (er_headings r);
                               url := er_url r;
                               pageIndex := currentPageIndex |} ],
                        S currentPageIndex)
               | None => ret (exportedFiles, currentPageIndex)
               end)
              (fun err =>
                 warn ("Failed to export page " +:+ string_of_nat i +:+ " (" +:+ url +:+ "):");;;
                 ret (exportedFiles, currentPageIndex));;
      exportPagesFrom rest (S i) outputDir baseUrl (fst st) (snd st)
  end.

Definition exportPages (urls : list string) (outputDir : string)
    (baseUrl : option string) : Run (list ExportedPage) :=
  exportPagesFrom urls 0 outputDir baseUrl [] 0.

End WithSite.
End PdfExporter.

(** ** PdfMerger (src/services/PdfMerger.js) *)

(** What [PDFDocument.load(fs.readFileSync(path))] followed by
    [pdfDoc.copyPages] gives for the file at a path. *)
Inductive Artifact :=
  | LoadFails (e : JsError)
  | CopyFails (e : JsError)
  | Loaded (copiedPages : list PDFPage).

Record Disk := {
  artifactAt : string -> Artifact;
  d_ensureDirectoryExists : Outcome unit;
  d_save : Outcome unit;
  d_writeFileSync : Outcome unit
}.

(** The metadata array holds references to record objects; [merge] writes
    their [pageIndex] field in place.  Objects live in a store, the array is
    a list of addresses, and one object may be listed twice. *)
Definition Store := nat -> ExportedPage.

Definition setPageIndex (s : Store) (a : nat) (v : nat) : Store :=
  fun b =>
    if Nat.eqb b a
    then {| path := path (s a); headings := headings (s a);
            url := url (s a); pageIndex := v |}
    else s b.

Module PdfMerger.

Record MergeState := {
  store : Store;
  pdfDoc : list PDFPage;     (* pages added to the output document *)
  pages : list PDFPage;
  pageOffset : nat
}.

Section WithDisk.
Variable disk : Disk.

(** One iteration of the [for] loop of [merge]. *)
Definition mergeOne (st : MergeState) (i total : nat) (a : nat) : Run MergeState :=
  let meta := store st a in
  let localPath := path meta in
  debug ("Merging file " +:+ string_of_nat (i + 1) +:+ "/" +:+ string_of_nat total
           +:+ ": " +:+ localPath);;;
  tryCatch
    (copiedPages <-
       perform (LoadArtifact localPath)
         (match artifactAt disk localPath with
          | LoadFails e => Throws e
          | CopyFails e => Throws e
          | Loaded ps => Returns ps
          end);;
     ret {| store := setPageIndex (store st) a (pageOffset st);
            pageOffset := pageOffset st + length copiedPages;
            pdfDoc := pdfDoc st ++ copiedPages;
            pages := pages st ++ copiedPages |})
    (fun err =>
       warn ("Failed to merge file " +:+ localPath +:+ ":");;;
       ret st).

Fixpoint mergeFrom (metadata : list nat) (i total : nat) (st : MergeState)
  : Run MergeState :=
  match metadata with
  | [] => ret st
  | a :: rest =>
      st' <- mergeOne st i total a;;
      mergeFrom rest (S i) total st'
  end.

Definition mergeLoop (s : Store) (metadata : list nat) : Run MergeState :=
  mergeFrom metadata 0 (length metadata)
    {| store := s; pdfDoc := []; pages := []; pageOffset := 0 |}.

(** The merged document as it stands when the loop is over (whatever the
    later steps do), and the store the caller is left with. *)
Definition mergedState (s : Store) (metadata : list nat) : MergeState :=
  match completion (mergeLoop s metadata) with
  | Returns st => st
  | Throws _ => {| store := s; pdfDoc := []; pages := []; pageOffset := 0 |}
  end.

(** [merge(metadata, outputPath)]; [None] is a missing ([undefined] or
    [null]) argument.  The value is the completion of the call together
    with the store after it. *)
Definition merge (s : Store) (metadata : option (list nat)) (outputPath : string)
  : Run string * Store :=
  match metadata with
  | None | Some [] =>
      (throw (MkError PdfMergeError "No source files provided for merging" None), s)
  | Some md =>
      (info ("Starting PDF merge of " +:+ string_of_nat (length md) +:+ " files");;;
       tryCatch
         (st <- mergeLoop s md;;
          perform EnsureOutputDir (d_ensureDirectoryExists disk);;;
          perform SaveDocument (d_save disk);;;
          perform (WriteOutput outputPath (savedPages (pdfDoc st)))
            (d_writeFileSync disk);;;
          info ("PDF merge successful. Output file: " +:+ outputPath);;;
          ret outputPath)
         (fun err =>
            throw (MkError PdfMergeError "Failed to merge PDF files" (Some err))),
       store (mergedState s md))
  end.
End WithDisk.

(** *** The bookmark outline *)

(** A PDF outline dictionary.  [Title] and [Dest] are set when the
    dictionary is made; the five reference entries hold the object number
    that was written there, [None] when the entry was never written or was
    written with [undefined] ([dict.get] answers [undefined] in both cases). *)
Record BookmarkDict := {
  Title : string;
  Dest : PDFPage;
  Parent : option nat;
  First : option nat;
  Last : option nat;
  Prev : option nat;
  Next : option nat;
  Count : option nat
}.

Record BookmarkInfo := {
  dict : BookmarkDict;
  info_level : Z;
  parentIndex : Z;
  index : nat
}.

(** The [stack] array: a JavaScript array whose holes and [undefined]
    entries read alike. *)
Abbreviation Stack := (list (option nat)).

(** [stack[k]] for an integer [k]; callers only read at [k >= 0]. *)
Definition stackGet (stack : Stack) (k : Z) : option nat :=
  if (k <? 0)%Z then None else mjoin (stack !! Z.to_nat k).

(** [stack[k] = v]: in range the slot is overwritten, beyond the end the
    array grows with holes, and a negative [k] sets a property that is no
    array element. *)
Definition stackSet (stack : Stack) (k : Z) (v : option nat) : Stack :=
  if (k <? 0)%Z then stack
  else if (Z.to_nat k <? length stack)%nat then <[Z.to_nat k := v]> stack
  else stack ++ replicate (Z.to_nat k - length stack) None ++ [v].

(** [for (let i = from; i < stack.length; i++) stack[i] = undefined] *)
Fixpoint clearLoop (fuel : nat) (i : Z) (stack : Stack) : Stack :=
  match fuel with
  | O => stack
  | S fuel' =>
      if (i <? Z.of_nat (length stack))%Z
      then clearLoop fuel' (i + 1) (stackSet stack i None)
      else stack
  end.

Definition clearDeeper (from : Z) (stack : Stack) : Stack :=
  clearLoop (Z.to_nat (Z.of_nat (length stack) - from)) from stack.

Definition newDict (text : string) (targetPage : PDFPage) : BookmarkDict :=
  {| Title := text; Dest := targetPage; Parent := None; First := None;
     Last := None; Prev := None; Next := None; Count := None |}.

(** The body of the inner loop of the first pass, for one heading. *)
Definition addHeading (targetPage : PDFPage)
    (st : list BookmarkInfo * Stack) (heading : Heading)
  : list BookmarkInfo * Stack :=
  let '(bookmarkInfos, stack) := st in
  let bookmarkDict := newDict (text heading) targetPage in
  let parentIndex :=
    if (1 <? level heading)%Z then
      let parentLevel := (level heading - 2)%Z in
      match (0 <=? parentLevel)%Z, stackGet stack parentLevel with
      | true, Some p => Z.of_nat p
      | _, _ => (-1)%Z
      end
    else (-1)%Z in
  let bookmarkInfos' :=
    bookmarkInfos ++
      [ {| dict := bookmarkDict; info_level := level heading;
           parentIndex := parentIndex; index := length bookmarkInfos |} ] in
  let stack' := stackSet stack (level heading - 1) (Some (length bookmarkInfos' - 1)) in
  (bookmarkInfos', clearDeeper (level heading) stack').

(** The first pass: metadata whose page index is out of range are skipped. *)
Definition addPage (pages : list PDFPage)
    (st : list BookmarkInfo * Stack) (meta : ExportedPage)
  : list BookmarkInfo * Stack :=
  match pages !! pageIndex meta with
  | None => st
  | Some targetPage => foldl (addHeading targetPage) st (default [] (headings meta))
  end.

Definition firstPass (pages : list PDFPage) (metadata : list ExportedPage)
  : list BookmarkInfo * Stack :=
  foldl (addPage pages) ([], []) metadata.

Definition setDict (info : BookmarkInfo) (d : BookmarkDict) : BookmarkInfo :=
  {| dict := d; info_level := info_level info;
     parentIndex := parentIndex info; index := index info |}.

(** [dict.ref].  The dictionaries are made by [PDFDict.withContext]; the
    reference that [pdfDoc.context.register(bookmarkDict)] returns is
    dropped, and a [PDFDict] of pdf-lib has no property [ref]: the read
    gives [undefined]. *)
Definition ref (d : BookmarkDict) : option nat := None.

(** [dict.set(PDFName.of(...), v)], [v] being a reference or [undefined]. *)
Definition setParent (v : option nat) (d : BookmarkDict) : BookmarkDict :=
  {| Title := Title d; Dest := Dest d; Parent := v; First := First d;
     Last := Last d; Prev := Prev d; Next := Next d; Count := Count d |}.
Definition setFirst (v : option nat) (d : BookmarkDict) : BookmarkDict :=
  {| Title := Title d; Dest := Dest d; Parent := Parent d; First := v;
     Last := Last d; Prev := Prev d; Next := Next d; Count := Count d |}.
Definition setLast (v : option nat) (d : BookmarkDict) : BookmarkDict :=
  {| Title := Title d; Dest := Dest d; Parent := Parent d; First := First d;
     Last := v; Prev := Prev d; Next := Next d; Count := Count d |}.
Definition setPrev (v : option nat) (d : BookmarkDict) : BookmarkDict :=
  {| Title := Title d; Dest := Dest d; Parent := Parent d; First := First d;
     Last := Last d; Prev := v; Next := Next d; Count := Count d |}.
Definition setNext (v : option nat) (d : BookmarkDict) : BookmarkDict :=
  {| Title := Title d; Dest := Dest d; Parent := Parent d; First := First d;
     Last := Last d; Prev := Prev d; Next := v; Count := Count d |}.
Definition setCount (v : nat) (d : BookmarkDict) : BookmarkDict :=
  {| Title := Title d; Dest := Dest d; Parent := Parent d; First := First d;
     Last := Last d; Prev := Prev d; Next := Next d; Count := Some v |}.

(** [dict.get(Count)?.asNumber() || 0] *)
Definition getCount (d : BookmarkDict) : nat := default 0 (Count d).

(** [bookmarkInfos[k].dict.set(...)]: the dictionary of entry [k] is changed
    in place; [None] stands for the TypeError of an index out of range. *)
Definition updateDict (infos : list BookmarkInfo) (k : nat)
    (f : BookmarkDict -> BookmarkDict) : option (list BookmarkInfo) :=
  match infos !! k with
  | Some info => Some (<[k := setDict info (f (dict info))]> infos)
  | None => None
  end.

(** The search [for (let j = i - 1; j >= 0; j--)] for the previous bookmark
    with the same level and the same parent index; [n] is [j + 1]. *)
Fixpoint findPrevious (infos : list BookmarkInfo) (lvl parent : Z) (n : nat)
  : option nat :=
  match n with
  | O => None
  | S j =>
      match infos !! j with
      | Some c =>
          if (info_level c =? lvl)%Z && (parentIndex c =? parent)%Z
          then Some j
          else findPrevious infos lvl parent j
      | None => None
      end
  end.

(** The body of the second pass for index [i]. *)
Definition linkOne (infos : list BookmarkInfo) (i : nat)
  : option (list BookmarkInfo) :=
  info ← infos !! i;
  infos1 ←
    (if (0 <=? parentIndex info)%Z then
       let p := Z.to_nat (parentIndex info) in
       parentInfo ← infos !! p;
       s1 ← updateDict infos i (setParent (ref (dict parentInfo)));
       parentInfo1 ← s1 !! p;
       s2 ← (if First (dict parentInfo1) is Some _ then Some s1
             else updateDict s1 p (setFirst (ref (dict info))));
       s3 ← updateDict s2 p (setLast (ref (dict info)));
       parentInfo3 ← s3 !! p;
       updateDict s3 p (setCount (getCount (dict parentInfo3) + 1))
     else Some infos);
  if (0 <? i)%nat then
    match findPrevious infos1 (info_level info) (parentIndex info) i with
    | Some j =>
        previous ← infos1 !! j;
        s1 ← updateDict infos1 i (setPrev (ref (dict previous)));
        updateDict s1 j (setNext (ref (dict info)))
    | None => Some infos1
    end
  else Some infos1.

Fixpoint linkFrom (n : nat) (i : nat) (infos : list BookmarkInfo)
  : option (list BookmarkInfo) :=
  match n with
  | O => Some infos
  | S n' => infos' ← linkOne infos i; linkFrom n' (S i) infos'
  end.

Definition secondPass (infos : list BookmarkInfo) : option (list BookmarkInfo) :=
  linkFrom (length infos) 0 infos.

Definition isRoot (info : BookmarkInfo) : bool :=
  (info_level info =? 1)%Z || (parentIndex info =? -1)%Z.

(** [buildBookmarkHierarchy]: the linked entries (the dictionaries now
    registered in the document) and the returned root dictionaries. *)
Definition buildBookmarkHierarchy (pages : list PDFPage) (metadata : list ExportedPage)
  : option (list BookmarkInfo * list BookmarkDict) :=
  bookmarkInfos ← secondPass (fst (firstPass pages metadata));
  Some (bookmarkInfos, map dict (filter (fun info => isRoot info = true) bookmarkInfos)).

End PdfMerger.

(** ** Configuration (src/config/defaults.js), the fields the services read *)

Record Config := {
  animation : nat;
  strategies : list string;
  cleanTempFiles : bool
}.

Definition defaultConfig : Config :=
  {| animation := 800;
     strategies := ["click"; "forceClick"; "javascriptClick"];
     cleanTempFiles := true |}.

(** [hay.includes(needle)] *)
Fixpoint includes (needle hay : string) : bool :=
  String.prefix needle hay ||
  match hay with
  | EmptyString => false
  | String _ rest => includes needle rest
  end.

(** ** SidebarExpander (src/services/SidebarExpander.js) *)

(** What one collapsible item answers to the calls made on it. *)
Record ItemView := {
  iv_class : Outcome (option string);     (* getAttribute("class") *)
  iv_clickableCount : Outcome nat;        (* clickableElement.count() *)
  iv_visible : Outcome bool;              (* first isVisible() *)
  iv_scroll : Outcome unit;               (* scrollIntoViewIfNeeded *)
  iv_scrollSettle : Outcome unit;         (* waitForTimeout(300) *)
  iv_visibleAfter : Outcome bool;         (* second isVisible() *)
  iv_click : string -> Outcome unit;      (* the interaction of a strategy *)
  iv_animationWait : Outcome unit         (* waitForTimeout(animation) *)
}.

(** An item with the collapsible items found below it at the next level
    ([Throws]: counting them rejects). *)
#[warnings="-register-all"]
Inductive NavItem :=
  | Item (view : ItemView) (subItems : Outcome (list NavItem)).

Record Sidebar := {
  sb_bulkEval : Outcome unit;
  sb_bulkSettle : Outcome unit;
  sb_level1 : Outcome (list NavItem);
  sb_bulkEvalAgain : Outcome unit;
  sb_bulkSettleAgain : Outcome unit;
  sb_finalWait : Outcome unit
}.

Module SidebarExpander.

Section WithConfig.
Variable config : Config.

Definition expandAllWithJavaScript (eval settle : Outcome unit) : Run bool :=
  tryCatch
    (perform BulkExpandEval eval;;;
     perform (PageWait (animation config * 2)) settle;;;
     debug "Expanded all menus using JavaScript";;;
     ret true)
    (fun err =>
       warn "Could not expand menus using JavaScript, falling back to manual clicks";;;
       ret false).

(** The loop of [clickWithRetry] over the strategies that are left; the
    inner value says whether the function has returned. *)
Fixpoint clickWithRetryFrom (click : string -> Outcome unit)
    (strategies : list string) (level index : nat) : Run unit :=
  match strategies with
  | [] => ret tt
  | strategy :: rest =>
      returned <-
        tryCatch
          (if String.eqb strategy "click" then
             perform (ClickAttempt strategy) (click strategy);;; ret true
           else if String.eqb strategy "forceClick" then
             perform (ClickAttempt strategy) (click strategy);;; ret true
           else if String.eqb strategy "javascriptClick" then
             perform (ClickAttempt strategy) (click strategy);;; ret true
           else ret false)
          (fun err =>
             match rest with
             | [] =>
                 warn ("All click strategies failed for level "
                         +:+ string_of_nat (level + 1) +:+ ", index "
                         +:+ string_of_nat index +:+ ":");;;
                 throw err
             | _ :: _ =>
                 debug ("Click strategy " +:+ strategy +:+ " failed, trying next...");;;
                 ret false
             end);;
      if returned : bool then ret tt
      else clickWithRetryFrom click rest level index
  end.

Definition clickWithRetry (view : ItemView) (level index : nat) : Run unit :=
  clickWithRetryFrom (iv_click view) (strategies config) level index.

Definition ensureVisible (view : ItemView) : Run bool :=
  isVisible <- orElse (perform IsVisible (iv_visible view)) false;;
  (if isVisible : bool then ret tt
   else
     orElse (perform ScrollIntoView (iv_scroll view)) tt;;;
     perform (PageWait 300) (iv_scrollSettle view));;;
  orElse (perform IsVisible (iv_visibleAfter view)) false.

Definition isActive (itemClass : option string) : bool :=
  match itemClass with
  | Some c => negb (String.eqb c "") && includes "menu__list-item-collapsible--active" c
  | None => false
  end.

(** [expandItem level i item] is the body of the [for] loop of
    [expandSubSidebar(parent, level)] for the item at index [i], with its
    [try]/[catch]; the inner [loop] is the [for] loop one level below. *)
Fixpoint expandItem (level i : nat) (item : NavItem) {struct item} : Run unit :=
  match item with
  | Item view subItems =>
      let expandBelow : Run unit :=
        tryCatch
          (match subItems with
           | Throws e => perform CountLocator (Throws e)
           | Returns items =>
               perform CountLocator (Returns (length items));;;
               (fix loop (l : list NavItem) (k : nat) : Run unit :=
                  match l with
                  | [] => ret tt
                  | it :: rest => expandItem (S level) k it;;; loop rest (S k)
                  end) items 0
           end)
          (fun err =>
             warn ("Error in expandSubSidebar at level "
                     +:+ string_of_nat (S level + 1) +:+ ":")) in
      tryCatch
        (itemClass <- orElse (perform GetClass (iv_class view)) (Some "");;
         if isActive itemClass then expandBelow
         else
           hasButton <- orElse (perform CountLocator (iv_clickableCount view)) 0;;
           isVisible <- ensureVisible view;;
           if isVisible : bool then
             clickWithRetry view level i;;;
             perform (PageWait (animation config)) (iv_animationWait view);;;
             expandBelow
           else
             warn ("Skipping non-visible item at level "
                     +:+ string_of_nat (level + 1) +:+ ", index "
                     +:+ string_of_nat i))
        (fun err =>
           warn ("Error processing sidebar item at level "
                   +:+ string_of_nat (level + 1) +:+ ", index "
                   +:+ string_of_nat i +:+ ":"))
  end.

Fixpoint expandItems (level i : nat) (items : list NavItem) : Run unit :=
  match items with
  | [] => ret tt
  | it :: rest => expandItem level i it;;; expandItems level (S i) rest
  end.

(** [expandSubSidebar(parent, level)], [subItems] being what the locator
    of the next level finds below [parent]. *)
Definition expandSubSidebar (subItems : Outcome (list NavItem)) (level : nat)
  : Run unit :=
  tryCatch
    (subItemCount <- perform CountLocator
                       (match subItems with
                        | Returns items => Returns (length items)
                        | Throws e => Throws e
                        end);;
     match subItems with
     | Returns items => expandItems level 0 items
     | Throws _ => ret tt
     end)
    (fun err =>
       warn ("Error in expandSubSidebar at level "
               +:+ string_of_nat (level + 1) +:+ ":")).

(** The body of the loop of [expandAllManually] for the top-level item at
    index [i]. *)
Definition expandTopItem (i : nat) (item : NavItem) : Run unit :=
  match item with
  | Item view subItems =>
      tryCatch
        (debug ("Processing top-level sidebar item " +:+ string_of_nat i);;;
         itemClass <- orElse (perform GetClass (iv_class view)) (Some "");;
         if isActive itemClass then expandSubSidebar subItems 1
         else
           hasButton <- orElse (perform CountLocator (iv_clickableCount view)) 0;;
           ensureVisible view;;;
           clickWithRetry view 0 i;;;
           perform (PageWait (animation config)) (iv_animationWait view);;;
           expandSubSidebar subItems 1)
        (fun err =>
           warn ("Error processing top-level sidebar item "
                   +:+ string_of_nat i +:+ ":"))
  end.

Fixpoint expandTopItems (i : nat) (items : list NavItem) : Run unit :=
  match items with
  | [] => ret tt
  | it :: rest => expandTopItem i it;;; expandTopItems (S i) rest
  end.

Definition expandAllManually (level1 : Outcome (list NavItem)) : Run unit :=
  ulCount <- perform CountLocator
               (match level1 with
                | Returns items => Returns (length items)
                | Throws e => Throws e
                end);;
  debug ("Found " +:+ string_of_nat ulCount +:+ " top-level sidebar items");;;
  match level1 with
  | Returns items => expandTopItems 0 items
  | Throws _ => ret tt
  end.

Definition expandAll (sb : Sidebar) : Run unit :=
  jsSuccess <- expandAllWithJavaScript (sb_bulkEval sb) (sb_bulkSettle sb);;
  expandAllManually (sb_level1 sb);;;
  expandAllWithJavaScript (sb_bulkEvalAgain sb) (sb_bulkSettleAgain sb);;;
  perform (PageWait (animation config)) (sb_finalWait sb).

End WithConfig.
End SidebarExpander.

(** ** LinkCollector (src/services/LinkCollector.js) *)

(** An [a] element of the document: its class tokens and its [href]. *)
Record Anchor := { classList : list string; href : string }.

(** The default link selector [a.menu__link:not([class*=menuExternalLink])]. *)
Definition matchesLinkSelector (a : Anchor) : bool :=
  existsb (String.eqb "menu__link") (classList a)
  && negb (existsb (includes "menuExternalLink") (classList a)).

(** [page.$$eval(selector, (as) => as.map((a) => a.href))] on the anchors of
    the document, in document order. *)
Definition evalLinks (document : list Anchor) : list string :=
  map href (filter (fun a => matchesLinkSelector a = true) document).

Record NavigationPage := {
  np_goto : Outcome unit;
  np_loadWait : Outcome unit;               (* waitForTimeout(2000) *)
  np_waitForSelector : Outcome unit;
  np_level1Count : Outcome nat;
  np_sidebar : Sidebar;
  np_expandedWait : Outcome unit;           (* waitForTimeout(animation * 2) *)
  (** the anchors of the document when the links are extracted
      ([Throws]: the evaluation rejects) *)
  np_document : Outcome (list Anchor)
}.

Module LinkCollector.

Section WithConfig.
Variable config : Config.
Variable nav : NavigationPage.

Definition evalLinksOutcome : Outcome (list string) :=
  match np_document nav with
  | Returns document => Returns (evalLinks document)
  | Throws e => Throws e
  end.

Definition collectLinksAlternative : Run (list string) :=
  tryCatch
    (allLinks <- perform LinksEval evalLinksOutcome;;
     info ("Collected " +:+ string_of_nat (length allLinks)
             +:+ " links (alternative method)");;;
     ret allLinks)
    (fun err =>
       throw (MkError LinkCollectionError
                "Failed to collect links using alternative method" (Some err))).

Definition collectAllLinks (baseUrl : string) : Run (list string) :=
  info "Waiting for page to load...";;;
  perform (PageGoto baseUrl) (np_goto nav);;;
  perform (PageWait 2000) (np_loadWait nav);;;
  debug "Page loaded, starting link collection";;;
  found <- tryCatch
             (perform WaitForSelector (np_waitForSelector nav);;; ret true)
             (fun err =>
                warn "Sidebar items not found, trying alternative approach";;;
                ret false);;
  if found : bool then
    ulCount <- perform CountLocator (np_level1Count nav);;
    info ("Found " +:+ string_of_nat ulCount +:+ " top-level sidebar sections");;;
    SidebarExpander.expandAll config (np_sidebar nav);;;
    perform (PageWait (animation config * 2)) (np_expandedWait nav);;;
    debug "Extracting links from sidebar...";;;
    hrefs <- perform LinksEval evalLinksOutcome;;
    info ("Collected " +:+ string_of_nat (length hrefs) +:+ " links from sidebar");;;
    ret hrefs
  else collectLinksAlternative.

End WithConfig.
End LinkCollector.

(** ** The orchestrator (src/services/Exporter.js) *)

Record World := {
  w_launch : Outcome unit;
  w_newContext : Outcome unit;
  w_newPage : Outcome unit;
  w_verifyGoto : Outcome unit;
  (** utils/fileSystem.js, [resolveOutputPath(outputPath).fullPath]: what
      [path.resolve(process.cwd(), outputPath)] answers *)
  w_resolveOutputPath : string -> string;
  w_createTempDirectory : Outcome string;
  w_navigation : NavigationPage;
  w_site : string -> PageView;
  w_disk : Disk;
  w_removeDirectory : Outcome unit;
  w_close : Outcome unit
}.

(** The fields of the exporter object; [false] is [null]. *)
Record Exporter := { browser : bool; context : bool; page : bool }.

Definition dummyPage : ExportedPage :=
  {| path := ""; headings := None; url := ""; pageIndex := 0 |}.

(** The store holding the records of an array of distinct fresh objects:
    the object of index [k] is at address [k]. *)
Definition storeOf (files : list ExportedPage) : Store :=
  fun a => nth a files dummyPage.

Module DocusaurusPdfExporter.

Section WithWorld.
Variable config : Config.
Variable w : World.

(** [initialize()]: the completion, and the fields of [this] afterwards. *)
Definition initialize (this : Exporter) : Run unit * Exporter :=
  match w_launch w with
  | Throws e => (perform BrowserLaunch (Throws e), this)
  | Returns _ =>
      let this1 := {| browser := true; context := context this; page := page this |} in
      match w_newContext w with
      | Throws e =>
          (perform BrowserLaunch (w_launch w);;;
           perform BrowserNewContext (Throws e), this1)
      | Returns _ =>
          let this2 := {| browser := true; context := true; page := page this |} in
          match w_newPage w with
          | Throws e =>
              (perform BrowserLaunch (w_launch w);;;
               perform BrowserNewContext (w_newContext w);;;
               perform ContextNewPage (Throws e), this2)
          | Returns _ =>
              (perform BrowserLaunch (w_launch w);;;
               perform BrowserNewContext (w_newContext w);;;
               perform ContextNewPage (w_newPage w),
               {| browser := true; context := true; page := true |})
          end
      end
  end.

Definition verifyDocusaurusRunning (url : string) : Run unit :=
  tryCatch
    (info ("Checking if Docusaurus is running: " +:+ url);;;
     perform (PageGoto url) (w_verifyGoto w);;;
     info "Docusaurus is running")
    (fun err =>
       throw (MkError ExportError
                ("Failed to connect to Docusaurus at " +:+ url
                   +:+ ". Make sure the server is running.") (Some err))).

(** The [try] block of [export] after [initialize]. *)
Definition exportSteps (url outputPath : string) : Run string :=
  verifyDocusaurusRunning url;;;
  let fullPath := w_resolveOutputPath w outputPath in
  tempDir <- perform CreateTempDir (w_createTempDirectory w);;
  info "---------------------";;;
  links <- LinkCollector.collectAllLinks config (w_navigation w) url;;
  exportedFiles <- PdfExporter.exportPages (w_site w) links tempDir None;;
  (if (length exportedFiles =? 0)%nat
   then throw (MkError ExportError "No pages were successfully exported" None)
   else ret tt);;;
  fst (PdfMerger.merge (w_disk w) (storeOf exportedFiles)
         (Some (seq 0 (length exportedFiles))) fullPath);;;
  (if cleanTempFiles config
   then perform (RemoveDir tempDir) (w_removeDirectory w)
   else ret tt);;;
  ret fullPath.

Definition export (this : Exporter) (url outputPath : string)
  : Run string * Exporter :=
  let '(init, this') := initialize this in
  (tryFinally
     (tryCatch
        (init;;; exportSteps url outputPath)
        (fun err => error "Export failed:";;; throw err))
     (if browser this'
      then info "Closing browser...";;; perform BrowserClose (w_close w)
      else ret tt),
   this').

(** A new exporter object, as the constructor leaves it. *)
Definition newExporter : Exporter :=
  {| browser := false; context := false; page := false |}.

End WithWorld.
End DocusaurusPdfExporter.

(** ** Vocabulary of the statements *)

Definition outputPathOf (outputDir : string) (i : nat) : string :=
  outputDir +:+ "/" +:+ string_of_nat i +:+ ".pdf".

(** The completions of the calls of [exportPage] that [exportPages] makes,
    by position in the input list (the first position being [i]). *)
Fixpoint pageOutcomes (site : string -> PageView) (urls : list string) (i : nat)
    (outputDir : string) (baseUrl : option string)
  : list (Outcome (option ExportResult)) :=
  match urls with
  | [] => []
  | u :: rest =>
      completion (PdfExporter.exportPage site u (outputPathOf outputDir i) baseUrl)
        :: pageOutcomes site rest (S i) outputDir baseUrl
  end.

(** A call that gave a result, as opposed to [null] (a listing page) or a
    thrown error. *)
Definition exported (o : Outcome (option ExportResult)) : bool :=
  match o with
  | Returns (Some _) => true
  | _ => false
  end.

Definition skippedOrFailed (outcomes : list (Outcome (option ExportResult))) : nat :=
  length (filter (fun o => exported o = false) outcomes).

Definition survivingUrls (urls : list string)
    (outcomes : list (Outcome (option ExportResult))) : list string :=
  map fst (filter (fun p => exported (snd p) = true) (zip urls outcomes)).

(** ** Sample inputs *)

(** A page that loads, measures and prints without trouble: [cards]
    document cards among [blocks] top-level content blocks, the content
    region being [region] ([None]: no such element). *)
Definition contentPage (cards blocks : nat) (region : option nat) : PageView :=
  {| pv_goto := Returns tt;
     pv_addStyleTag := Returns tt;
     pv_styleSettle := Returns tt;
     pv_replaceLinks := Returns tt;
     pv_docCardListItemCount := Returns cards;
     pv_pageContentCount := Returns blocks;
     pv_headings := Returns [];
     pv_skipToContent := Returns region;
     pv_pdf := Returns tt |}.

Definition timeoutError : JsError :=
  MkError PlainError "Timeout 10000ms exceeded." None.

Definition closedError : JsError :=
  MkError PlainError "Target page, context or browser has been closed" None.

(** Events of the browser life cycle, of the link rewriting and of the
    merger; the link collector and the page renderer make none of them when
    no base URL is passed. *)
Definition lifecycleEvent (e : Event) : bool :=
  match e with
  | BrowserLaunch | BrowserNewContext | ContextNewPage | BrowserClose => true
  | _ => false
  end.

Definition rewriteEvent (e : Event) : bool :=
  match e with
  | ReplaceLinksEval _ => true
  | _ => false
  end.

Definition mergeEvent (e : Event) : bool :=
  match e with
  | LoadArtifact _ | EnsureOutputDir | SaveDocument | WriteOutput _ _ => true
  | _ => false
  end.

Definition ordinary (e : Event) : Prop :=
  lifecycleEvent e = false /\ rewriteEvent e = false /\ mergeEvent e = false.

(** Every call recorded by a run satisfies [P]. *)
Definition traceAll {A} (P : Event -> Prop) (m : Run A) : Prop :=
  Forall P (trace m).

(** A sidebar that cannot be counted any more: the page was closed, or a
    click of the bulk pass navigated away. *)
Definition lostSidebar : Sidebar :=
  {| sb_bulkEval := Returns tt;
     sb_bulkSettle := Returns tt;
     sb_level1 := Throws closedError;
     sb_bulkEvalAgain := Returns tt;
     sb_bulkSettleAgain := Returns tt;
     sb_finalWait := Returns tt |}.

(** What the loop of [merge] copies for the record at address [a]: the
    pages of its artifact, or nothing when it cannot be loaded or copied. *)
Definition copiedPages (disk : Disk) (s : Store) (a : nat) : list PDFPage :=
  match artifactAt disk (path (s a)) with
  | Loaded ps => ps
  | _ => []
  end.

(** The state after one iteration of the loop of [merge]. *)
Definition mergeStep (disk : Disk) (st : PdfMerger.MergeState) (a : nat)
  : PdfMerger.MergeState :=
  match artifactAt disk (path (PdfMerger.store st a)) with
  | Loaded ps =>
      {| PdfMerger.store := setPageIndex (PdfMerger.store st) a (PdfMerger.pageOffset st);
         PdfMerger.pageOffset := PdfMerger.pageOffset st + length ps;
         PdfMerger.pdfDoc := PdfMerger.pdfDoc st ++ ps;
         PdfMerger.pages := PdfMerger.pages st ++ ps |}
  | _ => st
  end.

(** Three exported records, the second of which has lost its artifact. *)
Definition sampleFiles : list ExportedPage :=
  [ {| path := "tmp/0.pdf"; headings := Some []; url := "http://localhost:3000/docs/a";
       pageIndex := 0 |};
    {| path := "tmp/1.pdf"; headings := Some []; url := "http://localhost:3000/docs/b";
       pageIndex := 1 |};
    {| path := "tmp/2.pdf"; headings := Some []; url := "http://localhost:3000/docs/c";
       pageIndex := 2 |} ].

Definition sampleDisk : Disk :=
  {| artifactAt := fun p =>
       if String.eqb p "tmp/0.pdf" then Loaded [10; 11; 12]
       else if String.eqb p "tmp/2.pdf" then Loaded [20; 21]
       else LoadFails (MkError PlainError "ENOENT: no such file or directory" None);
     d_ensureDirectoryExists := Returns tt;
     d_save := Returns tt;
     d_writeFileSync := Returns tt |}.

Definition clickableItem (subItems : list NavItem) : NavItem :=
  Item {| iv_class := Returns (Some "menu__list-item-collapsible"%string);
          iv_clickableCount := Returns 1;
          iv_visible := Returns true;
          iv_scroll := Returns tt;
          iv_scrollSettle := Returns tt;
          iv_visibleAfter := Returns true;
          iv_click := fun _ => Returns tt;
          iv_animationWait := Returns tt |}
       (Returns subItems).

Definition twoSections : Sidebar :=
  {| sb_bulkEval := Returns tt;
     sb_bulkSettle := Returns tt;
     sb_level1 := Returns [clickableItem [clickableItem []]; clickableItem []];
     sb_bulkEvalAgain := Returns tt;
     sb_bulkSettleAgain := Returns tt;
     sb_finalWait := Returns tt |}.

Definition menuLink (target : string) : Anchor :=
  {| classList := ["menu__link"%string]; href := target |}.

(** A navigation page whose sidebar lists the same document under two
    categories; [found] says whether the top-level markers show up. *)
Definition repeatedLinkPage (found : bool) : NavigationPage :=
  {| np_goto := Returns tt;
     np_loadWait := Returns tt;
     np_waitForSelector := if found then Returns tt else Throws timeoutError;
     np_level1Count := Returns 2;
     np_sidebar := twoSections;
     np_expandedWait := Returns tt;
     np_document :=
       Returns [ menuLink "http://localhost:3000/docs/intro";
                 {| classList := ["menu__link"; "menuExternalLink_NmtK"]%string;
                    href := "https://github.com/" |};
                 menuLink "http://localhost:3000/docs/intro" ] |}.

(** [path.resolve] in the working directory [/work], on the plain relative
    paths that the sample runs pass. *)
Definition underWork (outputPath : string) : string := "/work/" +:+ outputPath.

(** A site all of whose pages are listing pages. *)
Definition listingSite : World :=
  {| w_launch := Returns tt;
     w_newContext := Returns tt;
     w_newPage := Returns tt;
     w_verifyGoto := Returns tt;
     w_resolveOutputPath := underWork;
     w_createTempDirectory := Returns "/work/pdfsTempab12cd"%string;
     w_navigation := repeatedLinkPage true;
     w_site := fun _ => contentPage 3 3 (Some 400);
     w_disk := sampleDisk;
     w_removeDirectory := Returns tt;
     w_close := Returns tt |}.

(** ** Vocabulary of the outline *)

(** The headings that [buildBookmarkHierarchy] goes through, in order, each
    with the page it points to: those of the metadata whose page index is
    in range. *)
Definition processedHeadings (pages : list PDFPage) (metadata : list ExportedPage)
  : list (PDFPage * Heading) :=
  flat_map (fun meta =>
              match pages !! pageIndex meta with
              | Some targetPage => map (pair targetPage) (default [] (headings meta))
              | None => []
              end) metadata.

(** The first pass over a flat sequence of headings. *)
Definition insertAll (hs : list (PDFPage * Heading))
  : list PdfMerger.BookmarkInfo * PdfMerger.Stack :=
  foldl (fun st ph => PdfMerger.addHeading (fst ph) st (snd ph)) ([], []) hs.

(** The levels of a flat sequence of headings. *)
Definition levelsOf (hs : list (PDFPage * Heading)) : list Z :=
  map (fun ph => level (snd ph)) hs.

(** In the words of the specification: the node that is open at level [k]
    after a sequence of levels is the latest node of level [k] that no node
    of a smaller level has followed.  [i] is the index of the first level of
    the list and [cur] the node open before it. *)
Fixpoint openNodeFrom (levels : list Z) (k : Z) (i : nat) (cur : option nat)
  : option nat :=
  match levels with
  | [] => cur
  | l :: rest =>
      openNodeFrom rest k (S i)
        (if (l =? k)%Z then Some i else if (l <? k)%Z then None else cur)
  end.

Definition openNode (levels : list Z) (k : Z) : option nat :=
  openNodeFrom levels k 0 None.

(** The parent index the specification gives to a heading of level [l]
    that comes after the headings of levels [before]. *)
Definition specParent (before : list Z) (l : Z) : Z :=
  if (1 <? l)%Z
  then match openNode before (l - 1) with
       | Some j => Z.of_nat j
       | None => (-1)%Z
       end
  else (-1)%Z.

(** The level and the parent index of every entry: the second pass leaves
    them as they are. *)
Definition skeleton (infos : list PdfMerger.BookmarkInfo) : list (Z * Z) :=
  map (fun info => (PdfMerger.info_level info, PdfMerger.parentIndex info)) infos.

Definition isChildOf (sk : list (Z * Z)) (k c : nat) : bool :=
  match sk !! c with
  | Some (_, p) => (p =? Z.of_nat k)%Z
  | None => false
  end.

(** The children of entry [k], in increasing order of index. *)
Definition childrenOf (sk : list (Z * Z)) (k : nat) : list nat :=
  filter (fun c => isChildOf sk k c = true) (seq 0 (length sk)).

(** [findPrevious] on the skeleton. *)
Fixpoint previousSame (sk : list (Z * Z)) (lvl parent : Z) (n : nat) : option nat :=
  match n with
  | O => None
  | S j =>
      match sk !! j with
      | Some (l, p) =>
          if (l =? lvl)%Z && (p =? parent)%Z then Some j
          else previousSame sk lvl parent j
      | None => None
      end
  end.

Definition previousOf (sk : list (Z * Z)) (i : nat) : option nat :=
  match sk !! i with
  | Some (l, p) => if (0 <? i)%nat then previousSame sk l p i else None
  | None => None
  end.

(** What iteration [i] of the second pass does to the dictionary [d] of
    entry [k]: every reference it writes is the [undefined] of [dict.ref]. *)
Definition linkDict (sk : list (Z * Z)) (i k : nat) (d : PdfMerger.BookmarkDict)
  : PdfMerger.BookmarkDict :=
  match sk !! i with
  | None => d
  | Some (l, p) =>
      let d1 :=
        if (0 <=? p)%Z then
          let d' := if (k =? i)%nat then PdfMerger.setParent None d else d in
          if (k =? Z.to_nat p)%nat then
            let d'' := if PdfMerger.First d' is Some _ then d'
                       else PdfMerger.setFirst None d' in
            PdfMerger.setCount (PdfMerger.getCount d'' + 1) (PdfMerger.setLast None d'')
          else d'
        else d in
      match previousOf sk i with
      | Some j =>
          let d2 := if (k =? i)%nat then PdfMerger.setPrev None d1 else d1 in
          if (k =? j)%nat then PdfMerger.setNext None d2 else d2
      | None => d1
      end
  end.

(** Every dictionary changed by a function of its index. *)
Definition mapDicts (f : nat -> PdfMerger.BookmarkDict -> PdfMerger.BookmarkDict)
    (infos : list PdfMerger.BookmarkInfo) : list PdfMerger.BookmarkInfo :=
  imap (fun k info => PdfMerger.setDict info (f k (PdfMerger.dict info))) infos.

(** The dictionary of entry [k] after the first [m] iterations of the
    second pass. *)
Definition linkedDict (sk : list (Z * Z)) (m k : nat) (d : PdfMerger.BookmarkDict)
  : PdfMerger.BookmarkDict :=
  foldl (fun d i => linkDict sk i k d) d (seq 0 m).

(** A skeleton as the first pass builds it: a parent comes before its
    children and is one level above them. *)
Definition parentsBefore (sk : list (Z * Z)) : Prop :=
  forall i l p, sk !! i = Some (l, p) ->
    p = (-1)%Z \/
    (0 <= p < Z.of_nat i)%Z /\ exists q, sk !! Z.to_nat p = Some ((l - 1)%Z, q).

(** Three sample pages: chapter one with two sections, the second of which
    has a subsection, then chapter two with one section. *)
Definition h (l : Z) (t : string) : Heading := {| level := l; text := t; id := "" |}.

Definition samplePages : list PDFPage := [100; 101; 102].

Definition sampleMetadata : list ExportedPage :=
  [ {| path := "tmp/0.pdf"; headings := Some [h 1 "One"; h 2 "One.A"];
       url := "http://localhost:3000/docs/one"; pageIndex := 0 |};
    {| path := "tmp/1.pdf"; headings := Some [h 2 "One.B"; h 3 "One.B.i"];
       url := "http://localhost:3000/docs/one-b"; pageIndex := 1 |};
    {| path := "tmp/2.pdf"; headings := Some [h 1 "Two"; h 2 "Two.A"];
       url := "http://localhost:3000/docs/two"; pageIndex := 2 |} ].

(** ** The script that [replaceInternalLinks] evaluates in the page
    (src/services/PdfExporter.js) *)

(** An [a] element as the script sees it: its [href] attribute ([None]:
    the element has none, so [a[href]] does not select it), its text and the
    three style properties the script sets. *)
Record LinkElement := {
  le_href : option string;
  le_text : string;
  le_cursor : string;
  le_textDecoration : string;
  le_color : string
}.

(** [s.startsWith(searchString)] *)
Definition startsWith (s searchString : string) : bool := String.prefix searchString s.

(** The test of the script on a non-empty [href]. *)
Definition isLocalhost (baseUrl href : string) : bool :=
  includes "localhost" href
  || includes "127.0.0.1" href
  || includes "git.localhost" href
  || startsWith href baseUrl
  || startsWith href "/"
  || (negb (startsWith href "http")
      && negb (startsWith href "mailto:")
      && negb (startsWith href "#")
      && negb (startsWith href "javascript:")).

(** The callback of [links.forEach]: an element without [href], or with an
    empty one, is left alone. *)
Definition rewriteLink (baseUrl : string) (link : LinkElement) : LinkElement :=
  match le_href link with
  | None => link
  | Some href =>
      if String.eqb href "" then link
      else if isLocalhost baseUrl href then
        {| le_href := None; le_text := le_text link; le_cursor := "default";
           le_textDecoration := "none"; le_color := "inherit" |}
      else link
  end.

(** The script on the [a] elements of the document, in document order. *)
Definition rewriteLinks (baseUrl : string) (document : list LinkElement)
  : list LinkElement :=
  map (rewriteLink baseUrl) document.

(** ** Vocabulary of the further statements: the services *)

(** The strategy names that [clickWithRetry] has a case for. *)
Definition knownStrategy (strategy : string) : bool :=
  String.eqb strategy "click" || String.eqb strategy "forceClick"
  || String.eqb strategy "javascriptClick".

(** The interactions recorded in a trace, in order. *)
Definition clicksOf (t : list Event) : list string :=
  omap (fun e => match e with ClickAttempt strategy => Some strategy | _ => None end) t.

(** The navigations recorded in a trace, in order. *)
Definition gotosOf (t : list Event) : list string :=
  omap (fun e => match e with PageGoto u => Some u | _ => None end) t.

(** The artifacts whose loading a trace records, in order. *)
Definition loadsOf (t : list Event) : list string :=
  omap (fun e => match e with LoadArtifact p => Some p | _ => None end) t.

(** The strategies to be attempted: those with a case, in order, up to the
    first one whose interaction succeeds. *)
Fixpoint attemptedStrategies (click : string -> Outcome unit) (strategies : list string)
  : list string :=
  match strategies with
  | [] => []
  | strategy :: rest =>
      if knownStrategy strategy then
        strategy :: match click strategy with
                    | Returns _ => []
                    | Throws _ => attemptedStrategies click rest
                    end
      else attemptedStrategies click rest
  end.

(** The calls of [page.pdf] in a trace, with path and height, and the base
    URLs with which the link-rewriting script is evaluated. *)
Definition pdfsOf (t : list Event) : list (string * nat) :=
  omap (fun e => match e with PagePdf p height => Some (p, height) | _ => None end) t.

Definition rewritesOf (t : list Event) : list string :=
  omap (fun e => match e with ReplaceLinksEval b => Some b | _ => None end) t.

(** The error that [exportPage] throws for a URL and a cause. *)
Definition exportPageError (url : string) (cause : JsError) : JsError :=
  MkError PdfExportError ("Failed to export page " +:+ url) (Some cause).

(** The documents written by [fs.writeFileSync] in a trace, with their
    paths. *)
Definition writesOf (t : list Event) : list (string * list SavedPage) :=
  omap (fun e => match e with WriteOutput p document => Some (p, document) | _ => None end) t.

(** The entries without a parent, in increasing order of index. *)
Definition rootIndices (sk : list (Z * Z)) : list nat :=
  filter (fun c => match sk !! c with
                   | Some (_, p) => (p =? -1)%Z
                   | None => false
                   end = true) (seq 0 (length sk)).

(** A directory path that [path.join] extends by a separator and the file
    name: a normalised POSIX path other than the root, that is, one that is
    not empty, does not end with a separator and has no empty, [.] or [..]
    segment.  For any other directory [path.join] normalises the result
    (['tmp/'] gives ['tmp/0.pdf'], the empty path gives ['0.pdf']). *)
Definition plainDirectory (dir : string) : bool :=
  negb (String.eqb dir "")
  && negb (includes "//" (dir +:+ "/"))
  && negb (includes "/./" ("/" +:+ dir +:+ "/"))
  && negb (includes "/../" ("/" +:+ dir +:+ "/")).

(** A link that leads out of the site: with one of the four schemes the
    script knows, not under the base URL, and naming no local host. *)
Definition externalHref (baseUrl href : string) : bool :=
  (startsWith href "http" || startsWith href "mailto:" || startsWith href "#"
   || startsWith href "javascript:")
  && negb (startsWith href baseUrl)
  && negb (includes "localhost" href)
  && negb (includes "127.0.0.1" href).

(** ** Vocabulary of the statements on the orchestrator *)

(** The calls made on the page, as opposed to those on the browser, the
    file system and pdf-lib. *)
Definition pageEvent (e : Event) : bool :=
  match e with
  | BrowserLaunch | BrowserNewContext | ContextNewPage | BrowserClose
  | CreateTempDir | RemoveDir _
  | LoadArtifact _ | EnsureOutputDir | SaveDocument | WriteOutput _ _ => false
  | _ => true
  end.

Definition onPage (e : Event) : Prop := pageEvent e = true.

(** The directories removed in a trace. *)
Definition removesOf (t : list Event) : list string :=
  omap (fun e => match e with RemoveDir dir => Some dir | _ => None end) t.

(** The error that [verifyDocusaurusRunning] throws for a URL and a cause. *)
Definition connectionError (url : string) (cause : JsError) : JsError :=
  MkError ExportError
    ("Failed to connect to Docusaurus at " +:+ url
       +:+ ". Make sure the server is running.") (Some cause).

(** ** Vocabulary of the statements on the link collector *)

(** The error of a rejected call, and the first error of a sequence of
    calls. *)
Definition rejection {A} (o : Outcome A) : option JsError :=
  match o with
  | Returns _ => None
  | Throws e => Some e
  end.

Fixpoint firstRejection (calls : list (option JsError)) : option JsError :=
  match calls with
  | [] => None
  | Some e :: _ => Some e
  | None :: rest => firstRejection rest
  end.

(** The error that [collectLinksAlternative] throws for a cause. *)
Definition linkCollectionError (cause : JsError) : JsError :=
  MkError LinkCollectionError "Failed to collect links using alternative method"
    (Some cause).

(** ** Further sample inputs *)

(** A site whose server does not answer. *)
Definition unreachableSite : World :=
  {| w_launch := Returns tt;
     w_newContext := Returns tt;
     w_newPage := Returns tt;
     w_verifyGoto := Throws timeoutError;
     w_resolveOutputPath := underWork;
     w_createTempDirectory := Returns "/work/pdfsTempab12cd"%string;
     w_navigation := repeatedLinkPage true;
     w_site := fun _ => contentPage 0 3 (Some 400);
     w_disk := sampleDisk;
     w_removeDirectory := Returns tt;
     w_close := Returns tt |}.

(** A site with content pages, all of whose artifacts can be read back. *)
Definition workingSite : World :=
  {| w_launch := Returns tt;
     w_newContext := Returns tt;
     w_newPage := Returns tt;
     w_verifyGoto := Returns tt;
     w_resolveOutputPath := underWork;
     w_createTempDirectory := Returns "/work/pdfsTempab12cd"%string;
     w_navigation := repeatedLinkPage true;
     w_site := fun _ => contentPage 0 3 (Some 400);
     w_disk := {| artifactAt := fun _ => Loaded [7];
                  d_ensureDirectoryExists := Returns tt;
                  d_save := Returns tt;
                  d_writeFileSync := Returns tt |};
     w_removeDirectory := Returns tt;
     w_close := Returns tt |}.

(** * Properties *)

(** ** The monad *)

Lemma completion_bind {A B} (m : Run A) (f : A -> Run B) :
  completion (bind m f) =
  match completion m with
  | Returns a => completion (f a)
  | Throws e => Throws e
  end.
Proof.
  destruct m as [t [a|e]]; simpl; [|reflexivity].
  destruct (f a); reflexivity.
Qed.

Lemma trace_bind {A B} (m : Run A) (f : A -> Run B) :
  trace (bind m f) =
  match completion m with
  | Returns a => trace m ++ trace (f a)
  | Throws e => trace m
  end.
Proof.
  destruct m as [t [a|e]]; simpl; [|reflexivity].
  destruct (f a); reflexivity.
Qed.

Lemma completion_tryCatch {A} (m : Run A) (h : JsError -> Run A) :
  completion (tryCatch m h) =
  match completion m with
  | Returns a => Returns a
  | Throws e => completion (h e)
  end.
Proof.
  destruct m as [t [a|e]]; simpl; [reflexivity|].
  destruct (h e); reflexivity.
Qed.

Lemma trace_tryCatch {A} (m : Run A) (h : JsError -> Run A) :
  trace (tryCatch m h) =
  match completion m with
  | Returns a => trace m
  | Throws e => trace m ++ trace (h e)
  end.
Proof.
  destruct m as [t [a|e]]; simpl; [reflexivity|].
  destruct (h e); reflexivity.
Qed.

Lemma trace_tryFinally {A} (m : Run A) (f : Run unit) :
  trace (tryFinally m f) = trace m ++ trace f.
Proof. destruct m as [t r], f as [t' [[]|e]]; reflexivity. Qed.

Lemma completion_tryFinally {A} (m : Run A) (f : Run unit) :
  completion (tryFinally m f) =
  match completion f with
  | Returns _ => completion m
  | Throws e => Throws e
  end.
Proof. destruct m as [t r], f as [t' [[]|e]]; reflexivity. Qed.

(** ** PdfExporter *)

Section PdfExporterFacts.
Import PdfExporter.

Lemma isDocListPage_completion view :
  completion (isDocListPage view) =
  Returns match pv_docCardListItemCount view, pv_pageContentCount view with
          | Returns cards, Returns blocks => (0 <? cards) && (cards =? blocks)
          | _, _ => false
          end.
Proof.
  unfold isDocListPage.
  destruct (pv_docCardListItemCount view) as [c|e]; simpl; [|reflexivity].
  destruct (pv_pageContentCount view) as [b|e]; reflexivity.
Qed.

Lemma applyCustomStyles_returns view :
  completion (applyCustomStyles view) = Returns tt.
Proof.
  unfold applyCustomStyles.
  destruct (pv_addStyleTag view) as [[]|e]; simpl; [|reflexivity].
  destruct (pv_styleSettle view) as [[]|e]; reflexivity.
Qed.

Lemma replaceInternalLinks_returns view b :
  completion (replaceInternalLinks view b) = Returns tt.
Proof.
  unfold replaceInternalLinks.
  destruct (pv_replaceLinks view) as [[]|e]; reflexivity.
Qed.

Lemma extractHeadings_returns view :
  exists hs, completion (extractHeadings view) = Returns hs.
Proof.
  unfold extractHeadings.
  destruct (pv_headings view) as [hs|e]; simpl; eauto.
Qed.

Lemma calculatePageHeight_completion view :
  completion (calculatePageHeight view) =
  Returns match pv_skipToContent view with
          | Returns (Some offsetHeight) => offsetHeight + 60
          | Returns None => 0
          | Throws _ => 1000
          end.
Proof.
  unfold calculatePageHeight.
  destruct (pv_skipToContent view) as [[h|]|e]; reflexivity.
Qed.

(** What a call of [exportPage] comes to: it throws when the navigation or
    the printing rejects, answers [null] on a listing page, and a result
    for the given URL and path otherwise. *)
Lemma exportPage_completion site u p b :
  let view := site u in
  match completion (exportPage site u p b) with
  | Throws e =>
      err_name e = PdfExportError /\
      (pv_goto view <> Returns tt \/
       (completion (isDocListPage view) = Returns false /\ pv_pdf view <> Returns tt))
  | Returns None =>
      pv_goto view = Returns tt /\ completion (isDocListPage view) = Returns true
  | Returns (Some r) =>
      pv_goto view = Returns tt /\ completion (isDocListPage view) = Returns false /\
      pv_pdf view = Returns tt /\ er_url r = u /\ er_path r = p
  end.
Proof.
  intros view. unfold exportPage. fold view.
  rewrite completion_tryCatch, !completion_bind. simpl.
  destruct (pv_goto view) as [[]|e] eqn:Hgoto; simpl;
    [|split; [reflexivity|left; congruence]].
  rewrite applyCustomStyles_returns.
  assert (Hlinks : completion (if truthy b
                               then replaceInternalLinks view (default ""%string b)
                               else ret tt) = Returns tt).
  { destruct (truthy b); [apply replaceInternalLinks_returns|reflexivity]. }
  rewrite Hlinks, isDocListPage_completion.
  set (skip := match pv_docCardListItemCount view with
               | Returns _ => _ | Throws _ => _ end).
  destruct skip; simpl; [split; reflexivity|].
  rewrite completion_bind.
  destruct (extractHeadings_returns view) as [hs ->].
  rewrite completion_bind, calculatePageHeight_completion.
  destruct (pv_pdf view) as [[]|e] eqn:Hpdf; simpl.
  - repeat split; reflexivity.
  - split; [reflexivity|right; split; [reflexivity|congruence]].
Qed.
End PdfExporterFacts.

Section ExportPagesFacts.
Import PdfExporter.
Variable site : string -> PageView.
Variables (outputDir : string) (baseUrl : option string).

Lemma exportPagesFrom_inv urls : forall i files idx,
  exists new,
    completion (exportPagesFrom site urls i outputDir baseUrl files idx)
      = Returns (files ++ new) /\
    map pageIndex new = seq idx (length new) /\
    length new + skippedOrFailed (pageOutcomes site urls i outputDir baseUrl)
      = length urls /\
    map url new = survivingUrls urls (pageOutcomes site urls i outputDir baseUrl).
Proof.
  induction urls as [|u rest IH]; intros i files idx.
  - exists []. simpl. rewrite app_nil_r. auto.
  - cbn [exportPagesFrom pageOutcomes]. rewrite completion_bind, completion_tryCatch,
      completion_bind.
    fold (outputPathOf outputDir i).
    pose proof (exportPage_completion site u (outputPathOf outputDir i) baseUrl) as Hpage.
    unfold skippedOrFailed, survivingUrls in *. cbn [zip zip_with].
    rewrite !filter_cons. cbn [snd fst].
    destruct (completion (exportPage site u (outputPathOf outputDir i) baseUrl))
      as [[r|]|e]; cbn [exported completion ret snd fst].
    + destruct (IH (S i)
                  (files ++ [ {| path := er_path r; headings := Some (er_headings r);
                                 url := er_url r; pageIndex := idx |} ])
                  (S idx)) as (new & Hc & Hidx & Hlen & Hurl).
      eexists (_ :: new). rewrite Hc, <- app_assoc. split; [reflexivity|].
      destruct Hpage as (_ & _ & _ & Hu & _).
      repeat case_decide; try discriminate; try congruence.
      cbn. rewrite Hidx, Hurl, Hu. repeat split. lia.
    + destruct (IH (S i) files idx) as (new & Hc & Hidx & Hlen & Hurl).
      exists new. rewrite Hc.
      repeat case_decide; try discriminate; try congruence.
      cbn. repeat split; auto; lia.
    + rewrite completion_bind. cbn [completion warn snd ret fst].
      destruct (IH (S i) files idx) as (new & Hc & Hidx & Hlen & Hurl).
      exists new. rewrite Hc.
      repeat case_decide; try discriminate; try congruence.
      cbn. repeat split; auto; lia.
Qed.
End ExportPagesFacts.

(** C3. [exportPages] never throws; for M input URLs of which K are skipped
    as listing pages or fail with a thrown error it returns exactly M-K
    records, in input order, whose page indices are 0, 1, ..., M-K-1: the
    index of a record is the number of exports that succeeded before it. *)
Theorem exportPages_indices_contiguous
    (site : string -> PageView) (urls : list string) (outputDir : string)
    (baseUrl : option string) :
  let outcomes := pageOutcomes site urls 0 outputDir baseUrl in
  let M := length urls in
  let K := skippedOrFailed outcomes in
  exists files,
    completion (PdfExporter.exportPages site urls outputDir baseUrl) = Returns files /\
    K <= M /\
    length files = M - K /\
    map pageIndex files = seq 0 (M - K) /\
    map url files = survivingUrls urls outcomes.
Proof.
  intros outcomes M K.
  destruct (exportPagesFrom_inv site outputDir baseUrl urls 0 [] 0)
    as (new & Hc & Hidx & Hlen & Hurl).
  exists new. fold outcomes K M in Hlen. fold outcomes in Hurl.
  replace (M - K) with (length new) by lia.
  unfold PdfExporter.exportPages. rewrite Hc. repeat split; auto. lia.
Qed.

(** *** The calls of one export *)

Lemma omap_trace_bind {A B C} (f : Event -> option C) (m : Run A) (k : A -> Run B) :
  omap f (trace (bind m k)) =
  omap f (trace m) ++ match completion m with
                      | Returns a => omap f (trace (k a))
                      | Throws _ => []
                      end.
Proof.
  rewrite trace_bind. destruct (completion m); [apply omap_app|].
  by rewrite app_nil_r.
Qed.

Lemma omap_trace_tryCatch {A C} (f : Event -> option C) (m : Run A) (h : JsError -> Run A) :
  omap f (trace (tryCatch m h)) =
  omap f (trace m) ++ match completion m with
                      | Returns _ => []
                      | Throws e => omap f (trace (h e))
                      end.
Proof.
  rewrite trace_tryCatch. destruct (completion m); [by rewrite app_nil_r|].
  apply omap_app.
Qed.

Section ExportPageCalls.
Import PdfExporter.
Variable site : string -> PageView.

(** The steps around the navigation and the printing call neither
    [page.goto] nor [page.pdf], and only [replaceInternalLinks] evaluates
    the rewriting script. *)
Lemma applyCustomStyles_quiet {C} (f : Event -> option C) view :
  f AddStyleTag = None -> f (PageWait 200) = None ->
  (forall msg, f (Logged Warn msg) = None) ->
  omap f (trace (applyCustomStyles view)) = [].
Proof.
  intros H1 H2 H3. unfold applyCustomStyles.
  destruct (pv_addStyleTag view) as [[]|?], (pv_styleSettle view) as [[]|?];
    cbn; rewrite ?H1, ?H2, ?H3; reflexivity.
Qed.

Lemma isDocListPage_quiet {C} (f : Event -> option C) view :
  f CountLocator = None -> (forall msg, f (Logged Debug msg) = None) ->
  omap f (trace (isDocListPage view)) = [].
Proof.
  intros H1 H2. unfold isDocListPage.
  destruct (pv_docCardListItemCount view) as [?|?], (pv_pageContentCount view) as [?|?];
    cbn; rewrite ?H1, ?H2; reflexivity.
Qed.

Lemma extractHeadings_quiet {C} (f : Event -> option C) view :
  f HeadingsEval = None -> (forall msg, f (Logged Warn msg) = None) ->
  omap f (trace (extractHeadings view)) = [].
Proof.
  intros H1 H2. unfold extractHeadings.
  destruct (pv_headings view) as [?|?]; cbn; rewrite ?H1, ?H2; reflexivity.
Qed.

Lemma calculatePageHeight_quiet {C} (f : Event -> option C) view :
  f HeightEval = None -> (forall msg, f (Logged Warn msg) = None) ->
  omap f (trace (calculatePageHeight view)) = [].
Proof.
  intros H1 H2. unfold calculatePageHeight.
  destruct (pv_skipToContent view) as [[?|]|?]; cbn; rewrite ?H1, ?H2; reflexivity.
Qed.

Lemma replaceInternalLinks_trace {C} (f : Event -> option C) view base :
  (forall msg, f (Logged Warn msg) = None) ->
  omap f (trace (replaceInternalLinks view base))
    = match f (ReplaceLinksEval base) with Some c => [c] | None => [] end.
Proof.
  intros H1. unfold replaceInternalLinks.
  destruct (pv_replaceLinks view) as [[]|?]; cbn; rewrite ?H1;
    destruct (f (ReplaceLinksEval base)); reflexivity.
Qed.

Lemma extractHeadings_completion view :
  completion (extractHeadings view)
    = Returns match pv_headings view with Returns hs => hs | Throws _ => [] end.
Proof. unfold extractHeadings. destruct (pv_headings view); reflexivity. Qed.

(** The completion of [exportPage], case by case. *)
Lemma exportPage_normal_form u p b :
  let view := site u in
  completion (exportPage site u p b) =
  match pv_goto view with
  | Throws cause => Throws (exportPageError u cause)
  | Returns _ =>
      match completion (isDocListPage view) with
      | Returns true => Returns None
      | _ =>
          match pv_pdf view with
          | Throws cause => Throws (exportPageError u cause)
          | Returns _ =>
              Returns (Some {| er_path := p;
                               er_headings := match pv_headings view with
                                              | Returns hs => hs
                                              | Throws _ => []
                                              end;
                               er_url := u |})
          end
      end
  end.
Proof.
  intros view. unfold exportPage. fold view.
  rewrite completion_tryCatch, !completion_bind. cbn [completion info perform snd].
  destruct (pv_goto view) as [[]|e]; [|reflexivity].
  cbn [completion debug snd]. rewrite applyCustomStyles_returns.
  assert (Hlinks : completion (if truthy b
                               then replaceInternalLinks view (default ""%string b)
                               else ret tt) = Returns tt).
  { destruct (truthy b); [apply replaceInternalLinks_returns|reflexivity]. }
  rewrite Hlinks. pose proof (isDocListPage_completion view) as Hlist.
  destruct (completion (isDocListPage view)) as [[]|e]; [reflexivity| |discriminate].
  rewrite completion_bind, extractHeadings_completion,
    completion_bind, calculatePageHeight_completion, completion_bind.
  cbn [completion perform snd].
  destruct (pv_pdf view) as [[]|e]; reflexivity.
Qed.

(** The calls of [exportPage] that matter to its callers: the navigation,
    the rewriting of links when a base URL is given, and the printing. *)
Lemma exportPage_calls {C} (f : Event -> option C) u p b :
  (forall lvl msg, f (Logged lvl msg) = None) ->
  f AddStyleTag = None -> f (PageWait 200) = None -> f CountLocator = None ->
  f HeadingsEval = None -> f HeightEval = None ->
  let view := site u in
  omap f (trace (exportPage site u p b)) =
  omap f
    (PageGoto u ::
     match pv_goto view with
     | Throws _ => []
     | Returns _ =>
         (if truthy b then [ReplaceLinksEval (default ""%string b)] else []) ++
         match completion (isDocListPage view), completion (calculatePageHeight view) with
         | Returns false, Returns height => [PagePdf p height]
         | _, _ => []
         end
     end).
Proof.
  intros Hlog Hstyle Hwait Hcount Hhead Hheight view.
  unfold exportPage. fold view. rewrite omap_trace_tryCatch.
  match goal with
  | |- _ ++ ?handler = _ =>
      replace handler with (@nil C)
        by (match goal with |- _ = match ?c with _ => _ end => by destruct c end)
  end.
  rewrite app_nil_r, !omap_trace_bind.
  cbn [completion info debug perform snd trace fst omap list_omap app].
  rewrite !Hlog. destruct (f (PageGoto u)) as [c|];
    (destruct (pv_goto view) as [[]|e]; [|reflexivity]);
    rewrite applyCustomStyles_quiet, applyCustomStyles_returns by auto;
    (assert (Hlinks : completion (if truthy b
                                  then replaceInternalLinks view (default ""%string b)
                                  else ret tt) = Returns tt)
       by (destruct (truthy b); [apply replaceInternalLinks_returns|reflexivity]));
    (assert (Hrw : omap f (trace (if truthy b
                                  then replaceInternalLinks view (default ""%string b)
                                  else ret tt))
                   = omap f (if truthy b
                             then [ReplaceLinksEval (default ""%string b)] else []))
       by (destruct (truthy b); [|reflexivity];
           rewrite replaceInternalLinks_trace by auto; cbn;
           destruct (f (ReplaceLinksEval (default ""%string b))); reflexivity));
    rewrite Hrw, Hlinks, isDocListPage_quiet by auto;
    pose proof (isDocListPage_completion view) as Hlist;
    rewrite calculatePageHeight_completion;
    (destruct (completion (isDocListPage view)) as [[]|e0]; [| |discriminate]);
    rewrite ?omap_trace_bind; cbn [completion warn snd trace fst omap list_omap app];
    rewrite ?Hlog, ?omap_app, ?app_nil_r; cbn [omap list_omap app]; try reflexivity;
    rewrite extractHeadings_quiet, extractHeadings_completion by auto;
    rewrite omap_trace_bind;
    rewrite calculatePageHeight_quiet, calculatePageHeight_completion by auto;
    rewrite !omap_trace_bind;
    cbn [completion perform info snd trace fst omap list_omap app];
    rewrite ?Hlog; destruct (f (PagePdf _ _)); destruct (pv_pdf view) as [[]|e];
    cbn [app]; rewrite ?app_nil_r; reflexivity.
Qed.
End ExportPageCalls.

(** C6, as stated, fails: a page with no document card and no top-level
    content block has equal counts, yet it is not classified as a listing
    page and [exportPage] produces an artifact for it. *)
Lemma listing_page_equal_counts_counterexample :
  let view := contentPage 0 0 (Some 500) in
  pv_docCardListItemCount view = pv_pageContentCount view /\
  completion (PdfExporter.isDocListPage view) = Returns false /\
  completion (PdfExporter.exportPage (fun _ => view) "http://localhost:3000/docs/intro"
                "tmp/0.pdf" None)
    = Returns (Some {| er_path := "tmp/0.pdf"; er_headings := [];
                       er_url := "http://localhost:3000/docs/intro" |}).
Proof. repeat split. Qed.

(** C6, amended.  [isDocListPage] answers [true] exactly when both counts
    are obtained, the number of document cards is positive and equals the
    number of top-level content blocks; [exportPage] returns [null] exactly
    when the page loads and is classified so, and it has then made no call
    of [page.pdf]: no artifact is produced. *)
Theorem listing_page_classification
    (site : string -> PageView) (u p : string) (b : option string) :
  let view := site u in
  let listing :=
    exists n, 0 < n /\ pv_docCardListItemCount view = Returns n /\
              pv_pageContentCount view = Returns n in
  (completion (PdfExporter.isDocListPage view) = Returns true <-> listing) /\
  (completion (PdfExporter.exportPage site u p b) = Returns None
     <-> pv_goto view = Returns tt /\ listing) /\
  (completion (PdfExporter.exportPage site u p b) = Returns None ->
   pdfsOf (trace (PdfExporter.exportPage site u p b)) = []).
Proof.
  intros view listing.
  assert (Hnopdf : completion (PdfExporter.exportPage site u p b) = Returns None ->
                   pdfsOf (trace (PdfExporter.exportPage site u p b)) = []).
  { intros Hnull. unfold pdfsOf. rewrite exportPage_calls by reflexivity.
    rewrite exportPage_normal_form in Hnull. fold view in Hnull |- *.
    cbn [omap list_omap]. destruct (pv_goto view) as [[]|e]; [|reflexivity].
    rewrite omap_app.
    replace (omap _ (if truthy b then _ else _)) with (@nil (string * nat))
      by (by destruct (truthy b)).
    destruct (completion (PdfExporter.isDocListPage view)) as [[]|e0];
      try reflexivity.
    destruct (pv_pdf view); discriminate. }
  cut ((completion (PdfExporter.isDocListPage view) = Returns true <-> listing) /\
       (completion (PdfExporter.exportPage site u p b) = Returns None
          <-> pv_goto view = Returns tt /\ listing)).
  { intros [H1 H2]. auto. }
  clear Hnopdf.
  assert (Hcls : completion (PdfExporter.isDocListPage view) = Returns true <-> listing).
  { rewrite isDocListPage_completion. unfold listing.
    destruct (pv_docCardListItemCount view) as [c|e1];
      destruct (pv_pageContentCount view) as [k|e2].
    - split.
      + intros [= H]. apply andb_prop in H as [H1 H2].
        apply Nat.ltb_lt in H1. apply Nat.eqb_eq in H2. subst k. eauto.
      + intros (n & Hn & [= ->] & [= ->]). f_equal.
        apply andb_true_intro. split; [by apply Nat.ltb_lt | by apply Nat.eqb_eq].
    - split; [discriminate | intros (n & _ & _ & [=])].
    - split; [discriminate | intros (n & _ & [=] & _)].
    - split; [discriminate | intros (n & _ & [=] & _)]. }
  split; [exact Hcls|].
  pose proof (exportPage_completion site u p b) as H. fold view in H. cbv zeta in H.
  destruct (completion (PdfExporter.exportPage site u p b)) as [[r|]|e].
  - destruct H as (_ & Hf & _). split; [discriminate|].
    intros [_ Hl]. apply Hcls in Hl. congruence.
  - destruct H as (Hg & Ht). split; [|reflexivity]. intros _. split; [exact Hg|].
    by apply Hcls.
  - split; [discriminate|]. intros [Hg Hl]. apply Hcls in Hl.
    destruct H as (_ & [Hn | [Hf _]]); congruence.
Qed.

(** C7, as stated, fails: when the content region is not found the
    measurement yields neither a height plus 60 nor the default 1000 but 0,
    which is not positive. *)
Lemma page_height_missing_region_counterexample :
  let view := contentPage 0 3 None in
  completion (PdfExporter.calculatePageHeight view) = Returns 0 /\
  ~ (exists h, completion (PdfExporter.calculatePageHeight view) = Returns h /\ 0 < h).
Proof.
  split; [reflexivity|]. intros (h & [= <-] & Hpos). lia.
Qed.

(** C7, amended.  [calculatePageHeight] never throws; it returns the
    rendered height of the content region plus 60 when the region is found,
    the default 1000 when the evaluation rejects, and 0 when the region is
    not in the document; the height is positive in all cases but the last. *)
Theorem page_height_cases (view : PageView) :
  exists h,
    completion (PdfExporter.calculatePageHeight view) = Returns h /\
    h = match pv_skipToContent view with
        | Returns (Some offsetHeight) => offsetHeight + 60
        | Returns None => 0
        | Throws _ => 1000
        end /\
    (0 < h <-> pv_skipToContent view <> Returns None).
Proof.
  eexists. split; [apply calculatePageHeight_completion|]. split; [reflexivity|].
  destruct (pv_skipToContent view) as [[offsetHeight|]|e]; split;
    try discriminate; try lia; intros H; congruence.
Qed.

(** ** Traces *)

Section TraceAll.
Variable P : Event -> Prop.

Lemma traceAll_ret {A} (a : A) : traceAll P (ret a).
Proof. constructor. Qed.

Lemma traceAll_throw {A} e : traceAll P (@throw A e).
Proof. constructor. Qed.

Lemma traceAll_perform {A} ev (o : Outcome A) : P ev -> traceAll P (perform ev o).
Proof. intros H. repeat constructor. exact H. Qed.

Lemma traceAll_log lvl msg : P (Logged lvl msg) -> traceAll P ([Logged lvl msg], Returns tt).
Proof. intros H. repeat constructor. exact H. Qed.

Lemma traceAll_bind {A B} (m : Run A) (f : A -> Run B) :
  traceAll P m -> (forall a, traceAll P (f a)) -> traceAll P (bind m f).
Proof.
  unfold traceAll. intros Hm Hf. rewrite trace_bind.
  destruct (completion m); [|exact Hm]. apply Forall_app; auto.
Qed.

Lemma traceAll_tryCatch {A} (m : Run A) (h : JsError -> Run A) :
  traceAll P m -> (forall e, traceAll P (h e)) -> traceAll P (tryCatch m h).
Proof.
  unfold traceAll. intros Hm Hh. rewrite trace_tryCatch.
  destruct (completion m); [exact Hm|]. apply Forall_app; auto.
Qed.

Lemma traceAll_tryFinally {A} (m : Run A) (f : Run unit) :
  traceAll P m -> traceAll P f -> traceAll P (tryFinally m f).
Proof.
  unfold traceAll. intros Hm Hf. rewrite trace_tryFinally. apply Forall_app; auto.
Qed.
End TraceAll.

Lemma traceAll_impl {A} (P Q : Event -> Prop) (m : Run A) :
  traceAll P m -> (forall e, P e -> Q e) -> traceAll Q m.
Proof. unfold traceAll. intros H HPQ. eapply Forall_impl; eauto. Qed.

(** Breaks a run built from the combinators into its calls; what is left
    are the events, to be shown to satisfy the predicate, and the calls of
    other functions. *)
Ltac trace_step :=
  match goal with
  | |- traceAll _ (bind _ _) => apply traceAll_bind; [|intros ?]
  | |- traceAll _ (tryCatch _ _) => apply traceAll_tryCatch; [|intros ?]
  | |- traceAll _ (orElse _ _) => apply traceAll_tryCatch; [|intros ?]
  | |- traceAll _ (ret _) => apply traceAll_ret
  | |- traceAll _ (throw _) => apply traceAll_throw
  | |- traceAll _ (perform _ _) => apply traceAll_perform
  | |- traceAll _ (debug _) => apply traceAll_log
  | |- traceAll _ (info _) => apply traceAll_log
  | |- traceAll _ (warn _) => apply traceAll_log
  | |- traceAll _ (error _) => apply traceAll_log
  | |- traceAll _ (if ?b then _ else _) => destruct b
  | |- traceAll _ (match ?x with _ => _ end) => destruct x
  end.

Ltac trace_ordinary := repeat trace_step; try (repeat split; reflexivity).

(** ** SidebarExpander *)

Section NavItemInduction.
Variable Q : NavItem -> Prop.
Hypothesis Q_uncounted : forall view e, Q (Item view (Throws e)).
Hypothesis Q_counted :
  forall view items, Forall Q items -> Q (Item view (Returns items)).

Fixpoint NavItem_nested_ind (item : NavItem) : Q item :=
  match item with
  | Item view (Throws e) => Q_uncounted view e
  | Item view (Returns items) =>
      Q_counted view items
        ((fix all (l : list NavItem) : Forall Q l :=
            match l with
            | [] => List.Forall_nil Q
            | it :: rest => @List.Forall_cons _ Q it rest (NavItem_nested_ind it) (all rest)
            end) items)
  end.
End NavItemInduction.

Section SidebarExpanderFacts.
Import SidebarExpander.
Variable config : Config.

Lemma completion_catch_warn (m : Run unit) (msg : JsError -> string) :
  completion (tryCatch m (fun err => warn (msg err))) = Returns tt.
Proof. destruct m as [t [[]|e]]; reflexivity. Qed.

(** The loop written inside [expandItem] is [expandItems]; an item is
    expanded below through [expandSubSidebar] one level down. *)
Lemma expandItem_unfold level i view subItems :
  expandItem config level i (Item view subItems) =
  tryCatch
    (itemClass <- orElse (perform GetClass (iv_class view)) (Some ""%string);;
     if isActive itemClass then expandSubSidebar config subItems (S level)
     else
       hasButton <- orElse (perform CountLocator (iv_clickableCount view)) 0;;
       isVisible <- ensureVisible view;;
       if isVisible : bool then
         clickWithRetry config view level i;;;
         perform (PageWait (animation config)) (iv_animationWait view);;;
         expandSubSidebar config subItems (S level)
       else
         warn ("Skipping non-visible item at level "
                 +:+ string_of_nat (level + 1) +:+ ", index "
                 +:+ string_of_nat i))
    (fun err =>
       warn ("Error processing sidebar item at level "
               +:+ string_of_nat (level + 1) +:+ ", index "
               +:+ string_of_nat i +:+ ":")).
Proof.
  assert (Hbelow :
    tryCatch
      (match subItems with
       | Throws e => perform CountLocator (Throws e)
       | Returns items =>
           perform CountLocator (Returns (length items));;;
           (fix loop (l : list NavItem) (k : nat) : Run unit :=
              match l with
              | [] => ret tt
              | it :: rest => expandItem config (S level) k it;;; loop rest (S k)
              end) items 0
       end)
      (fun err =>
         warn ("Error in expandSubSidebar at level "
                 +:+ string_of_nat (S level + 1) +:+ ":"))
    = expandSubSidebar config subItems (S level)).
  { unfold expandSubSidebar. destruct subItems as [items|e]; [|reflexivity].
    assert (Hloop : forall l k,
      (fix loop (l : list NavItem) (k : nat) : Run unit :=
         match l with
         | [] => ret tt
         | it :: rest => expandItem config (S level) k it;;; loop rest (S k)
         end) l k = expandItems config (S level) k l).
    { induction l as [|it rest IH]; intros k; [reflexivity|].
      cbn [expandItems]. unfold bind at 1 3.
      destruct (expandItem config (S level) k it) as [t [[]|e]]; [|reflexivity].
      rewrite IH. reflexivity. }
    unfold bind, perform. rewrite Hloop. reflexivity. }
  cbn [expandItem]. rewrite Hbelow. reflexivity.
Qed.

Lemma expandItem_returns level i item :
  completion (expandItem config level i item) = Returns tt.
Proof. destruct item. rewrite expandItem_unfold. apply completion_catch_warn. Qed.

Lemma expandItems_returns items : forall level i,
  completion (expandItems config level i items) = Returns tt.
Proof.
  induction items as [|it rest IH]; intros level i; [reflexivity|].
  cbn [expandItems]. rewrite completion_bind, expandItem_returns. apply IH.
Qed.

Lemma expandSubSidebar_returns subItems level :
  completion (expandSubSidebar config subItems level) = Returns tt.
Proof. unfold expandSubSidebar. apply completion_catch_warn. Qed.

Lemma expandTopItems_returns items : forall i,
  completion (expandTopItems config i items) = Returns tt.
Proof.
  induction items as [|[view subItems] rest IH]; intros i; [reflexivity|].
  cbn [expandTopItems]. rewrite completion_bind.
  unfold expandTopItem. rewrite completion_catch_warn. apply IH.
Qed.

Lemma expandAllWithJavaScript_returns eval settle :
  exists b, completion (expandAllWithJavaScript config eval settle) = Returns b.
Proof.
  unfold expandAllWithJavaScript.
  destruct eval as [[]|e]; [|eexists; reflexivity].
  destruct settle as [[]|e]; eexists; reflexivity.
Qed.

(** The manual pass throws exactly when the top-level items cannot be
    counted: that call is made outside every [try]. *)
Lemma expandAllManually_completion level1 :
  completion (expandAllManually config level1) =
  match level1 with
  | Returns _ => Returns tt
  | Throws e => Throws e
  end.
Proof.
  unfold expandAllManually. destruct level1 as [items|e]; [|reflexivity].
  rewrite completion_bind. cbn [completion perform snd].
  rewrite completion_bind. cbn [completion debug snd].
  apply expandTopItems_returns.
Qed.

(** [expandAll] survives every failure below a counted top-level item;
    it throws what the top-level count or the last wait throws. *)
Lemma expandAll_completion sb :
  completion (expandAll config sb) =
  match sb_level1 sb with
  | Returns _ => sb_finalWait sb
  | Throws e => Throws e
  end.
Proof.
  unfold expandAll. rewrite completion_bind.
  destruct (expandAllWithJavaScript_returns (sb_bulkEval sb) (sb_bulkSettle sb))
    as [b ->].
  rewrite completion_bind, expandAllManually_completion.
  destruct (sb_level1 sb) as [items|e]; [|reflexivity].
  rewrite completion_bind.
  destruct (expandAllWithJavaScript_returns (sb_bulkEvalAgain sb) (sb_bulkSettleAgain sb))
    as [b' ->].
  reflexivity.
Qed.
End SidebarExpanderFacts.

(** C8 fails on the code.  Every failure of a single node is caught (see
    [expandItem_returns], [expandTopItems_returns]), but counting the
    top-level items in [expandAllManually] is done outside any [try]: when
    that call rejects, [expandAll] throws to its caller. *)
Theorem expandAll_throws_when_count_rejects :
  completion (SidebarExpander.expandAll defaultConfig lostSidebar) = Throws closedError.
Proof. reflexivity. Qed.

(** *** The calls made by the expander, the collector and the renderer *)

Section OrdinaryTraces.
Variable config : Config.

Lemma clickWithRetryFrom_ordinary click strategies level index :
  traceAll ordinary
    (SidebarExpander.clickWithRetryFrom click strategies level index).
Proof.
  induction strategies as [|strategy rest IH]; cbn [SidebarExpander.clickWithRetryFrom].
  - trace_ordinary.
  - trace_ordinary; exact IH.
Qed.

Lemma ensureVisible_ordinary view :
  traceAll ordinary (SidebarExpander.ensureVisible view).
Proof. unfold SidebarExpander.ensureVisible. trace_ordinary. Qed.

Lemma expandSubSidebar_ordinary items level :
  Forall (fun item => forall level i,
            traceAll ordinary (SidebarExpander.expandItem config level i item)) items ->
  traceAll ordinary (SidebarExpander.expandSubSidebar config (Returns items) level).
Proof.
  intros Hitems. unfold SidebarExpander.expandSubSidebar.
  apply traceAll_tryCatch; [|intros; trace_ordinary].
  apply traceAll_bind; [trace_ordinary|intros _].
  generalize 0. induction Hitems as [|it rest Hit _ IH]; intros k;
    cbn [SidebarExpander.expandItems]; [trace_ordinary|].
  apply traceAll_bind; [apply Hit|intros _; apply IH].
Qed.

Lemma expandItem_ordinary item : forall level i,
  traceAll ordinary (SidebarExpander.expandItem config level i item).
Proof.
  induction item as [view e|view items IH] using NavItem_nested_ind; intros level i;
    rewrite expandItem_unfold.
  - unfold SidebarExpander.expandSubSidebar, SidebarExpander.clickWithRetry.
    trace_ordinary;
      try apply ensureVisible_ordinary; try apply clickWithRetryFrom_ordinary.
  - unfold SidebarExpander.clickWithRetry.
    trace_ordinary;
      try apply ensureVisible_ordinary; try apply clickWithRetryFrom_ordinary;
      try (apply expandSubSidebar_ordinary; exact IH).
Qed.

Lemma expandSubSidebar_any_ordinary subItems level :
  traceAll ordinary (SidebarExpander.expandSubSidebar config subItems level).
Proof.
  destruct subItems as [items|e].
  - apply expandSubSidebar_ordinary. apply Forall_forall. intros item _.
    apply expandItem_ordinary.
  - unfold SidebarExpander.expandSubSidebar. trace_ordinary.
Qed.

Lemma expandTopItems_ordinary items : forall i,
  traceAll ordinary (SidebarExpander.expandTopItems config i items).
Proof.
  induction items as [|[view subItems] rest IH]; intros i;
    cbn [SidebarExpander.expandTopItems]; [trace_ordinary|].
  apply traceAll_bind; [|intros _; apply IH].
  unfold SidebarExpander.expandTopItem, SidebarExpander.clickWithRetry.
  trace_ordinary;
    try apply ensureVisible_ordinary; try apply clickWithRetryFrom_ordinary;
    try apply expandSubSidebar_any_ordinary.
Qed.

Lemma expandAll_ordinary sb :
  traceAll ordinary (SidebarExpander.expandAll config sb).
Proof.
  unfold SidebarExpander.expandAll, SidebarExpander.expandAllManually,
    SidebarExpander.expandAllWithJavaScript.
  trace_ordinary; apply expandTopItems_ordinary.
Qed.

Lemma collectAllLinks_ordinary nav baseUrl :
  traceAll ordinary (LinkCollector.collectAllLinks config nav baseUrl).
Proof.
  unfold LinkCollector.collectAllLinks, LinkCollector.collectLinksAlternative.
  trace_ordinary; apply expandAll_ordinary.
Qed.

(** No base URL, no link rewriting. *)
Lemma exportPage_ordinary site u p :
  traceAll ordinary (PdfExporter.exportPage site u p None).
Proof.
  unfold PdfExporter.exportPage, PdfExporter.applyCustomStyles,
    PdfExporter.isDocListPage, PdfExporter.extractHeadings,
    PdfExporter.calculatePageHeight.
  cbn [truthy]. trace_ordinary.
Qed.

Lemma exportPagesFrom_ordinary site outputDir urls : forall i files idx,
  traceAll ordinary
    (PdfExporter.exportPagesFrom site urls i outputDir None files idx).
Proof.
  induction urls as [|u rest IH]; intros i files idx;
    cbn [PdfExporter.exportPagesFrom]; [trace_ordinary|].
  apply traceAll_bind; [|intros st; apply IH].
  apply traceAll_tryCatch; [|intros; trace_ordinary].
  apply traceAll_bind; [apply exportPage_ordinary|intros [r|]; trace_ordinary].
Qed.
End OrdinaryTraces.

(** ** PdfMerger.merge *)

Section MergeFacts.
Import PdfMerger.
Variable disk : Disk.

Lemma mergeOne_completion st i total a :
  completion (mergeOne disk st i total a) = Returns (mergeStep disk st a).
Proof.
  unfold mergeOne, mergeStep. rewrite completion_bind. cbn [completion debug snd].
  destruct (artifactAt disk (path (store st a))); reflexivity.
Qed.

Lemma mergeFrom_completion metadata : forall i total st,
  completion (mergeFrom disk metadata i total st)
    = Returns (foldl (mergeStep disk) st metadata).
Proof.
  induction metadata as [|a rest IH]; intros i total st; [reflexivity|].
  cbn [mergeFrom foldl]. rewrite completion_bind, mergeOne_completion. apply IH.
Qed.

Lemma mergedState_fold s metadata :
  mergedState disk s metadata =
  foldl (mergeStep disk)
    {| store := s; pdfDoc := []; pages := []; pageOffset := 0 |} metadata.
Proof. unfold mergedState, mergeLoop. by rewrite mergeFrom_completion. Qed.

Lemma path_setPageIndex s a v b : path (setPageIndex s a v b) = path (s b).
Proof.
  unfold setPageIndex. destruct (Nat.eqb_spec b a) as [->|]; reflexivity.
Qed.

Lemma mergeStep_path st a b :
  path (store (mergeStep disk st a) b) = path (store st b).
Proof.
  unfold mergeStep. destruct (artifactAt disk (path (store st a))); try reflexivity.
  apply path_setPageIndex.
Qed.

Lemma copiedPages_ext s s' a :
  (forall b, path (s' b) = path (s b)) ->
  copiedPages disk s' a = copiedPages disk s a.
Proof. intros H. unfold copiedPages. by rewrite H. Qed.

Lemma flat_map_copiedPages_ext s s' l :
  (forall b, path (s' b) = path (s b)) ->
  flat_map (copiedPages disk s') l = flat_map (copiedPages disk s) l.
Proof.
  intros H. induction l as [|x l IH]; [reflexivity|].
  cbn. by rewrite IH, (copiedPages_ext s s' x H).
Qed.

(** What the loop has done when it is over. *)
Lemma merge_fold_inv metadata : forall st,
  let st' := foldl (mergeStep disk) st metadata in
  pdfDoc st' = pdfDoc st ++ flat_map (copiedPages disk (store st)) metadata /\
  pageOffset st' = pageOffset st + length (flat_map (copiedPages disk (store st)) metadata) /\
  (forall b, path (store st' b) = path (store st b)) /\
  (forall b, b ∉ metadata -> store st' b = store st b) /\
  (forall b, artifactAt disk (path (store st b)) = Loaded (copiedPages disk (store st) b)
             \/ store st' b = store st b) /\
  (NoDup metadata ->
   forall i a, metadata !! i = Some a ->
     artifactAt disk (path (store st a)) = Loaded (copiedPages disk (store st) a) ->
     pageIndex (store st' a)
       = pageOffset st + length (flat_map (copiedPages disk (store st)) (take i metadata))).
Proof.
  induction metadata as [|a rest IH]; intros st.
  - cbn. rewrite app_nil_r. repeat split; auto; try lia.
    intros _ i a H. by rewrite lookup_nil in H.
  - cbv zeta. cbn [foldl].
    destruct (IH (mergeStep disk st a)) as (Hdoc & Hoff & Hpath & Hout & Hfail & Hidx).
    assert (Hp : forall b, path (store (mergeStep disk st a) b) = path (store st b))
      by apply mergeStep_path.
    rewrite (flat_map_copiedPages_ext _ _ rest Hp) in Hdoc, Hoff.
    assert (Hstep :
      pdfDoc (mergeStep disk st a) = pdfDoc st ++ copiedPages disk (store st) a /\
      pageOffset (mergeStep disk st a)
        = pageOffset st + length (copiedPages disk (store st) a)).
    { unfold mergeStep, copiedPages.
      destruct (artifactAt disk (path (store st a))); cbn;
        rewrite ?app_nil_r; split; auto; lia. }
    destruct Hstep as [Hd Ho].
    split; [|split; [|split; [|split; [|split]]]].
    + cbn [flat_map]. by rewrite Hdoc, Hd, app_assoc.
    + cbn [flat_map]. rewrite Hoff, Ho, length_app. lia.
    + intros b. by rewrite Hpath, Hp.
    + intros b Hb. apply not_elem_of_cons in Hb as [Hne Hb].
      rewrite (Hout b Hb). unfold mergeStep.
      destruct (artifactAt disk (path (store st a))); try reflexivity.
      cbn. unfold setPageIndex.
      destruct (Nat.eqb_spec b a); [congruence|reflexivity].
    + intros b. destruct (Hfail b) as [Hl | Hs].
      * left. rewrite Hp in Hl. rewrite Hl. f_equal.
        by apply copiedPages_ext.
      * unfold mergeStep in Hs |- *. unfold copiedPages.
        destruct (artifactAt disk (path (store st a))) eqn:Ha; auto.
        cbn in Hs. unfold setPageIndex in Hs.
        destruct (Nat.eqb_spec b a) as [->|Hne]; [|by right].
        left. by rewrite Ha.
    + intros Hnd i b Hi Hloaded. apply NoDup_cons in Hnd as [Hnotin Hnd].
      destruct i as [|i].
      * injection Hi as ->. cbn [take flat_map length].
        rewrite (Hout b Hnotin). unfold mergeStep. rewrite Hloaded. cbn.
        unfold setPageIndex. rewrite Nat.eqb_refl. cbn. lia.
      * cbn in Hi. rewrite (Hidx Hnd i b Hi).
        2:{ rewrite Hp, Hloaded. f_equal. symmetry. by apply copiedPages_ext. }
        rewrite (flat_map_copiedPages_ext _ _ _ Hp).
        cbn [take flat_map]. rewrite Ho, length_app. lia.
Qed.

Lemma traceAll_mergeFrom (P : Event -> Prop) metadata :
  (forall lvl msg, P (Logged lvl msg)) -> (forall p, P (LoadArtifact p)) ->
  forall i total st, traceAll P (mergeFrom disk metadata i total st).
Proof.
  intros Hlog Hload. induction metadata as [|a rest IH]; intros i total st;
    cbn [mergeFrom]; [apply traceAll_ret|].
  apply traceAll_bind; [|intros; apply IH].
  unfold mergeOne. repeat trace_step; auto.
Qed.

(** The completion of [merge]: the typed error for a missing or empty
    list, the wrapped error of the first output step that fails, and the
    output path otherwise. *)
Lemma merge_completion s metadata outputPath :
  completion (fst (merge disk s metadata outputPath)) =
  match metadata with
  | None | Some [] =>
      Throws (MkError PdfMergeError "No source files provided for merging" None)
  | Some (_ :: _) =>
      match d_ensureDirectoryExists disk, d_save disk, d_writeFileSync disk with
      | Throws e, _, _ | Returns _, Throws e, _ | Returns _, Returns _, Throws e =>
          Throws (MkError PdfMergeError "Failed to merge PDF files" (Some e))
      | Returns _, Returns _, Returns _ => Returns outputPath
      end
  end.
Proof.
  destruct metadata as [[|a rest]|]; try reflexivity.
  cbn [merge fst]. rewrite completion_bind. cbn [completion info snd].
  rewrite completion_tryCatch, completion_bind.
  unfold mergeLoop. rewrite mergeFrom_completion, completion_bind.
  cbn [completion perform snd].
  destruct (d_ensureDirectoryExists disk) as [[]|e]; [|reflexivity].
  rewrite completion_bind. cbn [completion perform snd].
  destruct (d_save disk) as [[]|e]; [|reflexivity].
  rewrite completion_bind. cbn [completion perform snd].
  destruct (d_writeFileSync disk) as [[]|e]; reflexivity.
Qed.
End MergeFacts.

Section MergeFacts2.
Import PdfMerger.
Variable disk : Disk.

Lemma mergeStep_fields st a b :
  headings (store (mergeStep disk st a) b) = headings (store st b) /\
  url (store (mergeStep disk st a) b) = url (store st b).
Proof.
  unfold mergeStep. destruct (artifactAt disk (path (store st a))); auto.
  cbn. unfold setPageIndex. destruct (Nat.eqb_spec b a) as [->|]; auto.
Qed.

Lemma merge_fold_fields metadata : forall st b,
  headings (store (foldl (mergeStep disk) st metadata) b) = headings (store st b) /\
  url (store (foldl (mergeStep disk) st metadata) b) = url (store st b).
Proof.
  induction metadata as [|a rest IH]; intros st b; [auto|].
  cbn [foldl]. destruct (IH (mergeStep disk st a) b) as [-> ->].
  apply mergeStep_fields.
Qed.

Lemma length_flat_map_sum {A} (f : A -> list PDFPage) l :
  length (flat_map f l) = sum_list (map (fun a => length (f a)) l).
Proof.
  induction l as [|x l IH]; [reflexivity|].
  cbn. rewrite length_app, IH. reflexivity.
Qed.

Lemma merge_store s md outputPath :
  md <> [] -> snd (merge disk s (Some md) outputPath) = store (mergedState disk s md).
Proof. destruct md; [congruence|reflexivity]. Qed.

Lemma merge_trace_written s md outputPath :
  md <> [] ->
  d_ensureDirectoryExists disk = Returns tt -> d_save disk = Returns tt ->
  WriteOutput outputPath (savedPages (pdfDoc (mergedState disk s md)))
    ∈ trace (fst (merge disk s (Some md) outputPath)).
Proof.
  intros Hne Hdir Hsave. destruct md as [|a rest]; [congruence|].
  cbn [merge fst]. rewrite trace_bind. cbn [completion info snd trace fst].
  rewrite trace_tryCatch.
  assert (Hin : WriteOutput outputPath (savedPages (pdfDoc (mergedState disk s (a :: rest))))
            ∈ trace (st <- mergeLoop disk s (a :: rest);;
                     perform EnsureOutputDir (d_ensureDirectoryExists disk);;;
                     perform SaveDocument (d_save disk);;;
                     perform (WriteOutput outputPath (savedPages (pdfDoc st)))
                       (d_writeFileSync disk);;;
                     info ("PDF merge successful. Output file: " +:+ outputPath);;;
                     ret outputPath)).
  { rewrite trace_bind. unfold mergedState.
    destruct (completion (mergeLoop disk s (a :: rest))) as [st|e] eqn:Hloop.
    2:{ unfold mergeLoop in Hloop. by rewrite mergeFrom_completion in Hloop. }
    apply elem_of_app. right. rewrite Hdir, Hsave.
    destruct (d_writeFileSync disk) as [[]|e]; apply list_elem_of_In; cbn; auto 10. }
  apply elem_of_cons. right.
  match goal with
  | |- _ ∈ match ?c with _ => _ end => destruct c
  end; [exact Hin|]. apply elem_of_app. by left.
Qed.
End MergeFacts2.

(** C1.  Merging distinct records of which at least one page is copied:
    the document written has the pages of every artifact that loads, in
    input order, so exactly the sum of their page counts; the record at
    position [i] gets as [pageIndex] the sum of the page counts before it; a
    record whose artifact fails to load or to be copied adds no page, keeps
    its [pageIndex], and the records after it are merged all the same.
    (When no page at all is copied the file written is not empty: saving
    adds a blank page, see [savedPages].) *)
Theorem merge_page_offsets
    (disk : Disk) (s : Store) (metadata : list nat) (outputPath : string)
    (Hdistinct : NoDup metadata) (Hnonempty : metadata <> [])
    (Hpages : flat_map (copiedPages disk s) metadata <> [])
    (Hdir : d_ensureDirectoryExists disk = Returns tt)
    (Hsave : d_save disk = Returns tt)
    (Hwrite : d_writeFileSync disk = Returns tt) :
  let result := PdfMerger.merge disk s (Some metadata) outputPath in
  let count := fun a => length (copiedPages disk s a) in
  exists document,
    completion (fst result) = Returns outputPath /\
    WriteOutput outputPath document ∈ trace (fst result) /\
    document = map Copied (flat_map (copiedPages disk s) metadata) /\
    length document = sum_list (map count metadata) /\
    (forall a, path (snd result a) = path (s a) /\
               headings (snd result a) = headings (s a) /\
               url (snd result a) = url (s a)) /\
    (forall i a, metadata !! i = Some a ->
       match artifactAt disk (path (s a)) with
       | Loaded _ => pageIndex (snd result a) = sum_list (map count (take i metadata))
       | _ => pageIndex (snd result a) = pageIndex (s a)
       end).
Proof.
  intros result count. subst result.
  exists (savedPages (PdfMerger.pdfDoc (PdfMerger.mergedState disk s metadata))).
  rewrite merge_store by assumption.
  pose proof (merge_trace_written disk s metadata outputPath Hnonempty Hdir Hsave) as Hw.
  rewrite merge_completion, Hdir, Hsave, Hwrite.
  rewrite mergedState_fold in *.
  destruct (merge_fold_inv disk metadata
              {| PdfMerger.store := s; PdfMerger.pdfDoc := [];
                 PdfMerger.pages := []; PdfMerger.pageOffset := 0 |})
    as (Hdoc & _ & Hpath & _ & Hfail & Hidx).
  cbn [PdfMerger.store PdfMerger.pdfDoc PdfMerger.pageOffset app] in *.
  split; [destruct metadata; [congruence|reflexivity]|].
  split; [exact Hw|].
  assert (Hsaved : savedPages (PdfMerger.pdfDoc
                     (foldl (mergeStep disk)
                        {| PdfMerger.store := s; PdfMerger.pdfDoc := [];
                           PdfMerger.pages := []; PdfMerger.pageOffset := 0 |} metadata))
                   = map Copied (flat_map (copiedPages disk s) metadata)).
  { rewrite Hdoc. by destruct (flat_map (copiedPages disk s) metadata). }
  split; [exact Hsaved|].
  split; [rewrite Hsaved, length_map; apply length_flat_map_sum|].
  split.
  - intros a. split; [apply Hpath|].
    apply (merge_fold_fields disk metadata
             {| PdfMerger.store := s; PdfMerger.pdfDoc := [];
                PdfMerger.pages := []; PdfMerger.pageOffset := 0 |} a).
  - intros i a Hi. specialize (Hidx Hdistinct i a Hi).
    destruct (Hfail a) as [Hl|Hs].
    + rewrite Hl in *. rewrite Hidx by reflexivity.
      cbn. apply length_flat_map_sum.
    + destruct (artifactAt disk (path (s a))) eqn:Ha; try (by rewrite Hs).
      rewrite Hidx; [cbn; apply length_flat_map_sum|].
      unfold copiedPages. by rewrite Ha.
Qed.

Lemma merge_page_offsets_witness :
  let result :=
    PdfMerger.merge sampleDisk (storeOf sampleFiles) (Some (seq 0 3)) "out/docs.pdf" in
  completion (fst result) = Returns "out/docs.pdf"%string /\
  WriteOutput "out/docs.pdf" (map Copied [10; 11; 12; 20; 21]) ∈ trace (fst result) /\
  pageIndex (snd result 0) = 0 /\
  pageIndex (snd result 1) = 1 /\
  pageIndex (snd result 2) = 3.
Proof.
  intros result.
  destruct (merge_page_offsets sampleDisk (storeOf sampleFiles) (seq 0 3) "out/docs.pdf")
    as (document & Hc & Hw & Hdoc & _ & _ & Hidx);
    [apply NoDup_seq | discriminate | discriminate
    | reflexivity | reflexivity | reflexivity |].
  split; [exact Hc|]. split; [subst document; exact Hw|].
  split; [exact (Hidx 0 0 eq_refl)|].
  split; [exact (Hidx 1 1 eq_refl)|exact (Hidx 2 2 eq_refl)].
Defined.

(** ** LinkCollector *)

(** C5, as stated, fails: nothing removes duplicates.  A sidebar that lists
    one document under two categories gives its URL twice, on the sidebar
    path as on the fallback path. *)
Lemma collectAllLinks_duplicate_counterexample :
  let twice := ["http://localhost:3000/docs/intro"; "http://localhost:3000/docs/intro"]%string in
  completion (LinkCollector.collectAllLinks defaultConfig (repeatedLinkPage true)
                "http://localhost:3000") = Returns twice /\
  completion (LinkCollector.collectAllLinks defaultConfig (repeatedLinkPage false)
                "http://localhost:3000") = Returns twice /\
  ~ NoDup twice.
Proof.
  split; [reflexivity|]. split; [reflexivity|].
  intros H. apply NoDup_cons in H as [H _]. apply H. by left.
Qed.

(** C5, amended.  When the page loads and the links can be read,
    [collectAllLinks] returns, on the sidebar path (after the expansion) as
    on the fallback path, the [href] of every anchor that matches the link
    selector, in document order, one entry per anchor: a URL appears as many
    times as there are matching anchors that point to it. *)
Theorem collectAllLinks_document_order
    (config : Config) (nav : NavigationPage) (baseUrl : string)
    (document : list Anchor)
    (Hgoto : np_goto nav = Returns tt)
    (Hwait : np_loadWait nav = Returns tt)
    (Hdoc : np_document nav = Returns document)
    (Hpath : (exists e, np_waitForSelector nav = Throws e) \/
             (np_waitForSelector nav = Returns tt /\
              (exists n, np_level1Count nav = Returns n) /\
              completion (SidebarExpander.expandAll config (np_sidebar nav)) = Returns tt /\
              np_expandedWait nav = Returns tt)) :
  exists links,
    completion (LinkCollector.collectAllLinks config nav baseUrl) = Returns links /\
    links = map href (filter (fun a => matchesLinkSelector a = true) document) /\
    (NoDup links <->
     forall i j a b,
       filter (fun a => matchesLinkSelector a = true) document !! i = Some a ->
       filter (fun a => matchesLinkSelector a = true) document !! j = Some b ->
       href a = href b -> i = j).
Proof.
  eexists. split; [|split; [reflexivity|]].
  2:{ rewrite NoDup_alt. split.
      - intros H i j a b Ha Hb Heq. apply (H i j (href a)).
        + change map with (@fmap list _) in *. by rewrite list_lookup_fmap, Ha.
        + change map with (@fmap list _) in *. by rewrite list_lookup_fmap, Hb, Heq.
      - intros H i j u Hi Hj. change map with (@fmap list _) in *.
        rewrite list_lookup_fmap in Hi, Hj.
        destruct (_ !! i) as [a|] eqn:Ha; [|discriminate].
        destruct (_ !! j) as [b|] eqn:Hb; [|discriminate].
        cbn in Hi, Hj. apply (H i j a b Ha Hb). congruence. }
  unfold LinkCollector.collectAllLinks.
  rewrite completion_bind. cbn [completion info snd].
  rewrite completion_bind. cbn [completion perform snd]. rewrite Hgoto.
  rewrite completion_bind. cbn [completion perform snd]. rewrite Hwait.
  rewrite completion_bind. cbn [completion debug snd].
  rewrite completion_bind, completion_tryCatch, completion_bind.
  cbn [completion perform snd].
  destruct Hpath as [[e He] | (Hsel & [n Hn] & Hexp & Hwait2)].
  - rewrite He. rewrite completion_bind. cbn [completion warn ret snd].
    unfold LinkCollector.collectLinksAlternative, LinkCollector.evalLinksOutcome.
    rewrite Hdoc. reflexivity.
  - rewrite Hsel. cbn [completion ret snd].
    rewrite completion_bind. cbn [completion perform snd]. rewrite Hn.
    rewrite completion_bind. cbn [completion info snd].
    rewrite completion_bind, Hexp.
    rewrite completion_bind. cbn [completion perform snd]. rewrite Hwait2.
    rewrite completion_bind. cbn [completion debug snd].
    unfold LinkCollector.evalLinksOutcome. rewrite Hdoc. reflexivity.
Qed.

Lemma collectAllLinks_document_order_witness :
  completion (LinkCollector.collectAllLinks defaultConfig (repeatedLinkPage true)
                "http://localhost:3000")
    = Returns ["http://localhost:3000/docs/intro"; "http://localhost:3000/docs/intro"]%string.
Proof.
  destruct (collectAllLinks_document_order defaultConfig (repeatedLinkPage true)
              "http://localhost:3000"
              [ menuLink "http://localhost:3000/docs/intro";
                {| classList := ["menu__link"; "menuExternalLink_NmtK"]%string;
                   href := "https://github.com/" |};
                menuLink "http://localhost:3000/docs/intro" ])
    as (links & Hc & Hlinks & _);
    [reflexivity | reflexivity | reflexivity | | ].
  - right. split; [reflexivity|]. split; [by exists 2|]. split; reflexivity.
  - rewrite Hc, Hlinks. reflexivity.
Defined.

(** ** The orchestrator *)

Section OrchestratorFacts.
Import DocusaurusPdfExporter.
Variable config : Config.
Variable w : World.

Lemma merge_traceAll (P : Event -> Prop) s metadata outputPath :
  (forall lvl msg, P (Logged lvl msg)) ->
  (forall e, mergeEvent e = true -> P e) ->
  traceAll P (fst (PdfMerger.merge (w_disk w) s metadata outputPath)).
Proof.
  intros Hlog Hmerge. destruct metadata as [[|a rest]|]; cbn [PdfMerger.merge fst];
    try apply traceAll_throw.
  apply traceAll_bind; [by apply traceAll_log|intros _].
  apply traceAll_tryCatch; [|intros; apply traceAll_throw].
  apply traceAll_bind; [|intros st].
  { apply traceAll_mergeFrom; auto. }
  repeat trace_step; auto; by apply Hmerge.
Qed.

Lemma initialize_browser this :
  w_launch w = Returns tt -> browser (snd (initialize w this)) = true.
Proof.
  intros H. unfold initialize. rewrite H.
  destruct (w_newContext w); [destruct (w_newPage w)|]; reflexivity.
Qed.

Lemma initialize_traceAll (P : Event -> Prop) this :
  P BrowserLaunch -> P BrowserNewContext -> P ContextNewPage ->
  traceAll P (fst (initialize w this)).
Proof.
  intros H1 H2 H3. unfold initialize.
  destruct (w_launch w); [destruct (w_newContext w); [destruct (w_newPage w)|]|];
    cbn [fst]; repeat trace_step; assumption.
Qed.

Lemma initialize_completion this :
  w_launch w = Returns tt -> w_newContext w = Returns tt -> w_newPage w = Returns tt ->
  completion (fst (initialize w this)) = Returns tt.
Proof. intros H1 H2 H3. unfold initialize. by rewrite H1, H2, H3. Qed.

Lemma verifyDocusaurusRunning_traceAll (P : Event -> Prop) u :
  (forall lvl msg, P (Logged lvl msg)) -> P (PageGoto u) ->
  traceAll P (verifyDocusaurusRunning w u).
Proof. intros Hlog Hgoto. unfold verifyDocusaurusRunning. repeat trace_step; auto. Qed.

(** The steps between the launch and the closing of the browser make no
    call on the browser life cycle and never rewrite links. *)
Lemma exportSteps_traceAll u outputPath :
  traceAll (fun e => lifecycleEvent e = false /\ rewriteEvent e = false)
    (exportSteps config w u outputPath).
Proof.
  unfold exportSteps.
  apply traceAll_bind; [apply verifyDocusaurusRunning_traceAll; by split|intros _].
  apply traceAll_bind; [trace_ordinary|intros tempDir].
  apply traceAll_bind; [trace_ordinary|intros _].
  apply traceAll_bind; [|intros links].
  { eapply traceAll_impl; [apply collectAllLinks_ordinary|]. intros e (?&?&?); by split. }
  apply traceAll_bind; [|intros files].
  { eapply traceAll_impl; [apply exportPagesFrom_ordinary|]. intros e (?&?&?); by split. }
  apply traceAll_bind; [trace_ordinary|intros _].
  apply traceAll_bind; [|intros _; trace_ordinary].
  apply merge_traceAll; [by split|]. intros [] H; try discriminate; by split.
Qed.

Lemma export_unfold this u outputPath :
  fst (export config w this u outputPath) =
  tryFinally
    (tryCatch (fst (initialize w this);;; exportSteps config w u outputPath)
              (fun err => error "Export failed:";;; throw err))
    (if browser (snd (initialize w this))
     then info "Closing browser...";;; perform BrowserClose (w_close w)
     else ret tt).
Proof. unfold export. destruct (initialize w this). reflexivity. Qed.

Lemma export_body_traceAll (P : Event -> Prop) this u outputPath :
  P BrowserLaunch -> P BrowserNewContext -> P ContextNewPage ->
  (forall e, lifecycleEvent e = false -> rewriteEvent e = false -> P e) ->
  traceAll P
    (tryCatch (fst (initialize w this);;; exportSteps config w u outputPath)
              (fun err => error "Export failed:";;; throw err)).
Proof.
  intros H1 H2 H3 HP.
  apply traceAll_tryCatch; [|intros; repeat trace_step; by apply HP].
  apply traceAll_bind; [by apply initialize_traceAll|intros _].
  eapply traceAll_impl; [apply exportSteps_traceAll|]. intros e [? ?]. by apply HP.
Qed.
End OrchestratorFacts.

(** C9.  Once the browser has been launched, every run of [export] ends
    with the call that closes it, whether the steps in between return or
    throw: the close is the last call made before [export] completes, it is
    made once, and (when closing succeeds) the completion is the one of the
    steps, value or error. *)
Theorem export_closes_browser
    (config : Config) (w : World) (this : Exporter) (u outputPath : string)
    (Hlaunched : w_launch w = Returns tt) :
  let run := fst (DocusaurusPdfExporter.export config w this u outputPath) in
  let steps :=
    tryCatch (fst (DocusaurusPdfExporter.initialize w this);;;
              DocusaurusPdfExporter.exportSteps config w u outputPath)
             (fun err => error "Export failed:";;; throw err) in
  trace run = trace steps ++ [Logged Info "Closing browser..."; BrowserClose] /\
  (BrowserClose ∉ trace steps) /\
  completion run = match w_close w with
                   | Returns _ => completion steps
                   | Throws e => Throws e
                   end.
Proof.
  intros run steps. subst run. rewrite export_unfold.
  rewrite (initialize_browser w this Hlaunched).
  rewrite trace_tryFinally, completion_tryFinally. fold steps.
  split; [reflexivity|]. split.
  - assert (H : traceAll (fun e => e <> BrowserClose) steps).
    { apply export_body_traceAll; try discriminate. intros [] ? ?; discriminate. }
    intros Hin. unfold traceAll in H. rewrite Forall_forall in H.
    by apply (H BrowserClose).
  - rewrite completion_bind. cbn [completion info perform snd].
    destruct (w_close w); reflexivity.
Qed.

Lemma export_closes_browser_witness :
  let run := fst (DocusaurusPdfExporter.export defaultConfig listingSite
                    DocusaurusPdfExporter.newExporter "http://localhost:3000" "out/docs.pdf") in
  last (trace run) = Some BrowserClose /\
  completion run = Throws (MkError ExportError "No pages were successfully exported" None).
Proof.
  destruct (export_closes_browser defaultConfig listingSite
              DocusaurusPdfExporter.newExporter "http://localhost:3000" "out/docs.pdf"
              eq_refl) as (Htrace & _ & Hcompletion).
  cbv zeta. rewrite Htrace, Hcompletion. split; [|reflexivity].
  rewrite (app_assoc _ [Logged Info "Closing browser..."] [BrowserClose]).
  apply last_snoc.
Defined.

(** C10.  No run of [export] rewrites links: [exportPages] is called
    without a base URL, so the call of [replaceInternalLinks], which is the
    only place where the rewriting script is evaluated, is never made. *)
Theorem export_never_rewrites_links
    (config : Config) (w : World) (this : Exporter) (u outputPath : string) :
  (forall view b, exists rest,
     trace (PdfExporter.replaceInternalLinks view b) = ReplaceLinksEval b :: rest) /\
  (forall tempDir links,
     traceAll (fun e => rewriteEvent e = false)
       (PdfExporter.exportPages (w_site w) links tempDir None)) /\
  forall b,
    ReplaceLinksEval b
      ∉ trace (fst (DocusaurusPdfExporter.export config w this u outputPath)).
Proof.
  split; [|split].
  - intros view b. unfold PdfExporter.replaceInternalLinks.
    destruct (pv_replaceLinks view) as [[]|e]; eexists; reflexivity.
  - intros tempDir links.
    eapply traceAll_impl; [apply exportPagesFrom_ordinary|]. by intros e (?&?&?).
  - intros b Hin. rewrite export_unfold in Hin.
    assert (H : traceAll (fun e => rewriteEvent e = false)
                  (fst (DocusaurusPdfExporter.export config w this u outputPath))).
    { rewrite export_unfold. apply traceAll_tryFinally.
      - apply export_body_traceAll; auto.
      - destruct (browser _); repeat trace_step; reflexivity. }
    rewrite export_unfold in H. unfold traceAll in H. rewrite Forall_forall in H.
    specialize (H _ Hin). discriminate.
Qed.

Section ZeroPages.
Import DocusaurusPdfExporter.
Variable config : Config.
Variable w : World.

Lemma traceAll_bind_returned {A B} (P : Event -> Prop) (m : Run A) (f : A -> Run B) :
  traceAll P m -> (forall a, completion m = Returns a -> traceAll P (f a)) ->
  traceAll P (bind m f).
Proof.
  unfold traceAll. intros Hm Hf. rewrite trace_bind.
  destruct (completion m) as [a|e]; [|exact Hm]. apply Forall_app. auto.
Qed.

Lemma exportPages_none_exported links tempDir :
  skippedOrFailed (pageOutcomes (w_site w) links 0 tempDir None) = length links ->
  completion (PdfExporter.exportPages (w_site w) links tempDir None) = Returns [].
Proof.
  intros Hzero.
  destruct (exportPagesFrom_inv (w_site w) tempDir None links 0 [] 0)
    as (files & Hc & _ & Hlen & _).
  unfold PdfExporter.exportPages. rewrite Hc. cbn [app]. f_equal.
  apply length_zero_iff_nil. lia.
Qed.

Variables (u outputPath tempDir : string) (links : list string).
Hypothesis Hverify : w_verifyGoto w = Returns tt.
Hypothesis Htemp : w_createTempDirectory w = Returns tempDir.
Hypothesis Hlinks :
  completion (LinkCollector.collectAllLinks config (w_navigation w) u) = Returns links.
Hypothesis Hzero :
  skippedOrFailed (pageOutcomes (w_site w) links 0 tempDir None) = length links.

Lemma exportSteps_zero_pages_completion :
  completion (exportSteps config w u outputPath)
    = Throws (MkError ExportError "No pages were successfully exported" None).
Proof using Hverify Htemp Hlinks Hzero.
  unfold exportSteps. rewrite completion_bind.
  unfold verifyDocusaurusRunning. rewrite completion_tryCatch, !completion_bind.
  cbn [completion info perform snd]. rewrite Hverify, Htemp.
  rewrite completion_bind. cbn [completion info snd].
  rewrite completion_bind, Hlinks.
  rewrite completion_bind, (exportPages_none_exported links tempDir Hzero).
  reflexivity.
Qed.

Lemma exportSteps_zero_pages_trace :
  traceAll (fun e => mergeEvent e = false) (exportSteps config w u outputPath).
Proof using Hverify Htemp Hlinks Hzero.
  unfold exportSteps.
  apply traceAll_bind; [by apply verifyDocusaurusRunning_traceAll|intros _].
  apply traceAll_bind_returned; [trace_ordinary|intros dir Hdir].
  cbn [completion perform snd] in Hdir. rewrite Htemp in Hdir. injection Hdir as <-.
  apply traceAll_bind; [trace_ordinary|intros _].
  apply traceAll_bind_returned; [|intros ls Hls].
  { eapply traceAll_impl; [apply collectAllLinks_ordinary|]. by intros e (?&?&?). }
  rewrite Hlinks in Hls. injection Hls as <-.
  apply traceAll_bind_returned; [|intros files Hfiles].
  { eapply traceAll_impl; [apply exportPagesFrom_ordinary|]. by intros e (?&?&?). }
  rewrite (exportPages_none_exported links tempDir Hzero) in Hfiles.
  injection Hfiles as <-. cbn [length Nat.eqb].
  unfold bind at 1. cbn [throw]. constructor.
Qed.
End ZeroPages.

(** C4.  [merge] throws exactly when the metadata list is missing or empty
    or a step of the final output (creating the output directory,
    serialising, writing the file) fails; what it throws is a PdfMergeError,
    and what the artifacts do (load or fail) has no part in it.  The
    orchestrator, when no page was exported, throws its own ExportError and
    makes no call of the merger. *)
Theorem merge_and_export_fatal_conditions
    (disk : Disk) (s : Store) (metadata : option (list nat)) (outputPath : string)
    (config : Config) (w : World) (this : Exporter)
    (u out tempDir : string) (links : list string)
    (Hlaunch : w_launch w = Returns tt)
    (Hcontext : w_newContext w = Returns tt)
    (HnewPage : w_newPage w = Returns tt)
    (Hverify : w_verifyGoto w = Returns tt)
    (Htemp : w_createTempDirectory w = Returns tempDir)
    (Hlinks : completion (LinkCollector.collectAllLinks config (w_navigation w) u)
                = Returns links)
    (Hzero : skippedOrFailed (pageOutcomes (w_site w) links 0 tempDir None) = length links)
    (Hclose : w_close w = Returns tt) :
  ((exists e, completion (fst (PdfMerger.merge disk s metadata outputPath)) = Throws e)
   <-> (metadata = None \/ metadata = Some [] \/
        d_ensureDirectoryExists disk <> Returns tt \/
        d_save disk <> Returns tt \/
        d_writeFileSync disk <> Returns tt)) /\
  (forall e, completion (fst (PdfMerger.merge disk s metadata outputPath)) = Throws e ->
             err_name e = PdfMergeError) /\
  (forall artifacts,
     completion (fst (PdfMerger.merge
                        {| artifactAt := artifacts;
                           d_ensureDirectoryExists := d_ensureDirectoryExists disk;
                           d_save := d_save disk;
                           d_writeFileSync := d_writeFileSync disk |}
                        s metadata outputPath))
       = completion (fst (PdfMerger.merge disk s metadata outputPath))) /\
  let run := fst (DocusaurusPdfExporter.export config w this u out) in
  completion run = Throws (MkError ExportError "No pages were successfully exported" None) /\
  traceAll (fun e => mergeEvent e = false) run.
Proof.
  split; [|split; [|split]].
  - rewrite merge_completion.
    destruct metadata as [[|a rest]|]; [split; eauto | | split; eauto].
    destruct (d_ensureDirectoryExists disk) as [[]|e1];
      destruct (d_save disk) as [[]|e2];
      destruct (d_writeFileSync disk) as [[]|e3];
      (split;
       [ intros [e He]; try discriminate He;
         (do 2 right); first [ by left | by (right; left) | by (right; right) ]
       | intros H; try (by eexists);
         destruct H as [H|[H|[H|[H|H]]]]; congruence ]).
  - intros e. rewrite merge_completion.
    destruct metadata as [[|a rest]|]; try (by intros [= <-]).
    destruct (d_ensureDirectoryExists disk) as [[]|e1]; [|by intros [= <-]].
    destruct (d_save disk) as [[]|e2]; [|by intros [= <-]].
    destruct (d_writeFileSync disk) as [[]|e3]; [discriminate|by intros [= <-]].
  - intros artifacts. by rewrite !merge_completion.
  - cbv zeta. rewrite !export_unfold.
    rewrite (initialize_browser w this Hlaunch). split.
    + rewrite completion_tryFinally, completion_bind.
      cbn [completion info perform snd]. rewrite Hclose.
      rewrite completion_tryCatch, completion_bind.
      rewrite (initialize_completion w this Hlaunch Hcontext HnewPage).
      by rewrite (exportSteps_zero_pages_completion config w u out tempDir links).
    + apply traceAll_tryFinally; [|repeat trace_step; reflexivity].
      apply traceAll_tryCatch; [|intros; repeat trace_step; reflexivity].
      apply traceAll_bind; [by apply initialize_traceAll|intros _].
      by apply (exportSteps_zero_pages_trace config w u out tempDir links).
Qed.

Lemma merge_and_export_fatal_conditions_witness :
  let run := fst (DocusaurusPdfExporter.export defaultConfig listingSite
                    DocusaurusPdfExporter.newExporter "http://localhost:3000" "out/docs.pdf") in
  (exists e, completion (fst (PdfMerger.merge sampleDisk (storeOf sampleFiles) (Some [])
                                "out/docs.pdf")) = Throws e) /\
  completion run = Throws (MkError ExportError "No pages were successfully exported" None) /\
  traceAll (fun e => mergeEvent e = false) run.
Proof.
  destruct (merge_and_export_fatal_conditions sampleDisk (storeOf sampleFiles) (Some [])
              "out/docs.pdf" defaultConfig listingSite DocusaurusPdfExporter.newExporter
              "http://localhost:3000" "out/docs.pdf" "/work/pdfsTempab12cd"
              ["http://localhost:3000/docs/intro"; "http://localhost:3000/docs/intro"]%string
              eq_refl eq_refl eq_refl eq_refl eq_refl eq_refl eq_refl eq_refl)
    as (Hiff & _ & _ & Hrun & Htrace).
  split; [apply Hiff; right; by left|]. split; [exact Hrun|exact Htrace].
Defined.

(** ** The bookmark outline: first pass *)

Section StackFacts.
Import PdfMerger.

Lemma stackGet_out (stack : Stack) (m : Z) :
  (Z.of_nat (length stack) <= m)%Z -> stackGet stack m = None.
Proof.
  intros H. unfold stackGet. destruct (m <? 0)%Z; [reflexivity|].
  rewrite lookup_ge_None_2; [reflexivity|lia].
Qed.

Lemma length_stackSet (stack : Stack) (k : Z) v :
  (k < Z.of_nat (length stack))%Z -> length (stackSet stack k v) = length stack.
Proof.
  intros H. unfold stackSet. destruct (Z.ltb_spec k 0); [reflexivity|].
  destruct (Nat.ltb_spec (Z.to_nat k) (length stack)); [|lia].
  apply length_insert.
Qed.

(** Reading after [stack[k] = v]. *)
Lemma stackGet_stackSet (stack : Stack) (k m : Z) v :
  (0 <= m)%Z ->
  stackGet (stackSet stack k v) m = if (m =? k)%Z then v else stackGet stack m.
Proof.
  intros Hm. unfold stackSet, stackGet.
  destruct (Z.ltb_spec m 0); [lia|].
  destruct (Z.ltb_spec k 0).
  { destruct (Z.eqb_spec m k); [lia|reflexivity]. }
  destruct (Nat.ltb_spec (Z.to_nat k) (length stack)).
  - destruct (Z.eqb_spec m k) as [->|Hne].
    + by rewrite list_lookup_insert_eq.
    + rewrite list_lookup_insert_ne by lia. reflexivity.
  - destruct (Z.eqb_spec m k) as [->|Hne].
    + rewrite lookup_app_r by lia. rewrite lookup_app_r by (rewrite length_replicate; lia).
      rewrite length_replicate.
      replace (Z.to_nat k - length stack - (Z.to_nat k - length stack)) with 0 by lia.
      reflexivity.
    + destruct (Nat.lt_ge_cases (Z.to_nat m) (length stack)).
      * by rewrite lookup_app_l.
      * rewrite (lookup_ge_None_2 stack) by lia. rewrite lookup_app_r by lia.
        destruct (Nat.lt_ge_cases (Z.to_nat m) (Z.to_nat k)).
        -- rewrite lookup_app_l by (rewrite length_replicate; lia).
           rewrite lookup_replicate_2 by lia. reflexivity.
        -- rewrite lookup_app_r by (rewrite length_replicate; lia).
           rewrite length_replicate.
           rewrite lookup_ge_None_2; [reflexivity|cbn; lia].
Qed.

(** Reading after the loop that clears the deeper levels. *)
Lemma stackGet_clearLoop fuel : forall (i : Z) (stack : Stack) (m : Z),
  (Z.of_nat (length stack) - i <= Z.of_nat fuel)%Z -> (0 <= m)%Z ->
  stackGet (clearLoop fuel i stack) m
    = if (i <=? m)%Z then None else stackGet stack m.
Proof.
  induction fuel as [|fuel IH]; intros i stack m Hfuel Hm.
  - cbn. destruct (Z.leb_spec i m); [|reflexivity].
    rewrite stackGet_out; [reflexivity|lia].
  - cbn [clearLoop]. destruct (Z.ltb_spec i (Z.of_nat (length stack))).
    + rewrite IH; [|rewrite length_stackSet; lia|lia].
      rewrite stackGet_stackSet by lia.
      destruct (Z.leb_spec (i + 1) m), (Z.leb_spec i m), (Z.eqb_spec m i);
        try lia; reflexivity.
    + destruct (Z.leb_spec i m); [|reflexivity].
      rewrite stackGet_out; [reflexivity|lia].
Qed.

Lemma stackGet_clearDeeper (from : Z) (stack : Stack) (m : Z) :
  (0 <= m)%Z ->
  stackGet (clearDeeper from stack) m
    = if (from <=? m)%Z then None else stackGet stack m.
Proof. intros Hm. unfold clearDeeper. apply stackGet_clearLoop; lia. Qed.

(** The stack after the insertion of a heading of level [l] as entry
    [n]: the deeper levels are cleared, level [l] holds the new entry,
    the levels above are kept. *)
Lemma addHeading_stack targetPage infos stack hd (m : Z) :
  (0 <= m)%Z ->
  stackGet (snd (addHeading targetPage (infos, stack) hd)) m
    = if (level hd <=? m)%Z then None
      else if (m =? level hd - 1)%Z then Some (length infos)
      else stackGet stack m.
Proof.
  intros Hm. cbn [addHeading snd].
  rewrite stackGet_clearDeeper, stackGet_stackSet by lia.
  rewrite length_app. cbn [length].
  replace (length infos + 1 - 1) with (length infos) by lia. reflexivity.
Qed.

Lemma addHeading_infos targetPage infos stack hd :
  fst (addHeading targetPage (infos, stack) hd)
    = infos ++ [ {| dict := newDict (text hd) targetPage;
                    info_level := level hd;
                    parentIndex :=
                      if (1 <? level hd)%Z
                      then match stackGet stack (level hd - 2) with
                           | Some p => Z.of_nat p
                           | None => (-1)%Z
                           end
                      else (-1)%Z;
                    index := length infos |} ].
Proof.
  cbn [addHeading fst]. do 3 f_equal.
  destruct (Z.ltb_spec 1 (level hd)); [|reflexivity].
  destruct (Z.leb_spec 0 (level hd - 2)); [reflexivity|lia].
Qed.
End StackFacts.

Section OpenNodeFacts.

Lemma openNodeFrom_snoc levels : forall k i cur l,
  openNodeFrom (levels ++ [l]) k i cur
    = if (l =? k)%Z then Some (i + length levels)
      else if (l <? k)%Z then None
      else openNodeFrom levels k i cur.
Proof.
  induction levels as [|x rest IH]; intros k i cur l.
  - cbn. by rewrite Nat.add_0_r.
  - cbn [app openNodeFrom length]. rewrite IH.
    replace (S i + length rest) with (i + S (length rest)) by lia. reflexivity.
Qed.

Lemma openNode_snoc levels k l :
  openNode (levels ++ [l]) k
    = if (l =? k)%Z then Some (length levels)
      else if (l <? k)%Z then None
      else openNode levels k.
Proof. unfold openNode. by rewrite openNodeFrom_snoc. Qed.

(** The open node of level [k] is an earlier node of level [k], and all
    the nodes after it are deeper. *)
Lemma openNode_Some levels : forall k j,
  openNode levels k = Some j ->
  levels !! j = Some k /\
  forall m l, j < m -> levels !! m = Some l -> (k < l)%Z.
Proof.
  induction levels as [|l levels IH] using rev_ind; intros k j H; [discriminate|].
  rewrite openNode_snoc in H.
  destruct (Z.eqb_spec l k) as [->|Hne].
  - injection H as <-. split.
    + rewrite lookup_app_r by lia. by rewrite Nat.sub_diag.
    + intros m l' Hm Hl. apply lookup_lt_Some in Hl.
      rewrite length_app in Hl. cbn in Hl. lia.
  - destruct (Z.ltb_spec l k); [discriminate|].
    destruct (IH k j H) as [Hj Hafter]. pose proof (lookup_lt_Some _ _ _ Hj).
    split; [by rewrite lookup_app_l|].
    intros m l' Hm Hl. destruct (Nat.lt_ge_cases m (length levels)).
    + rewrite lookup_app_l in Hl by lia. by apply (Hafter m).
    + rewrite lookup_app_r in Hl by lia.
      destruct (m - length levels) as [|m'] eqn:E; [|by destruct m'].
      injection Hl as <-. lia.
Qed.

(** No node is open at level [k] when the latest node of a level at most
    [k] is shallower than [k], or when there is none. *)
Lemma openNode_None levels : forall k j,
  openNode levels k = None -> levels !! j = Some k ->
  exists m l, j < m /\ levels !! m = Some l /\ (l < k)%Z.
Proof.
  induction levels as [|l levels IH] using rev_ind; intros k j H Hj;
    [by rewrite lookup_nil in Hj|].
  rewrite openNode_snoc in H.
  destruct (Z.eqb_spec l k) as [->|Hne]; [discriminate|].
  destruct (Nat.lt_ge_cases j (length levels)).
  - rewrite lookup_app_l in Hj by lia.
    destruct (Z.ltb_spec l k).
    + exists (length levels), l. split; [lia|]. split; [|lia].
      rewrite lookup_app_r by lia. by rewrite Nat.sub_diag.
    + destruct (IH k j H Hj) as (m & l' & Hm & Hl & Hlt).
      exists m, l'. split; [lia|]. split; [|lia].
      rewrite lookup_app_l; [exact Hl|]. by eapply lookup_lt_Some.
  - rewrite lookup_app_r in Hj by lia.
    destruct (j - length levels) as [|j'] eqn:E; [|by destruct j'].
    injection Hj as ->. lia.
Qed.
End OpenNodeFacts.

Section FirstPassFacts.
Import PdfMerger.

Lemma firstPass_flat pages metadata :
  firstPass pages metadata = insertAll (processedHeadings pages metadata).
Proof.
  unfold firstPass, insertAll. generalize (@nil BookmarkInfo, @nil (option nat)).
  induction metadata as [|meta rest IH]; intros st; [reflexivity|].
  cbn [foldl processedHeadings flat_map]. rewrite foldl_app, IH. f_equal.
  unfold addPage. destruct (pages !! pageIndex meta) as [targetPage|]; [|reflexivity].
  generalize (default [] (headings meta)). intros hs. revert st.
  induction hs as [|hd hs IHhs]; intros st; [reflexivity|]. cbn. apply IHhs.
Qed.

Lemma insertAll_snoc hs ph :
  insertAll (hs ++ [ph]) = addHeading (fst ph) (insertAll hs) (snd ph).
Proof. unfold insertAll. by rewrite foldl_app. Qed.

(** The first pass makes one entry per heading, in order; the parent of
    an entry is the node the stack holds one level above, that is the
    open node of that level; and the stack holds, level by level, the
    open nodes. *)
Lemma insertAll_inv hs :
  length (fst (insertAll hs)) = length hs /\
  (forall i info, fst (insertAll hs) !! i = Some info ->
     exists pg hd, hs !! i = Some (pg, hd) /\
       info = {| dict := newDict (text hd) pg;
                 info_level := level hd;
                 parentIndex := specParent (take i (levelsOf hs)) (level hd);
                 index := i |}) /\
  (forall k, (1 <= k)%Z ->
     stackGet (snd (insertAll hs)) (k - 1) = openNode (levelsOf hs) k).
Proof.
  induction hs as [|[pg hd] hs (Hlen & Hinfos & Hstack)] using rev_ind.
  - split; [reflexivity|]. split; [intros i info H; cbn in H; discriminate|].
    intros k Hk. apply stackGet_out. cbn. lia.
  - rewrite insertAll_snoc. cbn [fst snd].
    destruct (insertAll hs) as [infos stack] eqn:E. cbn [fst snd] in *.
    assert (Hlv : length (levelsOf hs) = length hs) by apply length_map.
    assert (Hsnoc : levelsOf (hs ++ [(pg, hd)]) = levelsOf hs ++ [level hd]).
    { unfold levelsOf. by rewrite map_app. }
    split; [|split].
    + rewrite addHeading_infos, !length_app. cbn. lia.
    + intros i info Hi. rewrite addHeading_infos in Hi.
      destruct (Nat.lt_ge_cases i (length infos)) as [Hlt|Hge].
      * rewrite lookup_app_l in Hi by lia.
        destruct (Hinfos i info Hi) as (pg' & hd' & Hh & ->).
        exists pg', hd'. split; [by rewrite lookup_app_l by lia|].
        rewrite Hsnoc, take_app_le by lia. reflexivity.
      * rewrite lookup_app_r in Hi by lia.
        destruct (i - length infos) as [|i'] eqn:Ei; [|by destruct i'].
        assert (i = length hs) as -> by lia.
        injection Hi as <-. exists pg, hd.
        split; [rewrite lookup_app_r by lia; by rewrite Nat.sub_diag|].
        rewrite Hsnoc, take_app_le, take_ge by lia.
        f_equal; [|lia]. unfold specParent.
        destruct (Z.ltb_spec 1 (level hd)); [|reflexivity].
        replace (level hd - 2)%Z with (level hd - 1 - 1)%Z by lia.
        rewrite Hstack by lia. reflexivity.
    + intros k Hk. rewrite addHeading_stack by lia.
      rewrite Hsnoc, openNode_snoc, Hstack by lia. rewrite Hlv, Hlen.
      destruct (Z.leb_spec (level hd) (k - 1)), (Z.eqb_spec (k - 1) (level hd - 1)),
        (Z.eqb_spec (level hd) k), (Z.ltb_spec (level hd) k); try lia; reflexivity.
Qed.

Lemma skeleton_insertAll hs i :
  skeleton (fst (insertAll hs)) !! i =
  (fun l => (l, specParent (take i (levelsOf hs)) l)) <$> (levelsOf hs !! i).
Proof.
  destruct (insertAll_inv hs) as (Hlen & Hinfos & _).
  unfold skeleton, levelsOf. change map with (@fmap list _).
  rewrite !list_lookup_fmap.
  destruct (fst (insertAll hs) !! i) as [info|] eqn:Hi.
  - destruct (Hinfos i info Hi) as (pg & hd & Hh & ->). rewrite Hh. reflexivity.
  - apply lookup_ge_None in Hi. rewrite lookup_ge_None_2 by lia. reflexivity.
Qed.

Lemma insertAll_parentsBefore hs : parentsBefore (skeleton (fst (insertAll hs))).
Proof.
  intros i l p Hi. rewrite skeleton_insertAll in Hi.
  destruct (levelsOf hs !! i) as [l'|] eqn:Hl; [|discriminate].
  cbn in Hi. injection Hi as -> <-. unfold specParent.
  destruct (1 <? l)%Z; [|by left].
  destruct (openNode (take i (levelsOf hs)) (l - 1)) as [j|] eqn:Hopen; [|by left].
  right. destruct (openNode_Some _ _ _ Hopen) as [Hj _].
  pose proof (lookup_lt_Some _ _ _ Hj) as Hlt. rewrite length_take in Hlt.
  rewrite lookup_take_lt in Hj by lia.
  split; [lia|]. rewrite Nat2Z.id, skeleton_insertAll, Hj. cbn. eauto.
Qed.

End FirstPassFacts.

(** ** The bookmark outline: second pass *)

Section SecondPassFacts.
Import PdfMerger.

Lemma skeleton_lookup infos k :
  skeleton infos !! k = (fun info => (info_level info, parentIndex info)) <$> infos !! k.
Proof. unfold skeleton. change map with (@fmap list _). apply list_lookup_fmap. Qed.

Lemma length_skeleton infos : length (skeleton infos) = length infos.
Proof. apply length_map. Qed.

Lemma setDict_dict info : setDict info (dict info) = info.
Proof. by destruct info. Qed.

Lemma mapDicts_id infos : mapDicts (fun _ d => d) infos = infos.
Proof.
  unfold mapDicts. apply list_eq. intros k. rewrite list_lookup_imap.
  destruct (infos !! k) as [info|]; [|reflexivity]. cbn. by rewrite setDict_dict.
Qed.

Lemma mapDicts_ext f g infos :
  (forall k info, infos !! k = Some info -> f k (dict info) = g k (dict info)) ->
  mapDicts f infos = mapDicts g infos.
Proof.
  intros H. unfold mapDicts. apply imap_ext. intros k info Hk. cbn.
  by rewrite (H k info Hk).
Qed.

Lemma lookup_mapDicts f infos k :
  mapDicts f infos !! k = (fun info => setDict info (f k (dict info))) <$> infos !! k.
Proof. unfold mapDicts. apply list_lookup_imap. Qed.

Lemma length_mapDicts f infos : length (mapDicts f infos) = length infos.
Proof. unfold mapDicts. apply length_imap. Qed.

Lemma skeleton_mapDicts f infos : skeleton (mapDicts f infos) = skeleton infos.
Proof.
  apply list_eq. intros k. rewrite !skeleton_lookup, lookup_mapDicts.
  destruct (infos !! k); reflexivity.
Qed.

Lemma mapDicts_mapDicts f g infos :
  mapDicts f (mapDicts g infos) = mapDicts (fun k d => f k (g k d)) infos.
Proof.
  apply list_eq. intros k. rewrite !lookup_mapDicts.
  destruct (infos !! k); reflexivity.
Qed.

(** A write into the dictionary of entry [k]. *)
Lemma updateDict_mapDicts f infos k g info :
  infos !! k = Some info ->
  updateDict (mapDicts f infos) k g
    = Some (mapDicts (fun j d => if (j =? k)%nat then g (f j d) else f j d) infos).
Proof.
  intros Hk. unfold updateDict. rewrite lookup_mapDicts, Hk. cbn. f_equal.
  apply list_eq. intros j.
  rewrite list_lookup_insert, length_mapDicts, !lookup_mapDicts.
  pose proof (lookup_lt_Some _ _ _ Hk).
  case_decide as Hd.
  - destruct Hd as [<- _]. rewrite Hk, Nat.eqb_refl. reflexivity.
  - destruct (Nat.eqb_spec j k) as [->|]; [exfalso; apply Hd; split; [reflexivity|lia]|].
    reflexivity.
Qed.

Lemma updateDict_plain infos k g info :
  infos !! k = Some info ->
  updateDict infos k g
    = Some (mapDicts (fun j d => if (j =? k)%nat then g d else d) infos).
Proof.
  intros Hk. pose proof (updateDict_mapDicts (fun _ d => d) infos k g info Hk) as E.
  by rewrite mapDicts_id in E.
Qed.

Lemma findPrevious_skeleton infos lvl parent n :
  findPrevious infos lvl parent n = previousSame (skeleton infos) lvl parent n.
Proof.
  induction n as [|j IH]; [reflexivity|]. cbn. rewrite skeleton_lookup.
  destruct (infos !! j) as [c|]; [|reflexivity]. cbn. by rewrite IH.
Qed.

(** The previous entry with the same level and parent: it comes before,
    has the same key, and no entry in between has. *)
Lemma previousSame_Some sk lvl parent n j :
  previousSame sk lvl parent n = Some j ->
  j < n /\ sk !! j = Some (lvl, parent) /\
  forall m, j < m < n -> sk !! m <> Some (lvl, parent).
Proof.
  induction n as [|n IH]; [discriminate|]. cbn.
  destruct (sk !! n) as [[l p]|] eqn:Hn; [|discriminate].
  destruct (Z.eqb_spec l lvl) as [->|Hl]; cbn.
  - destruct (Z.eqb_spec p parent) as [->|Hp].
    + intros [= <-]. split; [lia|]. split; [exact Hn|]. intros m Hm. lia.
    + intros H. destruct (IH H) as (Hlt & Hj & Hbetween).
      split; [lia|]. split; [exact Hj|]. intros m Hm.
      destruct (decide (m = n)) as [->|]; [congruence|]. apply Hbetween. lia.
  - intros H. destruct (IH H) as (Hlt & Hj & Hbetween).
    split; [lia|]. split; [exact Hj|]. intros m Hm.
    destruct (decide (m = n)) as [->|]; [congruence|]. apply Hbetween. lia.
Qed.

Lemma previousSame_None sk lvl parent n :
  n <= length sk ->
  previousSame sk lvl parent n = None ->
  forall m, m < n -> sk !! m <> Some (lvl, parent).
Proof.
  intros Hn. induction n as [|n IH]; [intros _ m Hm; lia|]. cbn.
  destruct (sk !! n) as [[l p]|] eqn:Hsk.
  2:{ apply lookup_ge_None in Hsk. lia. }
  destruct (Z.eqb_spec l lvl) as [->|Hl]; cbn.
  - destruct (Z.eqb_spec p parent) as [->|Hp]; [discriminate|].
    intros H m Hm. destruct (decide (m = n)) as [->|]; [congruence|].
    apply IH; [lia|exact H|lia].
  - intros H m Hm. destruct (decide (m = n)) as [->|]; [congruence|].
    apply IH; [lia|exact H|lia].
Qed.

(** One iteration of the second pass, entry by entry. *)
Lemma linkOne_mapDicts infos i :
  i < length infos -> parentsBefore (skeleton infos) ->
  linkOne infos i = Some (mapDicts (linkDict (skeleton infos) i) infos).
Proof.
  intros Hi Hsk. destruct (lookup_lt_is_Some_2 infos i Hi) as [info Hinfo].
  assert (Hski : skeleton infos !! i = Some (info_level info, parentIndex info)).
  { by rewrite skeleton_lookup, Hinfo. }
  unfold linkOne, ref. rewrite Hinfo. cbn [mbind option_bind].
  match goal with
  | |- ?first ≫= _ = _ =>
      assert (Hfirst : exists f, first = Some (mapDicts f infos) /\
    forall k x, infos !! k = Some x ->
      f k (dict x) =
      if (0 <=? parentIndex info)%Z then
        let d' := if (k =? i)%nat then setParent None (dict x) else dict x in
        if (k =? Z.to_nat (parentIndex info))%nat then
          let d'' := if First d' is Some _ then d' else setFirst None d' in
          setCount (getCount d'' + 1) (setLast None d'')
        else d'
      else dict x)
  end.
  { destruct (Z.leb_spec 0 (parentIndex info)) as [Hp|Hp].
    2:{ exists (fun _ d => d). by rewrite mapDicts_id. }
    destruct (Hsk i _ _ Hski) as [Hneg|[Hrange [q Hq]]]; [lia|].
    set (p := Z.to_nat (parentIndex info)) in *.
    rewrite skeleton_lookup in Hq.
    destruct (infos !! p) as [pinfo|] eqn:Hpinfo; [|discriminate].
    cbv zeta. cbn [mbind option_bind].
    rewrite (updateDict_plain _ _ _ _ Hinfo). cbn [mbind option_bind].
    rewrite lookup_mapDicts, Hpinfo. cbn [fmap option_fmap option_map mbind option_bind dict setDict].
    destruct (First (if (p =? i)%nat then setParent None (dict pinfo) else dict pinfo))
      as [c|] eqn:HF.
    - cbn [mbind option_bind].
      rewrite (updateDict_mapDicts _ _ _ _ _ Hpinfo). cbn [mbind option_bind].
      rewrite lookup_mapDicts, Hpinfo.
      cbn [fmap option_fmap option_map mbind option_bind dict setDict].
      rewrite (updateDict_mapDicts _ _ _ _ _ Hpinfo).
      eexists. split; [reflexivity|]. intros k x Hx. cbn beta.
      destruct (Nat.eqb_spec k p) as [->|]; [|reflexivity].
      rewrite Hpinfo in Hx. injection Hx as <-. rewrite Nat.eqb_refl, HF.
      reflexivity.
    - cbn [mbind option_bind].
      rewrite (updateDict_mapDicts _ _ _ _ _ Hpinfo). cbn [mbind option_bind].
      rewrite (updateDict_mapDicts _ _ _ _ _ Hpinfo). cbn [mbind option_bind].
      rewrite lookup_mapDicts, Hpinfo.
      cbn [fmap option_fmap option_map mbind option_bind dict setDict].
      rewrite (updateDict_mapDicts _ _ _ _ _ Hpinfo).
      eexists. split; [reflexivity|]. intros k x Hx. cbn beta.
      destruct (Nat.eqb_spec k p) as [->|]; [|reflexivity].
      rewrite Hpinfo in Hx. injection Hx as <-. rewrite !Nat.eqb_refl, HF.
      reflexivity. }
  destruct Hfirst as (f & -> & Hf). cbn [mbind option_bind].
  rewrite findPrevious_skeleton, skeleton_mapDicts.
  assert (Hprev : previousOf (skeleton infos) i
                  = if (0 <? i)%nat
                    then previousSame (skeleton infos) (info_level info)
                           (parentIndex info) i
                    else None).
  { unfold previousOf. by rewrite Hski. }
  assert (Hgoal : forall k x, infos !! k = Some x ->
            linkDict (skeleton infos) i k (dict x)
            = match previousOf (skeleton infos) i with
              | Some j =>
                  let d2 := if (k =? i)%nat then setPrev None (f k (dict x))
                            else f k (dict x) in
                  if (k =? j)%nat then setNext None d2 else d2
              | None => f k (dict x)
              end).
  { intros k x Hx. unfold linkDict. rewrite Hski, (Hf k x Hx).
    destruct (0 <=? parentIndex info)%Z; reflexivity. }
  rewrite Hprev in Hgoal.
  destruct (0 <? i)%nat.
  2:{ f_equal. apply mapDicts_ext. intros k x Hx. by rewrite (Hgoal k x Hx). }
  destruct (previousSame (skeleton infos) (info_level info) (parentIndex info) i)
    as [j|] eqn:Hj.
  2:{ f_equal. apply mapDicts_ext. intros k x Hx. by rewrite (Hgoal k x Hx). }
  destruct (previousSame_Some _ _ _ _ _ Hj) as (Hlt & Hskj & _).
  rewrite skeleton_lookup in Hskj.
  destruct (infos !! j) as [jinfo|] eqn:Hjinfo; [|discriminate].
  rewrite lookup_mapDicts, Hjinfo. cbn [fmap option_fmap option_map mbind option_bind].
  rewrite (updateDict_mapDicts _ _ _ _ _ Hinfo). cbn [mbind option_bind].
  rewrite (updateDict_mapDicts _ _ _ _ _ Hjinfo).
  f_equal. apply mapDicts_ext. intros k x Hx. by rewrite (Hgoal k x Hx).
Qed.
End SecondPassFacts.

Ltac dict_simpl :=
  unfold PdfMerger.setParent, PdfMerger.setFirst, PdfMerger.setLast,
    PdfMerger.setCount, PdfMerger.setPrev, PdfMerger.setNext, PdfMerger.getCount;
  cbn [PdfMerger.Parent PdfMerger.First PdfMerger.Last PdfMerger.Count
       PdfMerger.Prev PdfMerger.Next PdfMerger.Title PdfMerger.Dest default
       from_option].

Section LinkedDictFacts.
Import PdfMerger.

Lemma linkedDict_S sk m k d :
  linkedDict sk (S m) k d = linkDict sk m k (linkedDict sk m k d).
Proof. unfold linkedDict. by rewrite seq_S, foldl_app. Qed.

Lemma linkFrom_mapDicts infos0 n : forall i,
  parentsBefore (skeleton infos0) -> i + n <= length infos0 ->
  linkFrom n i (mapDicts (linkedDict (skeleton infos0) i) infos0)
    = Some (mapDicts (linkedDict (skeleton infos0) (i + n)) infos0).
Proof.
  induction n as [|n IH]; intros i Hsk Hlen.
  - by rewrite Nat.add_0_r.
  - cbn [linkFrom].
    rewrite linkOne_mapDicts;
      [|rewrite length_mapDicts; lia|by rewrite skeleton_mapDicts].
    cbn [mbind option_bind]. rewrite skeleton_mapDicts, mapDicts_mapDicts.
    rewrite (mapDicts_ext _ (linkedDict (skeleton infos0) (S i))).
    2:{ intros k info _. by rewrite linkedDict_S. }
    rewrite IH; [|exact Hsk|lia]. do 3 f_equal. lia.
Qed.

(** The second pass never meets an index out of range, and its result is
    known entry by entry. *)
Lemma secondPass_mapDicts infos0 :
  parentsBefore (skeleton infos0) ->
  secondPass infos0
    = Some (mapDicts (linkedDict (skeleton infos0) (length infos0)) infos0).
Proof.
  intros Hsk. unfold secondPass.
  rewrite <- (mapDicts_id infos0) at 2.
  apply (linkFrom_mapDicts infos0 (length infos0) 0 Hsk). lia.
Qed.

Variable sk : list (Z * Z).

Lemma isChildOf_spec k i :
  isChildOf sk k i = true <-> exists l, sk !! i = Some (l, Z.of_nat k).
Proof.
  unfold isChildOf. destruct (sk !! i) as [[l p]|]; [|split; [discriminate|intros [? [=]]]].
  destruct (Z.eqb_spec p (Z.of_nat k)) as [->|Hne].
  - split; eauto.
  - split; [discriminate|]. intros [l' [= _ ?]]. contradiction.
Qed.

(** What one iteration changes in each field. *)
Lemma linkDict_getCount i k d :
  getCount (linkDict sk i k d)
    = if isChildOf sk k i then getCount d + 1 else getCount d.
Proof.
  unfold linkDict, isChildOf. destruct (sk !! i) as [[l p]|]; [|reflexivity].
  destruct (Z.leb_spec 0 p), (Z.eqb_spec p (Z.of_nat k)),
    (Nat.eqb_spec k (Z.to_nat p)); try lia;
    destruct (previousOf sk i) as [j|]; cbv zeta;
    destruct (k =? i)%nat; try destruct (k =? j)%nat;
    destruct (First d) eqn:E; dict_simpl; rewrite ?E; reflexivity.
Qed.

Lemma linkDict_Count i k d :
  Count (linkDict sk i k d)
    = if isChildOf sk k i then Some (getCount d + 1) else Count d.
Proof.
  unfold linkDict, isChildOf. destruct (sk !! i) as [[l p]|]; [|reflexivity].
  destruct (Z.leb_spec 0 p), (Z.eqb_spec p (Z.of_nat k)),
    (Nat.eqb_spec k (Z.to_nat p)); try lia;
    destruct (previousOf sk i) as [j|]; cbv zeta;
    destruct (k =? i)%nat; try destruct (k =? j)%nat;
    destruct (First d) eqn:E; dict_simpl; rewrite ?E; reflexivity.
Qed.

(** No iteration writes a reference. *)
Lemma linkDict_references i k d :
  Parent d = None -> First d = None -> Last d = None ->
  Prev d = None -> Next d = None ->
  Parent (linkDict sk i k d) = None /\ First (linkDict sk i k d) = None /\
  Last (linkDict sk i k d) = None /\ Prev (linkDict sk i k d) = None /\
  Next (linkDict sk i k d) = None.
Proof.
  intros HP HF HL HPr HN.
  unfold linkDict. destruct (sk !! i) as [[l p]|]; [|auto].
  destruct (previousOf sk i) as [j|];
    destruct (0 <=? p)%Z; cbv zeta;
    destruct (k =? i)%nat; try destruct (k =? j)%nat;
    try destruct (k =? Z.to_nat p)%nat;
    dict_simpl; rewrite ?HF; dict_simpl; auto.
Qed.

(** The fields after [m] iterations. *)
Lemma linkedDict_getCount m k d :
  Count d = None ->
  getCount (linkedDict sk m k d)
    = length (filter (fun c => isChildOf sk k c = true) (seq 0 m)).
Proof.
  intros Hd. induction m as [|m IH]; [unfold getCount; cbn; by rewrite Hd|].
  rewrite linkedDict_S, linkDict_getCount, IH, seq_S, filter_app, length_app.
  cbn [Nat.add]. rewrite filter_cons, filter_nil.
  destruct (isChildOf sk k m); case_decide; try congruence; cbn; lia.
Qed.

Lemma linkedDict_Count m k d :
  Count d = None ->
  Count (linkedDict sk m k d)
    = match filter (fun c => isChildOf sk k c = true) (seq 0 m) with
      | [] => None
      | children => Some (length children)
      end.
Proof.
  intros Hd. induction m as [|m IH]; [exact Hd|].
  rewrite linkedDict_S, linkDict_Count, linkedDict_getCount, IH by exact Hd.
  rewrite seq_S, filter_app. cbn [Nat.add]. rewrite filter_cons, filter_nil.
  destruct (isChildOf sk k m); case_decide; try congruence.
  - destruct (filter _ (seq 0 m)) as [|c cs]; cbn; [reflexivity|].
    rewrite length_app. reflexivity.
  - by rewrite app_nil_r.
Qed.

Lemma linkedDict_references m k d :
  Parent d = None -> First d = None -> Last d = None ->
  Prev d = None -> Next d = None ->
  Parent (linkedDict sk m k d) = None /\ First (linkedDict sk m k d) = None /\
  Last (linkedDict sk m k d) = None /\ Prev (linkedDict sk m k d) = None /\
  Next (linkedDict sk m k d) = None.
Proof.
  intros HP HF HL HPr HN. induction m as [|m (H1 & H2 & H3 & H4 & H5)]; [auto|].
  rewrite linkedDict_S. by apply linkDict_references.
Qed.
End LinkedDictFacts.

Section HierarchyFacts.
Import PdfMerger.

Lemma linkDict_Title_Dest sk i k d :
  Title (linkDict sk i k d) = Title d /\ Dest (linkDict sk i k d) = Dest d.
Proof.
  unfold linkDict. destruct (sk !! i) as [[l p]|]; [|auto].
  destruct (previousOf sk i) as [j|];
    destruct (0 <=? p)%Z; cbv zeta;
    destruct (k =? i)%nat; try destruct (k =? j)%nat;
    try destruct (k =? Z.to_nat p)%nat;
    destruct (First d) eqn:E; dict_simpl; rewrite ?E; auto.
Qed.

Lemma linkedDict_Title_Dest sk m k d :
  Title (linkedDict sk m k d) = Title d /\ Dest (linkedDict sk m k d) = Dest d.
Proof.
  induction m as [|m [IH1 IH2]]; [auto|].
  rewrite linkedDict_S. destruct (linkDict_Title_Dest sk m k (linkedDict sk m k d)).
  split; congruence.
Qed.

(** The result of [buildBookmarkHierarchy] on a flat sequence: the second
    pass never meets an index out of range, counts the children of every
    entry and leaves every reference entry without a value. *)
Lemma hierarchy_entries hs :
  let infos0 := fst (insertAll hs) in
  let sk := skeleton infos0 in
  let infos := mapDicts (linkedDict sk (length infos0)) infos0 in
  secondPass infos0 = Some infos /\
  skeleton infos = sk /\ length sk = length hs /\ length infos = length hs /\
  forall k info, infos !! k = Some info ->
    exists pg hd,
      hs !! k = Some (pg, hd) /\
      info_level info = level hd /\ index info = k /\
      parentIndex info = specParent (take k (levelsOf hs)) (level hd) /\
      Title (dict info) = text hd /\ Dest (dict info) = pg /\
      getCount (dict info) = length (childrenOf sk k) /\
      Count (dict info) = match childrenOf sk k with
                          | [] => None
                          | children => Some (length children)
                          end /\
      Parent (dict info) = None /\ First (dict info) = None /\
      Last (dict info) = None /\ Prev (dict info) = None /\
      Next (dict info) = None.
Proof.
  intros infos0 sk infos.
  destruct (insertAll_inv hs) as (Hlen & Hinfos & _). fold infos0 in Hlen, Hinfos.
  assert (Hsklen : length sk = length hs).
  { unfold sk. by rewrite length_skeleton. }
  split; [apply secondPass_mapDicts, insertAll_parentsBefore|].
  split; [apply skeleton_mapDicts|]. split; [exact Hsklen|].
  split; [unfold infos; by rewrite length_mapDicts|].
  intros k info Hk. unfold infos in Hk. rewrite lookup_mapDicts in Hk.
  destruct (infos0 !! k) as [info0|] eqn:Hk0; [|discriminate].
  cbn in Hk. injection Hk as <-.
  destruct (Hinfos k info0 Hk0) as (pg & hd & Hh & ->).
  exists pg, hd. cbn [info_level index parentIndex setDict dict].
  destruct (linkedDict_Title_Dest sk (length infos0) k (newDict (text hd) pg)) as [-> ->].
  rewrite linkedDict_getCount, linkedDict_Count by reflexivity.
  unfold childrenOf. rewrite Hsklen, Hlen.
  repeat (split; [reflexivity || assumption|]).
  by apply linkedDict_references.
Qed.
End HierarchyFacts.

(** C2 fails on the code.  The first pass gives every heading the parent
    index that the claim describes, but the second pass links nothing: the
    value it writes into the reference entries is [dict.ref], and the
    dictionaries have no [ref].  On the three sample pages chapter "One" has
    the two children "One.A" and "One.B" and counts them, yet no entry holds
    a [First], [Next], [Prev], [Last] or [Parent]: the children of "One"
    cannot be reached from it, and "One.B", which is not a first child, has
    no [Prev]. *)
Theorem bookmark_links_undefined :
  exists infos roots,
    PdfMerger.buildBookmarkHierarchy samplePages sampleMetadata = Some (infos, roots) /\
    map PdfMerger.info_level infos = [1; 2; 2; 3; 1; 2]%Z /\
    map PdfMerger.parentIndex infos = [-1; 0; 0; 2; -1; 4]%Z /\
    childrenOf (skeleton infos) 0 = [1; 2] /\
    map (fun info => PdfMerger.Count (PdfMerger.dict info)) infos
      = [Some 2; None; Some 1; None; Some 1; None] /\
    Forall (fun info =>
              PdfMerger.First (PdfMerger.dict info) = None /\
              PdfMerger.Next (PdfMerger.dict info) = None /\
              PdfMerger.Prev (PdfMerger.dict info) = None /\
              PdfMerger.Last (PdfMerger.dict info) = None /\
              PdfMerger.Parent (PdfMerger.dict info) = None) infos.
Proof.
  eexists _, _. split; [vm_compute; reflexivity|].
  split; [reflexivity|]. split; [reflexivity|]. split; [reflexivity|].
  split; [reflexivity|]. repeat constructor.
Qed.

(** ** Runs on sample inputs *)

(** The end-to-end scenario of two pages with one level-1 heading each:
    two roots without children, and no link between them. *)
Example outline_of_two_pages :
  PdfMerger.buildBookmarkHierarchy [7; 8]
    [ {| path := "tmp/0.pdf"; headings := Some [h 1 "A"]; url := "a"; pageIndex := 0 |};
      {| path := "tmp/1.pdf"; headings := Some [h 1 "B"]; url := "b"; pageIndex := 1 |} ]
  = Some
      ([ {| PdfMerger.dict :=
              {| PdfMerger.Title := "A"; PdfMerger.Dest := 7; PdfMerger.Parent := None;
                 PdfMerger.First := None; PdfMerger.Last := None;
                 PdfMerger.Prev := None; PdfMerger.Next := None;
                 PdfMerger.Count := None |};
            PdfMerger.info_level := 1; PdfMerger.parentIndex := -1;
            PdfMerger.index := 0 |};
         {| PdfMerger.dict :=
              {| PdfMerger.Title := "B"; PdfMerger.Dest := 8; PdfMerger.Parent := None;
                 PdfMerger.First := None; PdfMerger.Last := None;
                 PdfMerger.Prev := None; PdfMerger.Next := None;
                 PdfMerger.Count := None |};
            PdfMerger.info_level := 1; PdfMerger.parentIndex := -1;
            PdfMerger.index := 1 |} ],
       [ {| PdfMerger.Title := "A"; PdfMerger.Dest := 7; PdfMerger.Parent := None;
            PdfMerger.First := None; PdfMerger.Last := None;
            PdfMerger.Prev := None; PdfMerger.Next := None;
            PdfMerger.Count := None |};
         {| PdfMerger.Title := "B"; PdfMerger.Dest := 8; PdfMerger.Parent := None;
            PdfMerger.First := None; PdfMerger.Last := None;
            PdfMerger.Prev := None; PdfMerger.Next := None;
            PdfMerger.Count := None |} ]).
Proof. reflexivity. Qed.

(** A heading two levels below its predecessor finds no node one level
    above and becomes a root. *)
Example outline_skipped_level :
  map PdfMerger.parentIndex
    (fst (insertAll [(0, h 1 "A"); (0, h 3 "deep"); (0, h 2 "B"); (0, h 3 "C")]))
  = [-1; -1; 0; 2]%Z.
Proof. reflexivity. Qed.

(** Of three pages, a listing page and a page that does not load are left
    out; the third gets page index 0. *)
Example exportPages_of_three :
  let site := fun u : string =>
    if String.eqb u "list" then contentPage 4 4 (Some 300)
    else if String.eqb u "down"
         then {| pv_goto := Throws timeoutError; pv_addStyleTag := Returns tt;
                 pv_styleSettle := Returns tt; pv_replaceLinks := Returns tt;
                 pv_docCardListItemCount := Returns 0; pv_pageContentCount := Returns 2;
                 pv_headings := Returns []; pv_skipToContent := Returns (Some 10);
                 pv_pdf := Returns tt |}
         else contentPage 0 2 (Some 740) in
  PdfExporter.exportPages site ["list"; "down"; "page"]%string "tmp" None
  = ([ Logged Info "Exporting page: list"; PageGoto "list"; Logged Debug "Page loaded: list";
       AddStyleTag; PageWait 200; CountLocator; CountLocator;
       Logged Warn "Skipping export for list (documentation list page)";
       Logged Info "Exporting page: down"; PageGoto "down";
       Logged Warn "Failed to export page 1 (down):";
       Logged Info "Exporting page: page"; PageGoto "page"; Logged Debug "Page loaded: page";
       AddStyleTag; PageWait 200; CountLocator; CountLocator; HeadingsEval; HeightEval;
       PagePdf "tmp/2.pdf" 800; Logged Info "Successfully exported: page" ],
     Returns [ {| path := "tmp/2.pdf"; headings := Some []; url := "page";
                  pageIndex := 0 |} ]).
Proof. reflexivity. Qed.

(** The default strategies are tried in order until one succeeds. *)
Example clickWithRetry_falls_back :
  SidebarExpander.clickWithRetryFrom
    (fun strategy => if String.eqb strategy "javascriptClick" then Returns tt
                     else Throws timeoutError)
    (strategies defaultConfig) 0 3
  = ([ ClickAttempt "click"; Logged Debug "Click strategy click failed, trying next...";
       ClickAttempt "forceClick";
       Logged Debug "Click strategy forceClick failed, trying next...";
       ClickAttempt "javascriptClick" ],
     Returns tt).
Proof. reflexivity. Qed.

(** With a base URL the links are rewritten, right after the styles. *)
Example exportPage_with_base_url :
  trace (PdfExporter.exportPage (fun _ => contentPage 0 2 (Some 740)) "page" "tmp/0.pdf"
           (Some "http://localhost:3000"%string))
  = [ Logged Info "Exporting page: page"; PageGoto "page"; Logged Debug "Page loaded: page";
      AddStyleTag; PageWait 200; ReplaceLinksEval "http://localhost:3000";
      CountLocator; CountLocator; HeadingsEval; HeightEval;
      PagePdf "tmp/0.pdf" 800; Logged Info "Successfully exported: page" ].
Proof. reflexivity. Qed.

(** One record object listed twice is written twice: it is left with the
    offset of its second copy. *)
Example merge_same_object_twice :
  let result := PdfMerger.merge sampleDisk (storeOf sampleFiles) (Some [0; 0]) "out.pdf" in
  WriteOutput "out.pdf" (map Copied [10; 11; 12; 10; 11; 12]) ∈ trace (fst result) /\
  pageIndex (snd result 0) = 3.
Proof. split; [|reflexivity]. apply list_elem_of_In. cbn. auto 10. Qed.

(** When the only listed artifact cannot be read, nothing is copied, the
    call returns all the same, and the file written holds the blank page
    that saving adds to a document without pages. *)
Example merge_unreadable_artifact :
  let result := PdfMerger.merge sampleDisk (storeOf sampleFiles) (Some [1]) "out.pdf" in
  completion (fst result) = Returns "out.pdf"%string /\
  writesOf (trace (fst result)) = [("out.pdf"%string, [Blank])] /\
  pageIndex (snd result 1) = pageIndex (storeOf sampleFiles 1).
Proof. repeat split. Qed.

(** * Further properties *)

(** ** SidebarExpander.clickWithRetry *)

Lemma clicksOf_app t1 t2 : clicksOf (t1 ++ t2) = clicksOf t1 ++ clicksOf t2.
Proof. apply omap_app. Qed.

Lemma gotosOf_app t1 t2 : gotosOf (t1 ++ t2) = gotosOf t1 ++ gotosOf t2.
Proof. apply omap_app. Qed.

Lemma loadsOf_app t1 t2 : loadsOf (t1 ++ t2) = loadsOf t1 ++ loadsOf t2.
Proof. apply omap_app. Qed.

Section ClickWithRetryFacts.
Import SidebarExpander.
Variable click : string -> Outcome unit.

(** One turn of the loop: a strategy without a case does nothing; one with
    a case is attempted, and its failure is thrown only from the last
    position. *)
Lemma clickWithRetryFrom_cons strategy rest level index :
  clickWithRetryFrom click (strategy :: rest) level index =
  if knownStrategy strategy then
    match click strategy with
    | Returns _ => ([ClickAttempt strategy], Returns tt)
    | Throws e =>
        match rest with
        | [] =>
            ([ClickAttempt strategy;
              Logged Warn ("All click strategies failed for level "
                             +:+ string_of_nat (level + 1) +:+ ", index "
                             +:+ string_of_nat index +:+ ":")],
             Throws e)
        | _ :: _ =>
            bind ([ClickAttempt strategy;
                   Logged Debug ("Click strategy " +:+ strategy
                                   +:+ " failed, trying next...")],
                  Returns tt)
                 (fun _ => clickWithRetryFrom click rest level index)
        end
    end
  else clickWithRetryFrom click rest level index.
Proof.
  cbn [clickWithRetryFrom]. unfold knownStrategy.
  destruct (String.eqb strategy "click");
    [|destruct (String.eqb strategy "forceClick");
      [|destruct (String.eqb strategy "javascriptClick")]];
    cbn [orb];
    try (destruct (click strategy) as [[]|e]; [reflexivity|];
         destruct rest; cbn; [reflexivity|];
         destruct (clickWithRetryFrom click _ level index); reflexivity).
  cbn. destruct (clickWithRetryFrom click rest level index). reflexivity.
Qed.

(** X1.  [clickWithRetry] throws exactly when no strategy with a case
    succeeds and the last strategy of the list has a case: it then throws
    the error of that last strategy.  In every other situation (a strategy
    succeeds, the list is empty, or the last name has no case) it returns
    normally. *)
Theorem clickWithRetry_throws_iff (strategies : list string) (level index : nat)
    (e : JsError) :
  completion (clickWithRetryFrom click strategies level index) = Throws e
  <-> (forall s, s ∈ strategies -> knownStrategy s = true -> click s <> Returns tt) /\
      exists s, last strategies = Some s /\ knownStrategy s = true /\ click s = Throws e.
Proof.
  induction strategies as [|strategy rest IH].
  - cbn. split; [discriminate|]. intros (_ & s & [=] & _).
  - rewrite clickWithRetryFrom_cons.
    destruct (knownStrategy strategy) eqn:Hk.
    + destruct (click strategy) as [[]|e'] eqn:Hc.
      * cbn. split; [discriminate|]. intros (Hall & _).
        exfalso. apply (Hall strategy); [by left|exact Hk|exact Hc].
      * destruct rest as [|s2 rest'].
        -- cbn. split.
           ++ intros [= ->]. split.
              ** intros s Hs _. apply list_elem_of_singleton in Hs as ->. congruence.
              ** exists strategy. auto.
           ++ intros (_ & s & [= <-] & _ & Hs). congruence.
        -- rewrite completion_bind. cbn [completion snd]. rewrite IH.
           rewrite last_cons_cons. split.
           ++ intros (Hall & Hlast). split; [|exact Hlast].
              intros s Hs. apply elem_of_cons in Hs as [->|Hs]; [congruence|].
              by apply Hall.
           ++ intros (Hall & Hlast). split; [|exact Hlast].
              intros s Hs. apply Hall. by right.
    + rewrite IH. split.
      * intros (Hall & s & Hlast & Hks & Hs). split.
        -- intros s' Hs'. apply elem_of_cons in Hs' as [->|Hs']; [congruence|].
           by apply Hall.
        -- exists s. split; [|auto]. destruct rest; [discriminate|].
           by rewrite last_cons_cons.
      * intros (Hall & s & Hlast & Hks & Hs). split.
        -- intros s' Hs'. apply Hall. by right.
        -- exists s. split; [|auto]. destruct rest as [|s2 rest'].
           ++ cbn in Hlast. injection Hlast as <-. congruence.
           ++ by rewrite last_cons_cons in Hlast.
Qed.

Lemma clickWithRetryFrom_clicks (strategies : list string) (level index : nat) :
  clicksOf (trace (clickWithRetryFrom click strategies level index))
    = attemptedStrategies click strategies.
Proof.
  induction strategies as [|strategy rest IH]; [reflexivity|].
  rewrite clickWithRetryFrom_cons. cbn [attemptedStrategies].
  destruct (knownStrategy strategy); [|exact IH].
  destruct (click strategy) as [[]|e]; [reflexivity|].
  destruct rest as [|s2 rest']; [reflexivity|].
  rewrite trace_bind. cbn [completion snd trace fst].
  rewrite clicksOf_app, IH. reflexivity.
Qed.

(** X2.  The interactions that [clickWithRetry] makes are those of the
    strategies with a case, in the order of the list, up to the first one
    that succeeds: every attempt but the last has failed. *)
Theorem clickWithRetry_attempts (strategies : list string) (level index : nat) :
  clicksOf (trace (clickWithRetryFrom click strategies level index))
    = attemptedStrategies click strategies /\
  (forall i s, attemptedStrategies click strategies !! i = Some s ->
     s ∈ strategies /\ knownStrategy s = true /\
     (S i < length (attemptedStrategies click strategies) -> click s <> Returns tt)).
Proof.
  split; [apply clickWithRetryFrom_clicks|].
  induction strategies as [|strategy rest IH]; intros i s Hi; [discriminate|].
  cbn [attemptedStrategies] in *.
  destruct (knownStrategy strategy) eqn:Hk.
  - destruct i as [|i].
    + injection Hi as <-. split; [by left|]. split; [exact Hk|].
      destruct (click strategy) as [[]|e]; [cbn; lia|discriminate].
    + cbn in Hi. destruct (click strategy) as [[]|e]; [discriminate|].
      destruct (IH i s Hi) as (Hin & Hks & Hfail).
      split; [by right|]. split; [exact Hks|]. cbn [length]. intros Hlt.
      apply Hfail. lia.
  - destruct (IH i s Hi) as (Hin & Hks & Hfail). split; [by right|]. auto.
Qed.
End ClickWithRetryFacts.

(** ** SidebarExpander: which items are clicked *)

Lemma clicksOf_bind {A B} (m : Run A) (f : A -> Run B) :
  clicksOf (trace (bind m f)) =
  clicksOf (trace m) ++ match completion m with
                        | Returns a => clicksOf (trace (f a))
                        | Throws _ => []
                        end.
Proof.
  rewrite trace_bind. destruct (completion m); [apply clicksOf_app|].
  by rewrite app_nil_r.
Qed.

Lemma clicksOf_tryCatch {A} (m : Run A) (h : JsError -> Run A) :
  clicksOf (trace (tryCatch m h)) =
  clicksOf (trace m) ++ match completion m with
                        | Returns _ => []
                        | Throws e => clicksOf (trace (h e))
                        end.
Proof.
  rewrite trace_tryCatch. destruct (completion m); [by rewrite app_nil_r|].
  apply clicksOf_app.
Qed.

Section ExpandItemFacts.
Import SidebarExpander.
Variable config : Config.

Lemma ensureVisible_no_click view : clicksOf (trace (ensureVisible view)) = [].
Proof.
  unfold ensureVisible.
  destruct (iv_visible view) as [[]|?], (iv_scroll view) as [[]|?],
    (iv_scrollSettle view) as [[]|?], (iv_visibleAfter view) as [?|?]; reflexivity.
Qed.

(** X3.  What [expandSubSidebar] does with one item.  An item whose class
    marks it as expanded is not clicked: only the items below it are
    processed.  An item that cannot be made visible is neither clicked nor
    looked into.  An item all of whose click strategies fail is not looked
    into either.  Otherwise the item is clicked by [clickWithRetry] and,
    once the animation wait is over, the items below it are processed. *)
Theorem expandItem_clicks (level i : nat) (view : ItemView)
    (subItems other : Outcome (list NavItem)) :
  let itemClass := match iv_class view with Returns c => c | Throws _ => Some ""%string end in
  let run := expandItem config level i (Item view subItems) in
  let below := clicksOf (trace (expandSubSidebar config subItems (S level))) in
  completion run = Returns tt /\
  if isActive itemClass then clicksOf (trace run) = below
  else
    match completion (ensureVisible view) with
    | Returns true =>
        match completion (clickWithRetry config view level i) with
        | Returns _ =>
            clicksOf (trace run)
              = attemptedStrategies (iv_click view) (strategies config)
                ++ match iv_animationWait view with
                   | Returns _ => below
                   | Throws _ => []
                   end
        | Throws _ =>
            clicksOf (trace run) = attemptedStrategies (iv_click view) (strategies config) /\
            run = expandItem config level i (Item view other)
        end
    | _ =>
        clicksOf (trace run) = [] /\
        run = expandItem config level i (Item view other)
    end.
Proof.
  intros itemClass run below. split; [apply expandItem_returns|].
  subst run below itemClass. rewrite !expandItem_unfold.
  pose proof (ensureVisible_no_click view) as Hvis.
  pose proof (clickWithRetryFrom_clicks (iv_click view) (strategies config) level i) as Hclick.
  fold (clickWithRetry config view level i) in Hclick.
  pose proof (expandSubSidebar_returns config subItems (S level)) as Hb.
  destruct (ensureVisible view) as [tv ov].
  destruct (clickWithRetry config view level i) as [tc oc].
  destruct (expandSubSidebar config subItems (S level)) as [tb ob].
  destruct (expandSubSidebar config other (S level)) as [tb' ob'].
  cbn [trace completion fst snd] in Hvis, Hclick, Hb. subst ob.
  rewrite <- Hclick.
  destruct (iv_class view) as [c|?]; cbn [orElse tryCatch perform ret bind];
    (destruct (isActive _);
     [cbn; rewrite ?app_nil_r; reflexivity|]);
    destruct (iv_clickableCount view), ov as [[]|?], oc as [[]|?],
      (iv_animationWait view) as [[]|?];
    cbn [orElse tryCatch perform ret bind warn trace completion fst snd];
    rewrite ?app_nil_r, ?clicksOf_app, ?Hvis, ?app_nil_r; cbn; rewrite ?app_nil_r;
    auto.
Qed.

(** X4.  At the top level the answer of [ensureVisible] is not looked at:
    an item that is not marked as expanded is clicked whether or not it
    could be made visible, unlike the items below it.  Only a rejected
    wait inside [ensureVisible] keeps the item from being clicked. *)
Theorem expandTopItem_clicks (i : nat) (view : ItemView)
    (subItems : Outcome (list NavItem)) :
  let itemClass := match iv_class view with Returns c => c | Throws _ => Some ""%string end in
  let run := expandTopItem config i (Item view subItems) in
  let below := clicksOf (trace (expandSubSidebar config subItems 1)) in
  completion run = Returns tt /\
  if isActive itemClass then clicksOf (trace run) = below
  else
    match completion (ensureVisible view) with
    | Returns _ =>
        clicksOf (trace run)
          = attemptedStrategies (iv_click view) (strategies config)
            ++ match completion (clickWithRetry config view 0 i), iv_animationWait view with
               | Returns _, Returns _ => below
               | _, _ => []
               end
    | Throws _ => clicksOf (trace run) = []
    end.
Proof.
  intros itemClass run below. split; [apply completion_catch_warn|].
  subst run below itemClass. unfold expandTopItem.
  pose proof (ensureVisible_no_click view) as Hvis.
  pose proof (clickWithRetryFrom_clicks (iv_click view) (strategies config) 0 i) as Hclick.
  fold (clickWithRetry config view 0 i) in Hclick.
  pose proof (expandSubSidebar_returns config subItems 1) as Hb.
  destruct (ensureVisible view) as [tv ov].
  destruct (clickWithRetry config view 0 i) as [tc oc].
  destruct (expandSubSidebar config subItems 1) as [tb ob].
  cbn [trace completion fst snd] in Hvis, Hclick, Hb. subst ob.
  rewrite <- Hclick.
  destruct (iv_class view) as [c|?]; cbn [orElse tryCatch perform ret bind debug];
    (destruct (isActive _);
     [cbn; rewrite ?app_nil_r; reflexivity|]);
    destruct (iv_clickableCount view), ov as [[]|?], oc as [[]|?],
      (iv_animationWait view) as [[]|?];
    cbn [orElse tryCatch perform ret bind warn trace completion fst snd];
    rewrite ?app_nil_r, ?clicksOf_app, ?Hvis, ?app_nil_r; cbn; rewrite ?app_nil_r;
    auto.
Qed.

(** X5.  [expandAll] returns exactly when the top-level items can be
    counted and the last wait resolves: a failed bulk expansion, before or
    after the manual pass, and every failure at or below a top-level item
    leave its outcome unchanged. *)
Theorem expandAll_returns_iff (sb : Sidebar) :
  completion (expandAll config sb) = Returns tt <->
  (exists items, sb_level1 sb = Returns items) /\ sb_finalWait sb = Returns tt.
Proof.
  rewrite expandAll_completion. destruct (sb_level1 sb) as [items|e].
  - split; [intros ->; eauto|intros [_ H]; exact H].
  - split; [discriminate|intros [[items H] _]; discriminate].
Qed.

(** X24.  The bulk expansion never throws: it answers [true] when both the
    evaluation of its script and the wait after it resolve, and [false]
    otherwise.  [expandAll] does not use the answer: in every run the manual
    pass follows the first bulk pass, whether that one succeeded or not. *)
Theorem expandAll_always_runs_manual_pass (sb : Sidebar) :
  (forall eval settle,
     completion (expandAllWithJavaScript config eval settle)
       = Returns match eval, settle with
                 | Returns _, Returns _ => true
                 | _, _ => false
                 end) /\
  exists rest,
    trace (expandAll config sb)
      = trace (expandAllWithJavaScript config (sb_bulkEval sb) (sb_bulkSettle sb))
        ++ trace (expandAllManually config (sb_level1 sb)) ++ rest.
Proof.
  split.
  - intros eval settle. unfold expandAllWithJavaScript.
    destruct eval as [[]|e]; [|reflexivity]. destruct settle as [[]|e]; reflexivity.
  - unfold expandAll. rewrite trace_bind.
    destruct (expandAllWithJavaScript_returns config (sb_bulkEval sb) (sb_bulkSettle sb))
      as [b ->].
    rewrite trace_bind.
    destruct (completion (expandAllManually config (sb_level1 sb))); eexists;
      [reflexivity|by rewrite app_nil_r].
Qed.

(** X25.  [ensureVisible] scrolls exactly when the first visibility check
    does not answer [true], a check that rejects included.  A scroll that
    fails is ignored; the only call that can make the function throw is the
    wait after the scroll.  Its answer is that of the second visibility
    check, [false] when that check rejects. *)
Theorem ensureVisible_outcome (view : ItemView) :
  let answer := match iv_visibleAfter view with Returns b => b | Throws _ => false end in
  (ScrollIntoView ∈ trace (ensureVisible view) <-> iv_visible view <> Returns true) /\
  completion (ensureVisible view)
    = match iv_visible view, iv_scrollSettle view with
      | Returns true, _ => Returns answer
      | _, Returns _ => Returns answer
      | _, Throws e => Throws e
      end.
Proof.
  cbv zeta. unfold ensureVisible.
  destruct (iv_visible view) as [[]|?], (iv_scroll view) as [[]|?],
    (iv_scrollSettle view) as [[]|?], (iv_visibleAfter view) as [?|?];
    (split; [|reflexivity]); cbn;
    (split; [intros Hin; try discriminate;
             repeat (apply elem_of_cons in Hin as [Hin|Hin]; [discriminate|]);
             by apply elem_of_nil in Hin
            |intros Hne; try congruence; apply list_elem_of_In; cbn; auto 10]).
Qed.
End ExpandItemFacts.

(** ** PdfExporter: what one export does *)

Section ExportPageFacts.
Import PdfExporter.
Variable site : string -> PageView.

(** X6.  [exportPage] throws exactly when the navigation rejects, or the
    page loads, is not a listing page and printing rejects.  What it throws
    is a [PdfExportError] whose message names the URL and whose cause is the
    rejection; failures of the styling, link-rewriting, heading and height
    steps never reach the caller. *)
Theorem exportPage_throws_iff (u p : string) (b : option string) (e : JsError) :
  let view := site u in
  completion (exportPage site u p b) = Throws e <->
  exists cause,
    e = exportPageError u cause /\
    (pv_goto view = Throws cause \/
     (pv_goto view = Returns tt /\
      completion (isDocListPage view) = Returns false /\
      pv_pdf view = Throws cause)).
Proof.
  intros view. rewrite exportPage_normal_form. fold view.
  pose proof (isDocListPage_completion view) as Hlist.
  destruct (pv_goto view) as [[]|c].
  - destruct (completion (isDocListPage view)) as [[]|e0]; [| |discriminate].
    + split; [discriminate|].
      intros (cause & _ & [H|(_ & H & _)]); discriminate.
    + destruct (pv_pdf view) as [[]|c].
      * split; [discriminate|].
        intros (cause & _ & [H|(_ & _ & H)]); discriminate.
      * split.
        -- intros [= <-]. exists c. auto.
        -- intros (cause & -> & [H|(_ & _ & [= ->])]); [discriminate|reflexivity].
  - split.
    + intros [= <-]. exists c. auto.
    + intros (cause & -> & [[= ->]|(H & _)]); [reflexivity|discriminate].
Qed.

(** X7.  [exportPage] calls [page.pdf] at most once: exactly when the page
    loads and is not a listing page, with the path it was given and the
    height that [calculatePageHeight] returns.  The result it then gives
    carries the extracted headings, or none when their extraction failed. *)
Theorem exportPage_prints_once (u p : string) (b : option string) :
  let view := site u in
  let run := exportPage site u p b in
  pdfsOf (trace run)
    = match pv_goto view, completion (isDocListPage view),
            completion (calculatePageHeight view) with
      | Returns _, Returns false, Returns height => [(p, height)]
      | _, _, _ => []
      end /\
  (forall r, completion run = Returns (Some r) ->
     r = {| er_path := p;
            er_headings := match completion (extractHeadings view) with
                           | Returns hs => hs
                           | Throws _ => []
                           end;
            er_url := u |}).
Proof.
  intros view run. split.
  - subst run. unfold pdfsOf. rewrite exportPage_calls by reflexivity. fold view.
    cbn [omap list_omap]. destruct (pv_goto view) as [[]|e]; [|reflexivity].
    rewrite omap_app.
    replace (omap _ (if truthy b then _ else _)) with (@nil (string * nat))
      by (by destruct (truthy b)).
    destruct (completion (isDocListPage view)) as [[]|e0]; try reflexivity.
    destruct (completion (calculatePageHeight view)); reflexivity.
  - intros r. subst run. rewrite exportPage_normal_form. fold view.
    rewrite extractHeadings_completion.
    destruct (pv_goto view) as [[]|?]; [|discriminate].
    destruct (completion (isDocListPage view)) as [[]|?]; try discriminate;
      destruct (pv_pdf view) as [[]|?]; try discriminate; by intros [= <-].
Qed.

(** X8.  [exportPage] evaluates the link-rewriting script at most once:
    exactly when the page loads and a non-empty base URL is given, and then
    with that base URL.  Without a base URL, or with the empty string, no
    link of the page is touched. *)
Theorem exportPage_rewrites_iff_base (u p : string) (b : option string) :
  rewritesOf (trace (exportPage site u p b))
    = match pv_goto (site u), b with
      | Returns _, Some base => if String.eqb base "" then [] else [base]
      | _, _ => []
      end.
Proof.
  unfold rewritesOf. rewrite exportPage_calls by reflexivity.
  cbn [omap list_omap]. destruct (pv_goto (site u)) as [[]|e]; [|reflexivity].
  rewrite omap_app.
  match goal with
  | |- _ ++ ?rest = _ =>
      replace rest with (@nil string)
  end.
  - rewrite app_nil_r. destruct b as [[|a base]|]; reflexivity.
  - destruct (completion (isDocListPage (site u))) as [[]|e0]; try reflexivity.
    destruct (completion (calculatePageHeight (site u))); reflexivity.
Qed.

Lemma exportPage_navigates_once (u p : string) (b : option string) :
  gotosOf (trace (exportPage site u p b)) = [u].
Proof.
  unfold gotosOf. rewrite exportPage_calls by reflexivity.
  cbn [omap list_omap]. f_equal. destruct (pv_goto (site u)) as [[]|e]; [|reflexivity].
  rewrite omap_app.
  replace (omap _ (if truthy b then _ else _)) with (@nil string)
    by (by destruct (truthy b)).
  destruct (completion (isDocListPage (site u))) as [[]|e0]; try reflexivity.
  destruct (completion (calculatePageHeight (site u))); reflexivity.
Qed.
End ExportPageFacts.

(** ** PdfExporter: the loop over the URLs *)

Lemma string_length_append (s1 s2 : string) :
  String.length (s1 +:+ s2) = String.length s1 + String.length s2.
Proof.
  induction s1 as [|a s1 IH]; [reflexivity|].
  change (String a s1 +:+ s2) with (String a (s1 +:+ s2)).
  cbn [String.length]. by rewrite IH.
Qed.

Lemma string_append_inj_l (t s1 : string) : forall s2,
  s1 +:+ t = s2 +:+ t -> s1 = s2.
Proof.
  induction s1 as [|a s1 IH]; intros [|a' s2] H.
  - reflexivity.
  - apply (f_equal String.length) in H.
    rewrite !string_length_append in H. cbn in H. lia.
  - apply (f_equal String.length) in H.
    rewrite !string_length_append in H. cbn in H. lia.
  - change (String a (s1 +:+ t) = String a' (s2 +:+ t)) in H.
    injection H as -> H. f_equal. by apply IH.
Qed.

Lemma string_of_nat_inj (n m : nat) : string_of_nat n = string_of_nat m -> n = m.
Proof.
  unfold string_of_nat. intros H.
  assert (Hnil : forall k, Nat.to_uint k <> Decimal.Nil).
  { intros k Hk. pose proof (DecimalNat.Unsigned.of_to k) as Hof.
    rewrite Hk in Hof. cbn in Hof. subst k. discriminate. }
  apply DecimalNat.Unsigned.to_uint_inj.
  pose proof (NilZero.usu _ (Hnil n)) as Hn.
  pose proof (NilZero.usu _ (Hnil m)) as Hm.
  rewrite H in Hn. congruence.
Qed.

Lemma outputPathOf_inj (dir : string) (i j : nat) :
  outputPathOf dir i = outputPathOf dir j -> i = j.
Proof.
  unfold outputPathOf. intros H.
  apply String.app_inj in H. apply String.app_inj in H.
  apply string_append_inj_l in H. by apply string_of_nat_inj.
Qed.

Section ExportPagesLoopFacts.
Import PdfExporter.
Variable site : string -> PageView.
Variables (outputDir : string) (baseUrl : option string).

Lemma exportPagesFrom_gotos urls : forall i files idx,
  gotosOf (trace (exportPagesFrom site urls i outputDir baseUrl files idx)) = urls.
Proof.
  induction urls as [|u rest IH]; intros i files idx; [reflexivity|].
  cbn [exportPagesFrom]. unfold gotosOf.
  rewrite omap_trace_bind, omap_trace_tryCatch, omap_trace_bind.
  fold (gotosOf (trace (exportPage site u (outputDir +:+ "/" +:+ string_of_nat i +:+ ".pdf")
                          baseUrl))).
  rewrite exportPage_navigates_once.
  rewrite completion_tryCatch, completion_bind.
  destruct (completion (exportPage site u _ baseUrl)) as [[r|]|e];
    cbn [completion ret snd trace fst omap list_omap app];
    try rewrite omap_trace_bind;
    cbn [completion ret warn snd trace fst omap list_omap app];
    f_equal; apply IH.
Qed.

(** X9.  [exportPages] navigates to every URL of its input exactly once
    and in input order: a page that fails or is skipped neither stops the
    loop nor is tried again. *)
Theorem exportPages_visits_every_url (urls : list string) :
  gotosOf (trace (exportPages site urls outputDir baseUrl)) = urls.
Proof. apply exportPagesFrom_gotos. Qed.

Lemma exportPagesFrom_paths urls : forall i files idx,
  exists new positions,
    completion (exportPagesFrom site urls i outputDir baseUrl files idx)
      = Returns (files ++ new) /\
    map path new = map (outputPathOf outputDir) positions /\
    Forall2 (fun f k => i <= k /\ urls !! (k - i) = Some (url f)) new positions /\
    StronglySorted lt positions.
Proof.
  induction urls as [|u rest IH]; intros i files idx.
  - exists [], []. cbn. rewrite app_nil_r. repeat split; constructor.
  - cbn [exportPagesFrom]. rewrite completion_bind, completion_tryCatch, completion_bind.
    fold (outputPathOf outputDir i).
    pose proof (exportPage_normal_form site u (outputPathOf outputDir i) baseUrl) as Hpage.
    cbv zeta in Hpage.
    assert (Hshift : forall (new : list ExportedPage) positions,
              Forall2 (fun f k => S i <= k /\ rest !! (k - S i) = Some (url f)) new positions ->
              Forall2 (fun f k => i <= k /\ (u :: rest) !! (k - i) = Some (url f)) new positions).
    { intros new positions H. eapply Forall2_impl; [exact H|].
      intros f k [Hk Hu]. split; [lia|].
      replace (k - i) with (S (k - S i)) by lia. exact Hu. }
    assert (Hsorted : forall (new : list ExportedPage) positions,
              Forall2 (fun f k => S i <= k /\ rest !! (k - S i) = Some (url f)) new positions ->
              Forall (lt i) positions).
    { intros new positions H. induction H as [|f k new' ps [Hk _] _ IH']; constructor; auto. }
    destruct (completion (exportPage site u (outputPathOf outputDir i) baseUrl))
      as [[r|]|e]; cbn [completion ret snd fst].
    + destruct (IH (S i)
                  (files ++ [ {| path := er_path r; headings := Some (er_headings r);
                                 url := er_url r; pageIndex := idx |} ])
                  (S idx)) as (new & positions & Hc & Hp & Hu & Hs).
      eexists (_ :: new), (i :: positions). rewrite Hc, <- app_assoc.
      split; [reflexivity|].
      assert (Hr : er_path r = outputPathOf outputDir i /\ er_url r = u).
      { destruct (pv_goto (site u)) as [[]|?]; [|discriminate].
        destruct (completion (isDocListPage (site u))) as [[]|?];
          try discriminate; destruct (pv_pdf (site u)) as [[]|?]; try discriminate;
          injection Hpage as ->; auto. }
      destruct Hr as [Hrp Hru]. split; [cbn; by rewrite Hrp, Hp|]. split.
      * constructor; [cbn; rewrite Nat.sub_diag, Hru; auto|by apply Hshift].
      * constructor; [exact Hs|]. by eapply Hsorted.
    + destruct (IH (S i) files idx) as (new & positions & Hc & Hp & Hu & Hs).
      exists new, positions. rewrite Hc. auto.
    + rewrite completion_bind. cbn [completion warn snd ret fst].
      destruct (IH (S i) files idx) as (new & positions & Hc & Hp & Hu & Hs).
      exists new, positions. rewrite Hc. auto.
Qed.

(** X10.  The artifact of a page is named after the position of its URL in
    the input list, not after its page index: the records returned by
    [exportPages] belong to increasing positions [i] at which the input
    list holds their URL, and no two records share an artifact path; when
    the output directory is a normalised POSIX path without a trailing
    separator ([plainDirectory]), the paths are literally
    [outputDir/i.pdf]. *)
Theorem exportPages_artifact_paths (urls : list string) :
  exists files positions,
    completion (exportPages site urls outputDir baseUrl) = Returns files /\
    Forall2 (fun f i => urls !! i = Some (url f)) files positions /\
    StronglySorted lt positions /\
    NoDup (map path files) /\
    (plainDirectory outputDir = true ->
     map path files = map (outputPathOf outputDir) positions).
Proof.
  destruct (exportPagesFrom_paths urls 0 [] 0) as (new & positions & Hc & Hp & Hu & Hs).
  exists new, positions. split; [exact Hc|]. split; [|split; [|split; [|intros _; exact Hp]]].
  - eapply Forall2_impl; [exact Hu|]. intros f k [_ H]. by rewrite Nat.sub_0_r in H.
  - exact Hs.
  - rewrite Hp. apply NoDup_fmap_2; [intros x y; apply outputPathOf_inj|].
    clear -Hs. induction Hs as [|k ps Hs IH Hall]; constructor; auto.
    intros Hin. rewrite Forall_forall in Hall. apply Hall in Hin. lia.
Qed.
End ExportPagesLoopFacts.

Lemma exportPages_artifact_paths_witness :
  plainDirectory "/work/tmp" = true /\
  exists files positions,
    completion (PdfExporter.exportPages (fun _ => contentPage 0 3 (Some 400))
                  ["a"; "b"] "/work/tmp" None) = Returns files /\
    map path files = map (outputPathOf "/work/tmp") positions.
Proof.
  split; [reflexivity|].
  destruct (exportPages_artifact_paths (fun _ => contentPage 0 3 (Some 400))
              "/work/tmp" None ["a"; "b"]) as (files & positions & Hc & _ & _ & _ & Hp).
  exists files, positions. split; [exact Hc|]. apply Hp. reflexivity.
Defined.

(** ** PdfMerger.merge: the files read and the file written *)

Lemma omap_quiet {A C} (f : Event -> option C) (m : Run A) :
  traceAll (fun e => f e = None) m -> omap f (trace m) = [].
Proof.
  unfold traceAll. induction (trace m) as [|e t IH]; intros H; [reflexivity|].
  apply Forall_cons in H as [He Ht]. cbn. rewrite He. by apply IH.
Qed.

Section MergeCallsFacts.
Import PdfMerger.
Variable disk : Disk.

Lemma mergeFrom_loads metadata : forall i total st,
  loadsOf (trace (mergeFrom disk metadata i total st))
    = map (fun a => path (store st a)) metadata.
Proof.
  induction metadata as [|a rest IH]; intros i total st; [reflexivity|].
  cbn [mergeFrom map]. unfold loadsOf. rewrite omap_trace_bind, mergeOne_completion.
  fold (loadsOf (trace (mergeFrom disk rest (S i) total (mergeStep disk st a)))).
  rewrite IH. unfold mergeOne.
  rewrite omap_trace_bind, omap_trace_tryCatch, omap_trace_bind.
  cbn [completion debug perform snd trace fst omap list_omap app].
  assert (Hpaths : map (fun b => path (store (mergeStep disk st a) b)) rest
                   = map (fun b => path (store st b)) rest).
  { apply map_ext. intros b. apply mergeStep_path. }
  rewrite Hpaths.
  destruct (artifactAt disk (path (store st a))); reflexivity.
Qed.

(** X11.  [merge] reads the artifact of every listed record exactly once,
    in the order of the list and at the path the record holds; an artifact
    that cannot be read does not keep the later ones from being read. *)
Theorem merge_loads_every_artifact
    (s : Store) (metadata : list nat) (outputPath : string) :
  loadsOf (trace (fst (merge disk s (Some metadata) outputPath)))
    = map (fun a => path (s a)) metadata.
Proof.
  destruct metadata as [|a rest]; [reflexivity|].
  cbn [merge fst]. unfold loadsOf.
  rewrite omap_trace_bind, omap_trace_tryCatch, omap_trace_bind.
  cbn [completion info snd trace fst omap list_omap app].
  unfold mergeLoop.
  fold (loadsOf (trace (mergeFrom disk (a :: rest) 0 (length (a :: rest))
                          {| store := s; pdfDoc := []; pages := []; pageOffset := 0 |}))).
  rewrite mergeFrom_loads, mergeFrom_completion. cbn [store].
  rewrite !omap_trace_bind. cbn [completion perform snd trace fst omap list_omap app].
  destruct (d_ensureDirectoryExists disk) as [[]|?],
    (d_save disk) as [[]|?], (d_writeFileSync disk) as [[]|?];
    cbn [app omap list_omap completion info ret throw trace fst snd];
    rewrite ?app_nil_r; try reflexivity;
    match goal with
    | |- context [match completion ?m with _ => _ end] =>
        destruct (completion m); apply app_nil_r
    end.
Qed.

Lemma merge_writes
    (s : Store) (metadata : list nat) (outputPath : string) :
  writesOf (trace (fst (merge disk s (Some metadata) outputPath)))
    = match metadata, d_ensureDirectoryExists disk, d_save disk with
      | _ :: _, Returns _, Returns _ =>
          [(outputPath, savedPages (flat_map (copiedPages disk s) metadata))]
      | _, _, _ => []
      end.
Proof.
  destruct metadata as [|a rest]; [reflexivity|].
  cbn [merge fst]. unfold writesOf.
  rewrite omap_trace_bind, omap_trace_tryCatch, omap_trace_bind.
  cbn [completion info snd trace fst omap list_omap app].
  unfold mergeLoop.
  rewrite (omap_quiet _ (mergeFrom disk _ _ _ _)), mergeFrom_completion
    by (apply traceAll_mergeFrom; reflexivity).
  destruct (merge_fold_inv disk (a :: rest)
              {| store := s; pdfDoc := []; pages := []; pageOffset := 0 |})
    as (Hdoc & _).
  cbn [store pdfDoc app] in Hdoc.
  rewrite !omap_trace_bind. cbn [completion perform snd trace fst omap list_omap app].
  rewrite Hdoc.
  destruct (d_ensureDirectoryExists disk) as [[]|?],
    (d_save disk) as [[]|?], (d_writeFileSync disk) as [[]|?];
    cbn [app omap list_omap completion info ret throw trace fst snd];
    rewrite ?app_nil_r; try reflexivity;
    match goal with
    | |- context [match completion ?m with _ => _ end] =>
        destruct (completion m); rewrite ?app_nil_r; reflexivity
    end.
Qed.

(** X12.  [merge] writes at most one file: once the output directory and
    the serialisation have succeeded it writes to the output path the pages
    of the loadable artifacts, in order, or one blank page when no page
    could be copied; it writes nothing at all when the list is empty or one
    of these two steps fails. *)
Theorem merge_writes_once
    (s : Store) (metadata : list nat) (outputPath : string) :
  writesOf (trace (fst (merge disk s (Some metadata) outputPath)))
    = match metadata, d_ensureDirectoryExists disk, d_save disk with
      | _ :: _, Returns _, Returns _ =>
          [(outputPath, savedPages (flat_map (copiedPages disk s) metadata))]
      | _, _, _ => []
      end.
Proof. apply merge_writes. Qed.

(** X13.  The records are objects that [merge] writes in place, so one that
    is listed several times is written several times: it is left with the
    offset of its last listing, the number of pages merged before that
    position. *)
Theorem merge_repeated_record
    (s : Store) (metadata : list nat) (outputPath : string)
    (i a : nat) (ps : list PDFPage)
    (Hlisted : metadata !! i = Some a)
    (Hlast : a ∉ drop (S i) metadata)
    (Hloaded : artifactAt disk (path (s a)) = Loaded ps) :
  pageIndex (snd (merge disk s (Some metadata) outputPath) a)
    = length (flat_map (copiedPages disk s) (take i metadata)).
Proof.
  rewrite merge_store by (intros ->; discriminate).
  rewrite mergedState_fold.
  rewrite <- (take_drop_middle metadata i a Hlisted) at 1.
  rewrite foldl_app. cbn [foldl].
  set (init := {| store := s; pdfDoc := []; pages := []; pageOffset := 0 |}).
  destruct (merge_fold_inv disk (take i metadata) init) as (_ & Hoff & Hpath & _).
  set (st1 := foldl (mergeStep disk) init (take i metadata)) in *.
  destruct (merge_fold_inv disk (drop (S i) metadata) (mergeStep disk st1 a))
    as (_ & _ & _ & Hout & _).
  cbv zeta in Hout. rewrite (Hout a Hlast).
  unfold mergeStep. rewrite Hpath. subst init. cbn [store] in *. rewrite Hloaded.
  cbn [store]. unfold setPageIndex. rewrite Nat.eqb_refl. cbn [pageIndex].
  rewrite Hoff. reflexivity.
Qed.

End MergeCallsFacts.

Lemma merge_repeated_record_witness :
  pageIndex (snd (PdfMerger.merge sampleDisk (storeOf sampleFiles) (Some [0; 2; 0])
                    "out.pdf") 0) = 5.
Proof.
  apply (merge_repeated_record sampleDisk (storeOf sampleFiles) [0; 2; 0] "out.pdf"
           2 0 [10; 11; 12]).
  - reflexivity.
  - cbn. apply not_elem_of_nil.
  - reflexivity.
Defined.

(** ** PdfMerger.buildBookmarkHierarchy: parent indices, counts and roots *)

(** X26.  The first pass of [buildBookmarkHierarchy] makes one entry per
    heading, in order.  The parent index of a heading of level L is the
    node that the stack holds at level L-1 when the heading is met, that is
    the latest node of level L-1 not followed by a node of a smaller level;
    without such a node, or when L is 1, it is -1.  After the insertion of
    the heading the stack holds it at level L, holds nothing at the deeper
    levels, and holds at every level the node open there. *)
Theorem bookmark_parent_index_and_stack
    (pages : list PDFPage) (metadata : list ExportedPage) :
  let hs := processedHeadings pages metadata in
  let levels := levelsOf hs in
  exists infos roots,
    PdfMerger.buildBookmarkHierarchy pages metadata = Some (infos, roots) /\
    length infos = length hs /\
    (forall i info, infos !! i = Some info ->
       exists pg hd,
         hs !! i = Some (pg, hd) /\
         PdfMerger.info_level info = level hd /\
         PdfMerger.index info = i /\
         PdfMerger.Title (PdfMerger.dict info) = text hd /\
         PdfMerger.Dest (PdfMerger.dict info) = pg /\
         PdfMerger.parentIndex info
           = (if (1 <? level hd)%Z
              then match PdfMerger.stackGet (snd (insertAll (take i hs))) (level hd - 2) with
                   | Some j => Z.of_nat j
                   | None => (-1)%Z
                   end
              else (-1)%Z) /\
         PdfMerger.parentIndex info = specParent (take i levels) (level hd)) /\
    (forall n pg hd, hs !! n = Some (pg, hd) ->
       let stack := snd (insertAll (take (S n) hs)) in
       (forall k, (level hd < k)%Z -> PdfMerger.stackGet stack (k - 1) = None) /\
       ((1 <= level hd)%Z -> PdfMerger.stackGet stack (level hd - 1) = Some n) /\
       (forall k, (1 <= k)%Z ->
          PdfMerger.stackGet stack (k - 1) = openNode (take (S n) levels) k)).
Proof.
  intros hs levels.
  destruct (hierarchy_entries hs) as (Hsecond & Hskel & Hsklen & Hlen & Hentries).
  set (infos0 := fst (insertAll hs)) in *. set (sk := skeleton infos0) in *.
  set (infos := mapDicts (linkedDict sk (length infos0)) infos0) in *.
  exists infos, (map PdfMerger.dict (filter (fun info => PdfMerger.isRoot info = true) infos)).
  split.
  { unfold PdfMerger.buildBookmarkHierarchy. rewrite firstPass_flat. fold hs infos0.
    by rewrite Hsecond. }
  split; [exact Hlen|]. split.
  - intros i info Hi.
    destruct (Hentries i info Hi) as (pg & hd & Hh & Hl & Hidx & Hp & Ht & Hd & _).
    exists pg, hd. repeat (split; [assumption|]). split; [|exact Hp].
    rewrite Hp. unfold specParent. destruct (Z.ltb_spec 1 (level hd)); [|reflexivity].
    destruct (insertAll_inv (take i hs)) as (_ & _ & Hstack).
    replace (level hd - 2)%Z with (level hd - 1 - 1)%Z by lia.
    rewrite Hstack by lia. unfold levels, levelsOf. by rewrite <- fmap_take.
  - intros n pg hd Hn stack.
    assert (Htake : take (S n) hs = take n hs ++ [(pg, hd)]) by (by apply take_S_r).
    assert (Hlevels : take (S n) levels = levelsOf (take (S n) hs)).
    { unfold levels, levelsOf. by rewrite <- fmap_take. }
    pose proof (lookup_lt_Some _ _ _ Hn) as Hlt.
    assert (Hget : forall m, (0 <= m)%Z ->
              PdfMerger.stackGet stack m
              = if (level hd <=? m)%Z then None
                else if (m =? level hd - 1)%Z then Some n
                else PdfMerger.stackGet (snd (insertAll (take n hs))) m).
    { intros m Hm. subst stack. rewrite Htake, insertAll_snoc. cbn [fst snd].
      destruct (insertAll (take n hs)) as [before st] eqn:E.
      rewrite addHeading_stack by lia.
      destruct (insertAll_inv (take n hs)) as (Hl & _). rewrite E in Hl. cbn in Hl.
      rewrite Hl, length_take. replace (n `min` length hs) with n by lia. reflexivity. }
    split; [|split].
    + intros k Hk. destruct (Z.ltb_spec (k - 1) 0) as [Hneg|Hpos].
      * unfold PdfMerger.stackGet. destruct (Z.ltb_spec (k - 1) 0); [reflexivity|lia].
      * rewrite Hget by lia. destruct (Z.leb_spec (level hd) (k - 1)); [reflexivity|lia].
    + intros Hl. rewrite Hget by lia.
      destruct (Z.leb_spec (level hd) (level hd - 1)); [lia|]. by rewrite Z.eqb_refl.
    + intros k Hk. rewrite Hlevels.
      destruct (insertAll_inv (take (S n) hs)) as (_ & _ & Hstack). by apply Hstack.
Qed.

(** X14.  The second pass of [buildBookmarkHierarchy] never fails and
    writes no reference at all: after it every entry is still without
    [Parent], [First], [Last], [Prev] and [Next], whatever the headings.
    What it records is the number of children: [Count] is set on the
    entries that have children, to their number, so an entry with a child
    counts children that no link leads to. *)
Theorem bookmark_references_undefined
    (pages : list PDFPage) (metadata : list ExportedPage) :
  exists infos roots,
    PdfMerger.buildBookmarkHierarchy pages metadata = Some (infos, roots) /\
    forall k info, infos !! k = Some info ->
      let children := childrenOf (skeleton infos) k in
      PdfMerger.Parent (PdfMerger.dict info) = None /\
      PdfMerger.First (PdfMerger.dict info) = None /\
      PdfMerger.Last (PdfMerger.dict info) = None /\
      PdfMerger.Prev (PdfMerger.dict info) = None /\
      PdfMerger.Next (PdfMerger.dict info) = None /\
      PdfMerger.Count (PdfMerger.dict info)
        = (if decide (children = []) then None else Some (length children)) /\
      (forall c, c ∈ children <->
         exists child, infos !! c = Some child /\
                       PdfMerger.parentIndex child = Z.of_nat k).
Proof.
  set (hs := processedHeadings pages metadata).
  destruct (hierarchy_entries hs) as (Hsecond & Hskel & Hsklen & Hlen & Hentries).
  set (infos0 := fst (insertAll hs)) in *. set (sk := skeleton infos0) in *.
  set (infos := mapDicts (linkedDict sk (length infos0)) infos0) in *.
  exists infos, (map PdfMerger.dict (filter (fun info => PdfMerger.isRoot info = true) infos)).
  split.
  { unfold PdfMerger.buildBookmarkHierarchy. rewrite firstPass_flat. fold hs infos0.
    by rewrite Hsecond. }
  intros k info Hk. cbv zeta.
  destruct (Hentries k info Hk)
    as (pg & hd & _ & _ & _ & _ & _ & _ & _ & HC & HP & HF & HL & HPr & HN).
  repeat (split; [assumption|]). rewrite Hskel. split.
  { rewrite HC. destruct (childrenOf sk k); [reflexivity|]. by case_decide. }
  intros c. unfold childrenOf. rewrite list_elem_of_filter, elem_of_seq.
  unfold isChildOf. rewrite <- Hskel at 1. rewrite skeleton_lookup. split.
  - intros [Hc _]. destruct (infos !! c) as [child|]; [|discriminate].
    exists child. split; [reflexivity|]. cbn in Hc. by apply Z.eqb_eq.
  - intros (child & Hc & Hp). rewrite Hc. cbn. split; [by apply Z.eqb_eq|].
    apply lookup_lt_Some in Hc. rewrite <- Hskel, length_skeleton. lia.
Qed.

Lemma filter_ext_in {A} (P Q : A -> Prop) `{forall x, Decision (P x)}
    `{forall x, Decision (Q x)} (l : list A) :
  (forall x, x ∈ l -> (P x <-> Q x)) -> filter P l = filter Q l.
Proof.
  induction l as [|x l IH]; intros Hl; [reflexivity|].
  rewrite !filter_cons.
  assert (Hx : P x <-> Q x) by (apply Hl; by left).
  rewrite IH by (intros y Hy; apply Hl; by right).
  repeat case_decide; tauto.
Qed.

(** X15.  The roots that [buildBookmarkHierarchy] returns are the
    dictionaries of the entries without a parent index, in order: the test
    on level 1 adds none, since a heading of level 1 never gets a parent
    index.  The first entry is always among them. *)
Theorem bookmark_roots
    (pages : list PDFPage) (metadata : list ExportedPage) :
  exists infos roots,
    PdfMerger.buildBookmarkHierarchy pages metadata = Some (infos, roots) /\
    roots = map PdfMerger.dict
              (filter (fun info => PdfMerger.parentIndex info = (-1)%Z) infos) /\
    (forall info, info ∈ infos -> PdfMerger.info_level info = 1%Z ->
       PdfMerger.parentIndex info = (-1)%Z) /\
    (forall k, k ∈ rootIndices (skeleton infos) <->
       exists info, infos !! k = Some info /\ PdfMerger.parentIndex info = (-1)%Z) /\
    (forall info, infos !! 0 = Some info -> PdfMerger.parentIndex info = (-1)%Z).
Proof.
  set (hs := processedHeadings pages metadata) in *.
  destruct (hierarchy_entries hs) as (Hsecond & Hskel & Hsklen & Hlen & Hentries).
  set (infos0 := fst (insertAll hs)) in *. set (sk := skeleton infos0) in *.
  set (infos := mapDicts (linkedDict sk (length infos0)) infos0) in *.
  exists infos, (map PdfMerger.dict (filter (fun info => PdfMerger.isRoot info = true) infos)).
  split.
  { unfold PdfMerger.buildBookmarkHierarchy. rewrite firstPass_flat. fold hs infos0.
    by rewrite Hsecond. }
  assert (Hlevel1 : forall info, info ∈ infos -> PdfMerger.info_level info = 1%Z ->
            PdfMerger.parentIndex info = (-1)%Z).
  { intros info Hin H1. apply list_elem_of_lookup in Hin as [k Hk].
    destruct (Hentries k info Hk) as (pg & hd & _ & Hl & _ & Hp & _).
    rewrite Hp. unfold specParent.
    destruct (Z.ltb_spec 1 (level hd)); [lia|reflexivity]. }
  assert (Hroot : filter (fun info => PdfMerger.isRoot info = true) infos
                  = filter (fun info => PdfMerger.parentIndex info = (-1)%Z) infos).
  { apply filter_ext_in. intros info Hin.
    unfold PdfMerger.isRoot. rewrite orb_true_iff, !Z.eqb_eq. split; [|auto].
    intros [H1|H]; [by apply Hlevel1|exact H]. }
  rewrite Hroot. split; [reflexivity|]. split; [exact Hlevel1|]. split.
  - intros k. unfold rootIndices.
    rewrite list_elem_of_filter, elem_of_seq, skeleton_lookup, length_skeleton.
    split.
    + intros [Hk _]. destruct (infos !! k) as [info|]; [|discriminate].
      exists info. split; [reflexivity|]. cbn in Hk. by apply Z.eqb_eq.
    + intros (info & Hk & Hp). rewrite Hk. cbn. split; [by apply Z.eqb_eq|].
      apply lookup_lt_Some in Hk. lia.
  - intros info Hk.
    destruct (Hentries 0 info Hk) as (pg & hd & _ & _ & _ & Hp & _).
    rewrite Hp. cbn [take]. unfold specParent.
    destruct (1 <? level hd)%Z; reflexivity.
Qed.

(** ** PdfExporter: the link-rewriting script *)

Lemma prefix_append (s1 s2 : string) :
  String.prefix s1 s2 = true <-> exists rest, s2 = s1 +:+ rest.
Proof.
  revert s2. induction s1 as [|a s1 IH]; intros s2.
  - split; [intros _; by exists s2|intros _; by destruct s2].
  - destruct s2 as [|b s2]; cbn [String.prefix].
    + split; [discriminate|intros [rest H]; discriminate].
    + destruct (Ascii.ascii_dec a b) as [->|Hne].
      * rewrite IH. split; intros [rest H]; exists rest.
        -- by rewrite H.
        -- change (String b s2 = String b (s1 +:+ rest)) in H. congruence.
      * split; [discriminate|]. intros [rest H].
        change (String b s2 = String a (s1 +:+ rest)) in H. congruence.
Qed.

Lemma includes_prefix (needle hay : string) :
  String.prefix needle hay = true -> includes needle hay = true.
Proof. intros H. destruct hay; cbn [includes]; rewrite H; reflexivity. Qed.

Lemma includes_skip (needle pre hay : string) :
  includes needle hay = true -> includes needle (pre +:+ hay) = true.
Proof.
  intros H. induction pre as [|a pre IH]; [exact H|].
  change (String a pre +:+ hay) with (String a (pre +:+ hay)).
  cbn [includes]. rewrite IH. apply orb_true_r.
Qed.

Lemma string_append_assoc (s1 s2 s3 : string) :
  (s1 +:+ s2) +:+ s3 = s1 +:+ (s2 +:+ s3).
Proof.
  induction s1 as [|c s1 IH]; [reflexivity|].
  change (String c ((s1 +:+ s2) +:+ s3) = String c (s1 +:+ (s2 +:+ s3))).
  by rewrite IH.
Qed.

(** [includes] finds the needle exactly when the string holds it. *)
Lemma includes_spec (needle hay : string) :
  includes needle hay = true <-> exists pre post, hay = pre +:+ needle +:+ post.
Proof.
  split.
  - induction hay as [|a hay IH]; intros H.
    + destruct needle; [|discriminate]. by exists ""%string, ""%string.
    + change (String.prefix needle (String a hay) || includes needle hay = true) in H.
      apply orb_true_iff in H as [H|H].
      * apply prefix_append in H as [rest H]. by exists ""%string, rest.
      * destruct (IH H) as (pre & post & ->). by exists (String a pre), post.
  - intros (pre & post & ->).
    apply includes_skip, includes_prefix, prefix_append. by exists post.
Qed.

Section LinkScriptFacts.
Variable baseUrl : string.

(** X16.  Two of the tests of the script never change its answer: a link
    that includes "git.localhost" includes "localhost", and a link that
    starts with "/" starts with none of the four schemes.  A link keeps its
    target exactly when it has one of the schemes, is not under the base
    URL, and names neither "localhost" nor "127.0.0.1". *)
Theorem isLocalhost_external (href : string) :
  isLocalhost baseUrl href = negb (externalHref baseUrl href).
Proof.
  unfold isLocalhost, externalHref.
  assert (Hgit : includes "git.localhost" href = true -> includes "localhost" href = true).
  { rewrite !includes_spec. intros (pre & post & ->).
    exists (pre +:+ "git."), post.
    by rewrite (string_append_assoc pre "git." ("localhost" +:+ post)). }
  assert (Hslash : startsWith href "/" = true ->
            startsWith href "http" = false /\ startsWith href "mailto:" = false /\
            startsWith href "#" = false /\ startsWith href "javascript:" = false).
  { unfold startsWith. intros H. apply prefix_append in H as [rest ->].
    repeat split; reflexivity. }
  destruct (includes "localhost" href), (includes "127.0.0.1" href),
    (includes "git.localhost" href), (startsWith href baseUrl),
    (startsWith href "/"), (startsWith href "http"), (startsWith href "mailto:"),
    (startsWith href "#"), (startsWith href "javascript:");
    try reflexivity;
    try (specialize (Hgit eq_refl); discriminate);
    destruct (Hslash eq_refl) as (? & ? & ? & ?); discriminate.
Qed.

(** X17.  The script only removes targets: every element keeps its text and
    either is left as it was or loses its [href] and gets the three neutral
    styles; no element that still has a non-empty [href] afterwards passes
    the test of the script; and running the script a second time changes
    nothing. *)
Theorem rewriteLinks_removes_local_targets (document : list LinkElement) :
  let result := rewriteLinks baseUrl document in
  Forall2 (fun link link' =>
             le_text link' = le_text link /\
             (link' = link \/
              (le_href link' = None /\ le_cursor link' = "default"%string /\
               le_textDecoration link' = "none"%string /\
               le_color link' = "inherit"%string))) document result /\
  (forall link' href, link' ∈ result -> le_href link' = Some href -> href <> ""%string ->
     isLocalhost baseUrl href = false) /\
  rewriteLinks baseUrl result = result.
Proof.
  intros result. subst result. unfold rewriteLinks.
  assert (Hone : forall link,
            let link' := rewriteLink baseUrl link in
            (le_text link' = le_text link /\
             (link' = link \/
              (le_href link' = None /\ le_cursor link' = "default"%string /\
               le_textDecoration link' = "none"%string /\
               le_color link' = "inherit"%string))) /\
            (forall href, le_href link' = Some href -> href <> ""%string ->
               isLocalhost baseUrl href = false) /\
            rewriteLink baseUrl link' = link').
  { intros link. cbv zeta.
    assert (Hcases :
      (rewriteLink baseUrl link = link /\
       forall href, le_href link = Some href -> href <> ""%string ->
         isLocalhost baseUrl href = false) \/
      rewriteLink baseUrl link
        = {| le_href := None; le_text := le_text link; le_cursor := "default";
             le_textDecoration := "none"; le_color := "inherit" |}).
    { unfold rewriteLink. destruct (le_href link) as [href|] eqn:Hhref.
      - destruct (String.eqb_spec href "") as [->|Hne].
        + left. split; [reflexivity|]. intros h [= <-]. congruence.
        + destruct (isLocalhost baseUrl href) eqn:Hlocal; [by right|].
          left. split; [reflexivity|]. by intros h [= <-].
      - left. split; [reflexivity|]. intros h Hh. discriminate. }
    destruct Hcases as [[Heq Hext]| Heq]; rewrite Heq.
    - split; [auto|]. split; [exact Hext|exact Heq].
    - split; [cbn; auto 10|]. split; [intros h Hh; discriminate|reflexivity]. }
  split; [|split].
  - induction document as [|link rest IH]; constructor; [apply Hone|exact IH].
  - intros link' href Hin Hhref Hne.
    apply list_elem_of_fmap in Hin as (link & -> & _).
    destruct (Hone link) as (_ & Hext & _). by apply Hext.
  - rewrite <- list_fmap_compose. apply list_fmap_ext. intros i link _.
    apply Hone.
Qed.
End LinkScriptFacts.

(** ** The calls that the page-level services make *)

Section PageTraces.
Variable config : Config.

Lemma clickWithRetryFrom_page click strategies level index :
  traceAll onPage (SidebarExpander.clickWithRetryFrom click strategies level index).
Proof.
  induction strategies as [|strategy rest IH]; cbn [SidebarExpander.clickWithRetryFrom].
  - trace_ordinary.
  - trace_ordinary; exact IH.
Qed.

Lemma ensureVisible_page view : traceAll onPage (SidebarExpander.ensureVisible view).
Proof. unfold SidebarExpander.ensureVisible. trace_ordinary. Qed.

Lemma expandSubSidebar_page items level :
  Forall (fun item => forall level i,
            traceAll onPage (SidebarExpander.expandItem config level i item)) items ->
  traceAll onPage (SidebarExpander.expandSubSidebar config (Returns items) level).
Proof.
  intros Hitems. unfold SidebarExpander.expandSubSidebar.
  apply traceAll_tryCatch; [|intros; trace_ordinary].
  apply traceAll_bind; [trace_ordinary|intros _].
  generalize 0. induction Hitems as [|it rest Hit _ IH]; intros k;
    cbn [SidebarExpander.expandItems]; [trace_ordinary|].
  apply traceAll_bind; [apply Hit|intros _; apply IH].
Qed.

Lemma expandItem_page item : forall level i,
  traceAll onPage (SidebarExpander.expandItem config level i item).
Proof.
  induction item as [view e|view items IH] using NavItem_nested_ind; intros level i;
    rewrite expandItem_unfold.
  - unfold SidebarExpander.expandSubSidebar, SidebarExpander.clickWithRetry.
    trace_ordinary;
      try apply ensureVisible_page; try apply clickWithRetryFrom_page.
  - unfold SidebarExpander.clickWithRetry.
    trace_ordinary;
      try apply ensureVisible_page; try apply clickWithRetryFrom_page;
      try (apply expandSubSidebar_page; exact IH).
Qed.

Lemma expandSubSidebar_any_page subItems level :
  traceAll onPage (SidebarExpander.expandSubSidebar config subItems level).
Proof.
  destruct subItems as [items|e].
  - apply expandSubSidebar_page. apply Forall_forall. intros item _.
    apply expandItem_page.
  - unfold SidebarExpander.expandSubSidebar. trace_ordinary.
Qed.

Lemma expandTopItems_page items : forall i,
  traceAll onPage (SidebarExpander.expandTopItems config i items).
Proof.
  induction items as [|[view subItems] rest IH]; intros i;
    cbn [SidebarExpander.expandTopItems]; [trace_ordinary|].
  apply traceAll_bind; [|intros _; apply IH].
  unfold SidebarExpander.expandTopItem, SidebarExpander.clickWithRetry.
  trace_ordinary;
    try apply ensureVisible_page; try apply clickWithRetryFrom_page;
    try apply expandSubSidebar_any_page.
Qed.

Lemma expandAll_page sb : traceAll onPage (SidebarExpander.expandAll config sb).
Proof.
  unfold SidebarExpander.expandAll, SidebarExpander.expandAllManually,
    SidebarExpander.expandAllWithJavaScript.
  trace_ordinary; apply expandTopItems_page.
Qed.

Lemma collectAllLinks_page nav baseUrl :
  traceAll onPage (LinkCollector.collectAllLinks config nav baseUrl).
Proof.
  unfold LinkCollector.collectAllLinks, LinkCollector.collectLinksAlternative.
  trace_ordinary; apply expandAll_page.
Qed.

Lemma exportPage_page site u p b :
  traceAll onPage (PdfExporter.exportPage site u p b).
Proof.
  unfold PdfExporter.exportPage, PdfExporter.applyCustomStyles,
    PdfExporter.replaceInternalLinks, PdfExporter.isDocListPage,
    PdfExporter.extractHeadings, PdfExporter.calculatePageHeight.
  trace_ordinary.
Qed.

Lemma exportPagesFrom_page site outputDir b urls : forall i files idx,
  traceAll onPage (PdfExporter.exportPagesFrom site urls i outputDir b files idx).
Proof.
  induction urls as [|u rest IH]; intros i files idx;
    cbn [PdfExporter.exportPagesFrom]; [trace_ordinary|].
  apply traceAll_bind; [|intros st; apply IH].
  apply traceAll_tryCatch; [|intros; trace_ordinary].
  apply traceAll_bind; [apply exportPage_page|intros [r|]; trace_ordinary].
Qed.
End PageTraces.

(** ** The orchestrator: browser, connection and temporary directory *)

Lemma omap_page_quiet {A C} (f : Event -> option C) (m : Run A) :
  (forall e, pageEvent e = true -> f e = None) ->
  traceAll onPage m -> omap f (trace m) = [].
Proof.
  intros Hf Hm. apply omap_quiet. eapply traceAll_impl; [exact Hm|]. exact Hf.
Qed.

Section OrchestratorCalls.
Import DocusaurusPdfExporter.
Variable config : Config.
Variable w : World.

Lemma verifyDocusaurusRunning_completion u :
  completion (verifyDocusaurusRunning w u) =
  match w_verifyGoto w with
  | Returns _ => Returns tt
  | Throws cause => Throws (connectionError u cause)
  end.
Proof. unfold verifyDocusaurusRunning. destruct (w_verifyGoto w) as [[]|e]; reflexivity. Qed.

Lemma exportPages_returns site links dir b :
  exists files, completion (PdfExporter.exportPages site links dir b) = Returns files.
Proof.
  destruct (exportPagesFrom_inv site dir b links 0 [] 0) as (new & Hc & _).
  exists new. exact Hc.
Qed.

(** The calls of the steps of [export] other than those on the page. *)
Lemma exportSteps_calls {C} (f : Event -> option C) u outputPath :
  (forall e, pageEvent e = true -> f e = None) -> f CreateTempDir = None ->
  omap f (trace (exportSteps config w u outputPath)) =
  match w_verifyGoto w, w_createTempDirectory w with
  | Returns _, Returns tempDir =>
      match completion (LinkCollector.collectAllLinks config (w_navigation w) u) with
      | Returns links =>
          match completion (PdfExporter.exportPages (w_site w) links tempDir None) with
          | Returns (file :: others) =>
              let files := file :: others in
              let merged :=
                fst (PdfMerger.merge (w_disk w) (storeOf files)
                       (Some (seq 0 (length files)))
                       (w_resolveOutputPath w outputPath)) in
              omap f (trace merged) ++
              match completion merged with
              | Returns _ =>
                  if cleanTempFiles config then omap f [RemoveDir tempDir] else []
              | Throws _ => []
              end
          | _ => []
          end
      | Throws _ => []
      end
  | _, _ => []
  end.
Proof.
  intros Hpage Htemp. unfold exportSteps.
  rewrite omap_trace_bind, verifyDocusaurusRunning_completion.
  rewrite (omap_page_quiet f (verifyDocusaurusRunning w u)) by
    (auto; apply verifyDocusaurusRunning_traceAll; reflexivity).
  destruct (w_verifyGoto w) as [[]|e]; [|reflexivity].
  rewrite omap_trace_bind. cbn [completion perform snd trace fst omap list_omap app].
  rewrite Htemp.
  destruct (w_createTempDirectory w) as [tempDir|e]; [|reflexivity].
  rewrite omap_trace_bind. cbn [completion info snd trace fst omap list_omap app].
  rewrite (Hpage (Logged Info "---------------------")) by reflexivity.
  rewrite omap_trace_bind.
  rewrite (omap_page_quiet f (LinkCollector.collectAllLinks config (w_navigation w) u))
    by (auto; apply collectAllLinks_page).
  destruct (completion (LinkCollector.collectAllLinks config (w_navigation w) u))
    as [links|e]; [|reflexivity].
  rewrite omap_trace_bind.
  rewrite (omap_page_quiet f (PdfExporter.exportPages (w_site w) links tempDir None))
    by (auto; apply exportPagesFrom_page).
  destruct (exportPages_returns (w_site w) links tempDir None) as [files ->].
  destruct files as [|file others]; [reflexivity|].
  cbv zeta. rewrite omap_trace_bind.
  cbn [length Nat.eqb completion ret snd trace fst omap list_omap app].
  rewrite omap_trace_bind. f_equal.
  match goal with
  | |- context [completion ?m] => destruct (completion m); [|reflexivity]
  end.
  rewrite omap_trace_bind.
  destruct (cleanTempFiles config); [|reflexivity].
  cbn [completion perform ret snd trace fst omap list_omap app].
  destruct (f (RemoveDir tempDir)); destruct (w_removeDirectory w); reflexivity.
Qed.

Lemma export_calls {C} (f : Event -> option C) this u outputPath :
  (forall e, pageEvent e = true -> f e = None) ->
  (forall e, lifecycleEvent e = true -> f e = None) ->
  omap f (trace (fst (export config w this u outputPath))) =
  match completion (fst (initialize w this)) with
  | Returns _ => omap f (trace (exportSteps config w u outputPath))
  | Throws _ => []
  end.
Proof.
  intros Hpage Hlife. rewrite export_unfold, trace_tryFinally, omap_app.
  rewrite omap_trace_tryCatch, omap_trace_bind.
  rewrite (omap_quiet f (fst (initialize w this)))
    by (apply initialize_traceAll; apply Hlife; reflexivity).
  assert (Hfin : omap f (trace (if browser (snd (initialize w this))
                                then info "Closing browser...";;;
                                     perform BrowserClose (w_close w)
                                else ret tt)) = []).
  { destruct (browser _); [|reflexivity].
    assert (H1 := Hpage (Logged Info "Closing browser...") eq_refl).
    assert (H2 := Hlife BrowserClose eq_refl).
    destruct (w_close w); cbn; by rewrite H1, H2. }
  rewrite Hfin, app_nil_r. cbn [app].
  assert (Herr := Hpage (Logged Error "Export failed:") eq_refl).
  assert (Hhandler : forall err : JsError,
            omap f (trace (error "Export failed:";;; @throw string err)) = []).
  { intros err. cbn. by rewrite Herr. }
  match goal with
  | |- context [match completion (bind ?a ?b) with _ => _ end] =>
      destruct (completion (bind a b))
  end; rewrite ?Hhandler, ?app_nil_r; reflexivity.
Qed.

(** X18.  [export] removes the temporary directory at most once, and only
    as its last step: exactly when the configuration asks for it and the
    merged document has been written successfully.  After any failure the
    directory and the page artifacts in it are left behind. *)
Theorem export_removes_temp_dir (this : Exporter) (u outputPath : string) :
  let t := trace (fst (export config w this u outputPath)) in
  removesOf t
    = match w_createTempDirectory w, writesOf t, d_writeFileSync (w_disk w) with
      | Returns tempDir, [_], Returns _ =>
          if cleanTempFiles config then [tempDir] else []
      | _, _, _ => []
      end.
Proof.
  cbv zeta. unfold removesOf, writesOf.
  rewrite !export_calls by (intros []; (discriminate || reflexivity)).
  destruct (completion (fst (initialize w this))) as [[]|e];
    [|by destruct (w_createTempDirectory w)].
  rewrite !exportSteps_calls by (try reflexivity; intros []; (discriminate || reflexivity)).
  destruct (w_verifyGoto w) as [[]|e];
    [|by destruct (w_createTempDirectory w)].
  destruct (w_createTempDirectory w) as [tempDir|e]; [|reflexivity].
  destruct (completion (LinkCollector.collectAllLinks config (w_navigation w) u))
    as [links|e]; [|reflexivity].
  destruct (completion (PdfExporter.exportPages (w_site w) links tempDir None))
    as [[|file others]|e]; try reflexivity.
  cbv zeta.
  set (files := file :: others).
  set (full := w_resolveOutputPath w outputPath).
  fold (writesOf (trace (fst (PdfMerger.merge (w_disk w) (storeOf files)
                                (Some (seq 0 (length files))) full)))).
  rewrite merge_writes, merge_completion.
  rewrite (omap_quiet _ (fst (PdfMerger.merge (w_disk w) (storeOf files)
                                (Some (seq 0 (length files))) full)))
    by (apply merge_traceAll; [reflexivity|intros []; (discriminate || reflexivity)]).
  subst files. cbn [length seq].
  destruct (d_ensureDirectoryExists (w_disk w)) as [[]|?],
    (d_save (w_disk w)) as [[]|?], (d_writeFileSync (w_disk w)) as [[]|?],
    (cleanTempFiles config); reflexivity.
Qed.

(** X19.  [export] closes the browser exactly when there is one to close:
    when this run has launched it, or when the exporter object still holds
    the browser of an earlier run.  A new exporter whose launch fails makes
    no call to close. *)
Theorem export_closes_iff_browser (this : Exporter) (u outputPath : string) :
  BrowserClose ∈ trace (fst (export config w this u outputPath)) <->
  w_launch w = Returns tt \/ browser this = true.
Proof.
  rewrite export_unfold, trace_tryFinally, elem_of_app.
  assert (Hbody : BrowserClose ∉
            trace (tryCatch (fst (initialize w this);;; exportSteps config w u outputPath)
                     (fun err => error "Export failed:";;; throw err))).
  { assert (H : traceAll (fun e => e <> BrowserClose)
                  (tryCatch (fst (initialize w this);;; exportSteps config w u outputPath)
                     (fun err => error "Export failed:";;; throw err))).
    { apply export_body_traceAll; try discriminate. intros [] ? ?; discriminate. }
    intros Hin. unfold traceAll in H. rewrite Forall_forall in H.
    by apply (H BrowserClose). }
  assert (Hbrowser : browser (snd (initialize w this)) = true <->
                     w_launch w = Returns tt \/ browser this = true).
  { unfold initialize. destruct (w_launch w) as [[]|e].
    - destruct (w_newContext w), (w_newPage w); cbn; split; auto.
    - cbn. split; [auto|]. intros [H|H]; [discriminate|exact H]. }
  rewrite <- Hbrowser. split.
  - intros [Hin|Hin]; [contradiction|].
    destruct (browser (snd (initialize w this))); [reflexivity|].
    cbn in Hin. by apply elem_of_nil in Hin.
  - intros ->. right. rewrite trace_bind. cbn [completion info snd trace fst].
    apply elem_of_app. right.
    destruct (w_close w); cbn; by left.
Qed.

(** X20.  When the site does not answer, [export] stops right after the
    navigation: it creates no temporary directory, collects no link, closes
    the browser and throws an [ExportError] that names the URL and carries
    the rejection as its cause (unless closing the browser fails too). *)
Theorem export_connection_failure
    (this : Exporter) (u outputPath : string) (cause : JsError)
    (Hlaunch : w_launch w = Returns tt)
    (Hcontext : w_newContext w = Returns tt)
    (Hpage : w_newPage w = Returns tt)
    (Hgoto : w_verifyGoto w = Throws cause) :
  let run := fst (export config w this u outputPath) in
  trace run
    = [ BrowserLaunch; BrowserNewContext; ContextNewPage;
        Logged Info ("Checking if Docusaurus is running: " +:+ u); PageGoto u;
        Logged Error "Export failed:";
        Logged Info "Closing browser..."; BrowserClose ] /\
  completion run
    = match w_close w with
      | Returns _ => Throws (connectionError u cause)
      | Throws e => Throws e
      end.
Proof.
  cbv zeta. unfold export, initialize, exportSteps, verifyDocusaurusRunning.
  rewrite Hlaunch, Hcontext, Hpage, Hgoto.
  destruct (w_close w) as [[]|e]; split; reflexivity.
Qed.
(** The completion of the steps of [export], case by case. *)
Lemma exportSteps_completion u outputPath :
  completion (exportSteps config w u outputPath) =
  match w_verifyGoto w with
  | Throws cause => Throws (connectionError u cause)
  | Returns _ =>
      match w_createTempDirectory w with
      | Throws e => Throws e
      | Returns tempDir =>
          match completion (LinkCollector.collectAllLinks config (w_navigation w) u) with
          | Throws e => Throws e
          | Returns links =>
              match completion (PdfExporter.exportPages (w_site w) links tempDir None) with
              | Throws e => Throws e
              | Returns [] =>
                  Throws (MkError ExportError "No pages were successfully exported" None)
              | Returns (_ :: _) =>
                  match d_ensureDirectoryExists (w_disk w), d_save (w_disk w),
                        d_writeFileSync (w_disk w) with
                  | Throws e, _, _ | Returns _, Throws e, _ | Returns _, Returns _, Throws e =>
                      Throws (MkError PdfMergeError "Failed to merge PDF files" (Some e))
                  | Returns _, Returns _, Returns _ =>
                      if cleanTempFiles config
                      then match w_removeDirectory w with
                           | Returns _ => Returns (w_resolveOutputPath w outputPath)
                           | Throws e => Throws e
                           end
                      else Returns (w_resolveOutputPath w outputPath)
                  end
              end
          end
      end
  end.
Proof.
  unfold exportSteps. rewrite completion_bind, verifyDocusaurusRunning_completion.
  destruct (w_verifyGoto w) as [[]|e]; [|reflexivity].
  rewrite completion_bind. cbn [completion perform snd].
  destruct (w_createTempDirectory w) as [tempDir|e]; [|reflexivity].
  rewrite completion_bind. cbn [completion info snd]. rewrite completion_bind.
  destruct (completion (LinkCollector.collectAllLinks config (w_navigation w) u))
    as [links|e]; [|reflexivity].
  rewrite completion_bind.
  destruct (completion (PdfExporter.exportPages (w_site w) links tempDir None))
    as [[|file others]|e]; [reflexivity| |reflexivity].
  rewrite completion_bind. cbn [length Nat.eqb completion ret snd].
  rewrite completion_bind, merge_completion. cbn [seq].
  destruct (d_ensureDirectoryExists (w_disk w)) as [[]|?]; [|reflexivity].
  destruct (d_save (w_disk w)) as [[]|?]; [|reflexivity].
  destruct (d_writeFileSync (w_disk w)) as [[]|?]; [|reflexivity].
  rewrite completion_bind.
  destruct (cleanTempFiles config); [|reflexivity].
  cbn [completion perform snd]. destruct (w_removeDirectory w) as [[]|?]; reflexivity.
Qed.

(** X23.  [export] returns, and then the resolved output path, exactly when
    every step that is not guarded succeeds: the three calls that set up the
    browser, the connection check, the creation of the temporary directory,
    the collection of the links, the export of at least one page, the three
    output steps of the merge, the removal of the temporary directory when
    it is asked for, and the closing of the browser.  In particular a failed
    removal or a failed close makes the call fail although the document has
    been written. *)
Theorem export_returns_iff (this : Exporter) (u outputPath p : string) :
  completion (fst (export config w this u outputPath)) = Returns p <->
  p = w_resolveOutputPath w outputPath /\
  w_launch w = Returns tt /\ w_newContext w = Returns tt /\ w_newPage w = Returns tt /\
  w_verifyGoto w = Returns tt /\
  (exists tempDir links file others,
     w_createTempDirectory w = Returns tempDir /\
     completion (LinkCollector.collectAllLinks config (w_navigation w) u) = Returns links /\
     completion (PdfExporter.exportPages (w_site w) links tempDir None)
       = Returns (file :: others)) /\
  d_ensureDirectoryExists (w_disk w) = Returns tt /\
  d_save (w_disk w) = Returns tt /\
  d_writeFileSync (w_disk w) = Returns tt /\
  (cleanTempFiles config = true -> w_removeDirectory w = Returns tt) /\
  w_close w = Returns tt.
Proof.
  rewrite export_unfold, completion_tryFinally, completion_tryCatch, completion_bind.
  rewrite exportSteps_completion.
  assert (Hinit : completion (fst (initialize w this)) =
                  match w_launch w, w_newContext w, w_newPage w with
                  | Throws e, _, _ | Returns _, Throws e, _ | Returns _, Returns _, Throws e =>
                      Throws e
                  | Returns _, Returns _, Returns _ => Returns tt
                  end).
  { unfold initialize.
    destruct (w_launch w) as [[]|?]; [|reflexivity].
    destruct (w_newContext w) as [[]|?]; [|reflexivity].
    destruct (w_newPage w) as [[]|?]; reflexivity. }
  assert (Hbrowser : w_launch w = Returns tt -> browser (snd (initialize w this)) = true)
    by apply initialize_browser.
  rewrite Hinit.
  assert (Hfail : forall (e : JsError) (q : string),
            match completion (if browser (snd (initialize w this))
                              then info "Closing browser...";;;
                                   perform BrowserClose (w_close w)
                              else ret tt) with
            | Returns _ => completion (error "Export failed:";;; @throw string e)
            | Throws e' => Throws e'
            end <> Returns q).
  { intros e q. destruct (completion (if browser _ then _ else _)); discriminate. }
  destruct (w_launch w) as [[]|e1].
  2:{ split; [intros H; by apply Hfail in H|intros (_ & H & _); discriminate]. }
  rewrite (Hbrowser eq_refl). rewrite completion_bind. cbn [completion info perform snd].
  clear Hfail Hbrowser Hinit.
  destruct (w_newContext w) as [[]|e2].
  2:{ destruct (w_close w); split; try discriminate; intros (_ & _ & H & _); discriminate. }
  destruct (w_newPage w) as [[]|e3].
  2:{ destruct (w_close w); split; try discriminate;
        intros (_ & _ & _ & H & _); discriminate. }
  destruct (w_verifyGoto w) as [[]|e4].
  2:{ destruct (w_close w); split; try discriminate;
        intros (_ & _ & _ & _ & H & _); discriminate. }
  destruct (w_createTempDirectory w) as [tempDir|e5].
  2:{ destruct (w_close w); split; try discriminate.
      all: intros (_ & _ & _ & _ & _ & (? & ? & ? & ? & H & _) & _); discriminate. }
  destruct (completion (LinkCollector.collectAllLinks config (w_navigation w) u))
    as [links|e6].
  2:{ destruct (w_close w); split; try discriminate.
      all: intros (_ & _ & _ & _ & _ & (? & ? & ? & ? & _ & H & _) & _); discriminate. }
  destruct (completion (PdfExporter.exportPages (w_site w) links tempDir None))
    as [[|file others]|e7] eqn:Hpages.
  1,3: destruct (w_close w); split; try discriminate.
  1-4: intros (_ & _ & _ & _ & _ & (t & l & f & o & [= <-] & [= <-] & H) & _);
       rewrite Hpages in H; discriminate.
  destruct (d_ensureDirectoryExists (w_disk w)) as [[]|e8].
  2:{ destruct (w_close w); split; try discriminate.
      all: intros (_ & _ & _ & _ & _ & _ & H & _); discriminate. }
  destruct (d_save (w_disk w)) as [[]|e9].
  2:{ destruct (w_close w); split; try discriminate.
      all: intros (_ & _ & _ & _ & _ & _ & _ & H & _); discriminate. }
  destruct (d_writeFileSync (w_disk w)) as [[]|e10].
  2:{ destruct (w_close w); split; try discriminate.
      all: intros (_ & _ & _ & _ & _ & _ & _ & _ & H & _); discriminate. }
  destruct (cleanTempFiles config).
  - destruct (w_removeDirectory w) as [[]|e11].
    + destruct (w_close w) as [[]|e12].
      * split.
        -- intros [= <-]. repeat split; eauto 10.
        -- intros (-> & _). reflexivity.
      * split; [discriminate|]. intros (_ & _ & _ & _ & _ & _ & _ & _ & _ & _ & H).
        discriminate.
    + destruct (w_close w); split; try discriminate.
      all: intros (_ & _ & _ & _ & _ & _ & _ & _ & _ & H & _);
           specialize (H eq_refl); discriminate.
  - destruct (w_close w) as [[]|e12].
    + split.
      * intros [= <-]. repeat split; eauto 10. discriminate.
      * intros (-> & _). reflexivity.
    + split; [discriminate|]. intros (_ & _ & _ & _ & _ & _ & _ & _ & _ & _ & H).
      discriminate.
Qed.
End OrchestratorCalls.

Lemma export_connection_failure_witness :
  completion (fst (DocusaurusPdfExporter.export defaultConfig unreachableSite
                     DocusaurusPdfExporter.newExporter "http://localhost:3000"
                     "out/docs.pdf"))
    = Throws (connectionError "http://localhost:3000" timeoutError).
Proof.
  apply (export_connection_failure defaultConfig unreachableSite
           DocusaurusPdfExporter.newExporter "http://localhost:3000" "out/docs.pdf"
           timeoutError); reflexivity.
Defined.

(** ** LinkCollector: failures and the fallback path *)

Section LinkCollectorFacts.
Import LinkCollector.
Variable config : Config.
Variable nav : NavigationPage.

(** X21.  [collectAllLinks] throws the first rejection among the calls it
    awaits outside a [try]: the navigation, the wait after it and, on the
    sidebar path, the count of the sections, the count of the top-level
    items and the last wait of the expansion, the wait after it and the
    extraction of the links, each thrown as it is.  On the fallback path
    only the extraction can fail, and its rejection is wrapped in a
    [LinkCollectionError].  A sidebar that does not show up is never an
    error. *)
Theorem collectAllLinks_throws_first_rejection (baseUrl : string) (e : JsError) :
  completion (collectAllLinks config nav baseUrl) = Throws e <->
  firstRejection
    ([rejection (np_goto nav); rejection (np_loadWait nav)] ++
     match np_waitForSelector nav with
     | Returns _ =>
         [ rejection (np_level1Count nav);
           rejection (sb_level1 (np_sidebar nav));
           rejection (sb_finalWait (np_sidebar nav));
           rejection (np_expandedWait nav);
           rejection (np_document nav) ]
     | Throws _ => [ linkCollectionError <$> rejection (np_document nav) ]
     end) = Some e.
Proof.
  unfold collectAllLinks.
  rewrite completion_bind. cbn [completion info snd].
  rewrite completion_bind. cbn [completion perform snd].
  destruct (np_goto nav) as [[]|e1]; [|cbn; split; congruence].
  rewrite completion_bind. cbn [completion perform snd].
  destruct (np_loadWait nav) as [[]|e2]; [|cbn; split; congruence].
  rewrite completion_bind. cbn [completion debug snd].
  rewrite completion_bind, completion_tryCatch, completion_bind.
  cbn [completion perform snd].
  destruct (np_waitForSelector nav) as [[]|e3].
  - cbn [completion ret snd].
    rewrite completion_bind. cbn [completion perform snd].
    destruct (np_level1Count nav) as [n|e4]; [|cbn; split; congruence].
    rewrite completion_bind. cbn [completion info snd].
    rewrite completion_bind, expandAll_completion.
    destruct (sb_level1 (np_sidebar nav)) as [items|e5]; [|cbn; split; congruence].
    destruct (sb_finalWait (np_sidebar nav)) as [[]|e6]; [|cbn; split; congruence].
    rewrite completion_bind. cbn [completion perform snd].
    destruct (np_expandedWait nav) as [[]|e7]; [|cbn; split; congruence].
    rewrite completion_bind. cbn [completion debug snd].
    unfold evalLinksOutcome.
    destruct (np_document nav) as [document|e8]; cbn; split; congruence.
  - rewrite completion_bind. cbn [completion warn ret snd].
    unfold collectLinksAlternative, evalLinksOutcome, linkCollectionError.
    destruct (np_document nav) as [document|e8]; cbn; split; congruence.
Qed.

(** X22.  When the sidebar does not show up, [collectAllLinks] makes no
    call on it: after the failed wait it only extracts the links, with no
    count, no expansion and no click. *)
Theorem collectAllLinks_fallback_trace (baseUrl : string) (timeout : JsError)
    (Hgoto : np_goto nav = Returns tt)
    (Hload : np_loadWait nav = Returns tt)
    (Hselector : np_waitForSelector nav = Throws timeout) :
  trace (collectAllLinks config nav baseUrl)
    = [ Logged Info "Waiting for page to load..."; PageGoto baseUrl; PageWait 2000;
        Logged Debug "Page loaded, starting link collection"; WaitForSelector;
        Logged Warn "Sidebar items not found, trying alternative approach";
        LinksEval ]
      ++ match np_document nav with
         | Returns document =>
             [ Logged Info ("Collected "
                              +:+ string_of_nat (length (evalLinks document))
                              +:+ " links (alternative method)") ]
         | Throws _ => []
         end.
Proof.
  unfold collectAllLinks, collectLinksAlternative, evalLinksOutcome.
  rewrite Hgoto, Hload, Hselector.
  destruct (np_document nav) as [document|e]; reflexivity.
Qed.
End LinkCollectorFacts.

Lemma collectAllLinks_fallback_trace_witness :
  clicksOf (trace (LinkCollector.collectAllLinks defaultConfig (repeatedLinkPage false)
                     "http://localhost:3000")) = [].
Proof.
  rewrite (collectAllLinks_fallback_trace defaultConfig (repeatedLinkPage false)
             "http://localhost:3000" timeoutError); reflexivity.
Defined.

Lemma export_returns_iff_witness :
  completion (fst (DocusaurusPdfExporter.export defaultConfig workingSite
                     DocusaurusPdfExporter.newExporter "http://localhost:3000"
                     "out/docs.pdf"))
    = Returns "/work/out/docs.pdf"%string.
Proof.
  apply (export_returns_iff defaultConfig workingSite).
  split; [reflexivity|]. do 4 (split; [reflexivity|]).
  split.
  { do 4 eexists. split; [reflexivity|]. split; [reflexivity|]. reflexivity. }
  repeat split; reflexivity.
Defined.
